(** * PolyDodge: the authoritative match simulation, the matchmaking and the
      client's side of the protocol

    A shallow embedding of the server's class [Match] ([server/Match.ts],
    the file [src/unnamed/part_000]), of the shared wire types of
    [protocol.ts] ([src/unnamed/part_004]), of the client's class
    [NetworkManager] ([src/unnamed/part_003]: the snapshot buffer,
    [getInterpolatedState] and [sendInput]), of the input that
    [Game.animate] builds ([src/unnamed/part_001]) and of the server's class
    [MatchManager] ([src/server/MatchManager.ts]).

    JavaScript numbers are kept behind the interface [Num], which has two
    instances: [F64], the IEEE 754 binary64 numbers that the program really
    computes with (Rocq's primitive floats), and [Exact], rational numbers
    with exact arithmetic.  Everything that does not depend on arithmetic
    is proved for every instance; concrete runs are evaluated in [F64].

    The functions of the JavaScript runtime that the code calls
    ([Math.sqrt], [Math.sin], [Math.cos], [Math.atan2], [Math.PI],
    [Math.random]) are the interface [MathLib]; [Date.now()] is an argument
    [now] of the operations that read the clock.  Of the socket traffic the
    snapshot broadcast and the queue status messages are kept; the [init]
    message is left out. *)

From Stdlib Require Import ZArith QArith Qabs List String Bool Lia Lqa.
From Stdlib Require Import Sorted Permutation.
From Stdlib Require Import PrimFloat Uint63 SpecFloat FloatOps FloatAxioms.
Import ListNotations.

Set Implicit Arguments.

(** ** Numbers *)

Class Num : Type := {
  num : Type;
  (** a numeric literal, or an integer converted to a number *)
  ofQ : Q -> num;
  nadd : num -> num -> num;
  nsub : num -> num -> num;
  nmul : num -> num -> num;
  ndiv : num -> num -> num;
  nopp : num -> num;
  nltb : num -> num -> bool;
  nleb : num -> num -> bool;
  (** [falsy x]: [x] converts to [false] (it is [0], [-0] or [NaN]) *)
  falsy : num -> bool;
  Math_abs : num -> num;
  Math_sign : num -> num;
  Math_max : num -> num -> num;
  Math_min : num -> num -> num
}.

Declare Scope num_scope.
Delimit Scope num_scope with num.
Notation "a + b" := (nadd a b) : num_scope.
Notation "a - b" := (nsub a b) : num_scope.
Notation "a * b" := (nmul a b) : num_scope.
Notation "a / b" := (ndiv a b) : num_scope.
Notation "- a" := (nopp a) : num_scope.
Notation "a <? b" := (nltb a b) (at level 70, no associativity) : num_scope.
Notation "a <=? b" := (nleb a b) (at level 70, no associativity) : num_scope.
Notation "a >? b" := (nltb b a) (at level 70, no associativity) : num_scope.

(** [lit n d] is the decimal literal [n/d]; [int n] the integer [n]. *)
Definition lit {N : Num} (n : Z) (d : positive) : num := ofQ (n # d).
Definition int {N : Num} (n : Z) : num := ofQ (inject_Z n).

(** *** Exact rational arithmetic *)

Definition Qltb (a b : Q) : bool := negb (Qle_bool b a).

#[export] Instance Exact : Num := {|
  num := Q;
  ofQ := fun q => q;
  nadd := Qplus;
  nsub := Qminus;
  nmul := Qmult;
  ndiv := Qdiv;
  nopp := Qopp;
  nltb := Qltb;
  nleb := Qle_bool;
  falsy := fun q => Qeq_bool q 0;
  Math_abs := Qabs.Qabs;
  Math_sign := fun q => inject_Z (Z.sgn (Qnum q));
  Math_max := fun a b => if Qle_bool a b then b else a;
  Math_min := fun a b => if Qle_bool a b then a else b
|}.

(** *** IEEE 754 binary64 *)

Module Float64.

(** An integer below 2^63 in absolute value, rounded to the nearest
    binary64 number. *)
Definition ofZ (z : Z) : float :=
  match z with
  | Z0 => PrimFloat.zero
  | Zpos _ => PrimFloat.of_uint63 (Uint63.of_Z z)
  | Zneg p => PrimFloat.opp (PrimFloat.of_uint63 (Uint63.of_Z (Zpos p)))
  end.

(** The literal [n/d] is the binary64 number nearest to the rational
    [n/d]: for [n] and [d] below 2^53 that is the correctly rounded
    quotient of the two integers. *)
Definition ofQ (q : Q) : float :=
  match Qden q with
  | xH => ofZ (Qnum q)
  | d => PrimFloat.div (ofZ (Qnum q)) (ofZ (Zpos d))
  end.

Definition falsy (x : float) : bool :=
  (PrimFloat.is_nan x || PrimFloat.eqb x PrimFloat.zero)%bool.

(** [Math.sign]: [NaN] and the two zeros are returned as they are. *)
Definition sign (x : float) : float :=
  if PrimFloat.ltb PrimFloat.zero x then PrimFloat.one
  else if PrimFloat.ltb x PrimFloat.zero then PrimFloat.opp PrimFloat.one
  else x.

(** [Math.max] and [Math.min]: [NaN] if an argument is [NaN]; [+0] is
    larger than [-0]. *)
Definition max (a b : float) : float :=
  if PrimFloat.is_nan a then a
  else if PrimFloat.is_nan b then b
  else if PrimFloat.ltb a b then b
  else if PrimFloat.ltb b a then a
  else if PrimFloat.get_sign a then b else a.

Definition min (a b : float) : float :=
  if PrimFloat.is_nan a then a
  else if PrimFloat.is_nan b then b
  else if PrimFloat.ltb a b then a
  else if PrimFloat.ltb b a then b
  else if PrimFloat.get_sign a then a else b.

End Float64.

#[export] Instance F64 : Num := {|
  num := float;
  ofQ := Float64.ofQ;
  nadd := PrimFloat.add;
  nsub := PrimFloat.sub;
  nmul := PrimFloat.mul;
  ndiv := PrimFloat.div;
  nopp := PrimFloat.opp;
  nltb := PrimFloat.ltb;
  nleb := PrimFloat.leb;
  falsy := Float64.falsy;
  Math_abs := PrimFloat.abs;
  Math_sign := Float64.sign;
  Math_max := Float64.max;
  Math_min := Float64.min
|}.

(** ** The runtime's mathematical functions *)

Class MathLib (N : Num) : Type := {
  Math_sqrt : num -> num;
  Math_sin : num -> num;
  Math_cos : num -> num;
  Math_atan2 : num -> num -> num;
  Math_PI : num;
  (** [Math_random n] is the value of the [n]-th call of [Math.random()] *)
  Math_random : nat -> num
}.

(** ** Wire types ([protocol.ts]) and the server's entities *)

Inductive Team := blue | red.
Inductive PlayerState := alive | out | respawning.
Inductive BallState := idle | held | thrown.
Inductive BallType := normal | curve | lob.
Inductive MatchState := warmup | playing | finished.

Definition Team_eqb (a b : Team) : bool :=
  match a, b with blue, blue | red, red => true | _, _ => false end.
Definition PlayerState_eqb (a b : PlayerState) : bool :=
  match a, b with
  | alive, alive | out, out | respawning, respawning => true
  | _, _ => false
  end.
Definition BallState_eqb (a b : BallState) : bool :=
  match a, b with
  | idle, idle | held, held | thrown, thrown => true
  | _, _ => false
  end.

(** [GameEvent]: the [type] tag is the constructor, [data] its arguments;
    the last argument is the [timestamp].  [by_] of an elimination is
    ['disconnect'] or the ball's [owner] (which may be [null]). *)
Inductive GameEvent :=
| Elimination (playerId : string) (by_ : option string) (timestamp : Z)
| Catch (playerId : string) (ballId : Z) (timestamp : Z)
| Win (winner : string) (timestamp : Z).

Section Simulation.

Context {N : Num} {M : MathLib N}.
Local Open Scope num_scope.

(** *** [THREE.Vector3] *)

Record Vector3 := mkV { x : num; y : num; z : num }.

Definition v_add (a b : Vector3) : Vector3 :=
  mkV (x a + x b) (y a + y b) (z a + z b).
Definition v_sub (a b : Vector3) : Vector3 :=
  mkV (x a - x b) (y a - y b) (z a - z b).
Definition multiplyScalar (a : Vector3) (s : num) : Vector3 :=
  mkV (x a * s) (y a * s) (z a * s).
Definition divideScalar (a : Vector3) (s : num) : Vector3 :=
  multiplyScalar a (int 1 / s).
Definition v_dot (a b : Vector3) : num :=
  x a * x b + y a * y b + z a * z b.
Definition v_length (a : Vector3) : num :=
  Math_sqrt (x a * x a + y a * y a + z a * z a).
(** [length() || 1] *)
Definition normalize (a : Vector3) : Vector3 :=
  let l := v_length a in
  divideScalar a (if falsy l then int 1 else l).
Definition distanceToSquared (a b : Vector3) : num :=
  let dx := x a - x b in
  let dy := y a - y b in
  let dz := z a - z b in
  dx * dx + dy * dy + dz * dz.
Definition distanceTo (a b : Vector3) : num :=
  Math_sqrt (distanceToSquared a b).
Definition v_zero : Vector3 := mkV (int 0) (int 0) (int 0).

(** *** [InputPacket] *)

Record ThrowInput := mkThrow {
  active : bool;
  charge : num;
  curve_ : num
}.

Record InputPacket := mkInput {
  seq : Z;
  timestamp : Z;
  move_x : num;
  move_z : num;
  aim : Vector3;
  sprint : bool;
  block : bool;
  throw : ThrowInput;
  catch : bool
}.

(** *** [ServerPlayer], [ServerBall] *)

Record ServerPlayer := mkPlayer {
  p_id : string;
  p_team : Team;
  p_pos : Vector3;
  p_vel : Vector3;
  p_rot : num;
  p_state : PlayerState;
  p_stamina : num;
  p_holding : option Z;
  p_blocking : bool;
  p_charge : num;
  p_lastInputSeq : Z;
  p_inputBuffer : list InputPacket
}.

Record ServerBall := mkBall {
  b_id : Z;
  b_pos : Vector3;
  b_vel : Vector3;
  b_state : BallState;
  b_owner : option string;
  b_type : BallType;
  b_curveFactor : num;
  b_lastInteraction : Z
}.

(** *** [WorldSnapshot] *)

Record PlayerSnapshot := mkPlayerSnapshot {
  ps_id : string;
  ps_team : Team;
  ps_pos : Vector3;
  ps_vel : Vector3;
  ps_rot : num;
  ps_state : PlayerState;
  ps_stamina : num;
  ps_holding : option Z;
  ps_blocking : bool;
  ps_charge : num
}.

Record BallSnapshot := mkBallSnapshot {
  bs_id : Z;
  bs_pos : Vector3;
  bs_vel : Vector3;
  bs_state : BallState;
  bs_owner : option string;
  bs_type : BallType
}.

Record WorldSnapshot := mkSnapshot {
  ws_tick : Z;
  ws_time : num;
  ws_timestamp : Z;
  ws_matchState : MatchState;
  ws_countdown : num;
  ws_players : list PlayerSnapshot;
  ws_balls : list BallSnapshot;
  ws_events : list GameEvent
}.

(** *** The class [Match] *)

Inductive Mode := casual | ranked.

(** [players] and [balls] are JavaScript [Map]s: association lists in
    insertion order, which is the order [forEach] visits them in.
    [history] maps a tick number to the positions of the players.
    The last four fields are the part of the runtime the match acts on: the
    interval timers that are live, the number of timers created so far, the
    snapshots emitted (with the socket each went to), and the number of
    [Math.random()] calls made so far. *)
Record Match := mkMatch {
  id : string;
  mode : Mode;
  players : list ServerPlayer;
  balls : list ServerBall;
  events : list GameEvent;
  tickInterval : option nat;
  startTime : Z;
  matchTime : num;
  tickCount : Z;
  lastTickTime : Z;
  matchState : MatchState;
  countdown : num;
  history : list (Z * list (string * Vector3));
  env_timers : list nat;
  env_timerCount : nat;
  env_sent : list (string * WorldSnapshot);
  env_randoms : nat
}.

Definition HISTORY_SIZE : nat := 30.
Definition TICK_RATE : num := int 30.
Definition TICK_DT : num := int 1 / TICK_RATE.

(** **** [Map] operations *)

Fixpoint players_get (k : string) (ps : list ServerPlayer) : option ServerPlayer :=
  match ps with
  | [] => None
  | p :: rest => if String.eqb (p_id p) k then Some p else players_get k rest
  end.

Fixpoint players_set (q : ServerPlayer) (ps : list ServerPlayer) : list ServerPlayer :=
  match ps with
  | [] => [q]
  | p :: rest =>
      if String.eqb (p_id p) (p_id q) then q :: rest else p :: players_set q rest
  end.

Definition players_delete (k : string) (ps : list ServerPlayer) : list ServerPlayer :=
  filter (fun p => negb (String.eqb (p_id p) k)) ps.

Fixpoint balls_get (k : Z) (bs : list ServerBall) : option ServerBall :=
  match bs with
  | [] => None
  | b :: rest => if Z.eqb (b_id b) k then Some b else balls_get k rest
  end.

Fixpoint balls_set (c : ServerBall) (bs : list ServerBall) : list ServerBall :=
  match bs with
  | [] => [c]
  | b :: rest =>
      if Z.eqb (b_id b) (b_id c) then c :: rest else b :: balls_set c rest
  end.

Fixpoint history_set (k : Z) (v : list (string * Vector3))
    (h : list (Z * list (string * Vector3))) : list (Z * list (string * Vector3)) :=
  match h with
  | [] => [(k, v)]
  | e :: rest =>
      if Z.eqb (fst e) k then (k, v) :: rest else e :: history_set k v rest
  end.

Definition history_delete (k : Z) (h : list (Z * list (string * Vector3)))
    : list (Z * list (string * Vector3)) :=
  filter (fun e => negb (Z.eqb (fst e) k)) h.

(** [a === b] for an [id] and an [owner] that may be [null] *)
Definition owner_is (o : option string) (k : string) : bool :=
  match o with
  | Some s => String.eqb s k
  | None => false
  end.

(** **** Field updates *)

Definition set_players (ps : list ServerPlayer) (m : Match) : Match :=
  mkMatch (id m) (mode m) ps (balls m) (events m) (tickInterval m)
    (startTime m) (matchTime m) (tickCount m) (lastTickTime m) (matchState m)
    (countdown m) (history m) (env_timers m) (env_timerCount m) (env_sent m)
    (env_randoms m).

Definition set_balls (bs : list ServerBall) (m : Match) : Match :=
  mkMatch (id m) (mode m) (players m) bs (events m) (tickInterval m)
    (startTime m) (matchTime m) (tickCount m) (lastTickTime m) (matchState m)
    (countdown m) (history m) (env_timers m) (env_timerCount m) (env_sent m)
    (env_randoms m).

Definition set_events (es : list GameEvent) (m : Match) : Match :=
  mkMatch (id m) (mode m) (players m) (balls m) es (tickInterval m)
    (startTime m) (matchTime m) (tickCount m) (lastTickTime m) (matchState m)
    (countdown m) (history m) (env_timers m) (env_timerCount m) (env_sent m)
    (env_randoms m).

Definition set_matchTime (t : num) (m : Match) : Match :=
  mkMatch (id m) (mode m) (players m) (balls m) (events m) (tickInterval m)
    (startTime m) t (tickCount m) (lastTickTime m) (matchState m)
    (countdown m) (history m) (env_timers m) (env_timerCount m) (env_sent m)
    (env_randoms m).

Definition set_tickCount (t : Z) (m : Match) : Match :=
  mkMatch (id m) (mode m) (players m) (balls m) (events m) (tickInterval m)
    (startTime m) (matchTime m) t (lastTickTime m) (matchState m)
    (countdown m) (history m) (env_timers m) (env_timerCount m) (env_sent m)
    (env_randoms m).

Definition set_matchState (s : MatchState) (m : Match) : Match :=
  mkMatch (id m) (mode m) (players m) (balls m) (events m) (tickInterval m)
    (startTime m) (matchTime m) (tickCount m) (lastTickTime m) s
    (countdown m) (history m) (env_timers m) (env_timerCount m) (env_sent m)
    (env_randoms m).

Definition set_countdown (c : num) (m : Match) : Match :=
  mkMatch (id m) (mode m) (players m) (balls m) (events m) (tickInterval m)
    (startTime m) (matchTime m) (tickCount m) (lastTickTime m) (matchState m)
    c (history m) (env_timers m) (env_timerCount m) (env_sent m)
    (env_randoms m).

Definition set_history (h : list (Z * list (string * Vector3))) (m : Match) : Match :=
  mkMatch (id m) (mode m) (players m) (balls m) (events m) (tickInterval m)
    (startTime m) (matchTime m) (tickCount m) (lastTickTime m) (matchState m)
    (countdown m) h (env_timers m) (env_timerCount m) (env_sent m)
    (env_randoms m).

Definition set_env_timers (ts : list nat) (m : Match) : Match :=
  mkMatch (id m) (mode m) (players m) (balls m) (events m) (tickInterval m)
    (startTime m) (matchTime m) (tickCount m) (lastTickTime m) (matchState m)
    (countdown m) (history m) ts (env_timerCount m) (env_sent m)
    (env_randoms m).

Definition set_env_sent (ss : list (string * WorldSnapshot)) (m : Match) : Match :=
  mkMatch (id m) (mode m) (players m) (balls m) (events m) (tickInterval m)
    (startTime m) (matchTime m) (tickCount m) (lastTickTime m) (matchState m)
    (countdown m) (history m) (env_timers m) (env_timerCount m) ss
    (env_randoms m).

Definition set_env_randoms (n : nat) (m : Match) : Match :=
  mkMatch (id m) (mode m) (players m) (balls m) (events m) (tickInterval m)
    (startTime m) (matchTime m) (tickCount m) (lastTickTime m) (matchState m)
    (countdown m) (history m) (env_timers m) (env_timerCount m) (env_sent m)
    n.

Definition set_p_inputBuffer (l : list InputPacket) (p : ServerPlayer) : ServerPlayer :=
  mkPlayer (p_id p) (p_team p) (p_pos p) (p_vel p) (p_rot p) (p_state p)
    (p_stamina p) (p_holding p) (p_blocking p) (p_charge p) (p_lastInputSeq p) l.

Definition set_p_lastInputSeq (n : Z) (p : ServerPlayer) : ServerPlayer :=
  mkPlayer (p_id p) (p_team p) (p_pos p) (p_vel p) (p_rot p) (p_state p)
    (p_stamina p) (p_holding p) (p_blocking p) (p_charge p) n (p_inputBuffer p).

Definition set_p_state (s : PlayerState) (p : ServerPlayer) : ServerPlayer :=
  mkPlayer (p_id p) (p_team p) (p_pos p) (p_vel p) (p_rot p) s
    (p_stamina p) (p_holding p) (p_blocking p) (p_charge p) (p_lastInputSeq p)
    (p_inputBuffer p).

Definition set_p_holding (h : option Z) (p : ServerPlayer) : ServerPlayer :=
  mkPlayer (p_id p) (p_team p) (p_pos p) (p_vel p) (p_rot p) (p_state p)
    (p_stamina p) h (p_blocking p) (p_charge p) (p_lastInputSeq p)
    (p_inputBuffer p).

Definition set_p_stamina (s : num) (p : ServerPlayer) : ServerPlayer :=
  mkPlayer (p_id p) (p_team p) (p_pos p) (p_vel p) (p_rot p) (p_state p)
    s (p_holding p) (p_blocking p) (p_charge p) (p_lastInputSeq p)
    (p_inputBuffer p).

Definition set_p_motion (pos vel : Vector3) (rot : num) (p : ServerPlayer) : ServerPlayer :=
  mkPlayer (p_id p) (p_team p) pos vel rot (p_state p)
    (p_stamina p) (p_holding p) (p_blocking p) (p_charge p) (p_lastInputSeq p)
    (p_inputBuffer p).

(** **** The constructor *)

Definition spawnZ (t : Team) : num :=
  match t with blue => - int 20 | red => int 20 end.

(** [(Math.random() - 0.5) * 20] *)
Definition spawnX (r : num) : num := (r - lit 5 10) * int 20.

Definition newPlayer (socketId : string) (index : nat) (r : num) : ServerPlayer :=
  let team := if Nat.even index then blue else red in
  mkPlayer socketId team
    (mkV (spawnX r) (lit 105 100) (spawnZ team))
    v_zero
    (match team with blue => Math_PI | red => int 0 end)
    alive (int 100) None false (int 0) 0%Z [].

Fixpoint initPlayers (sockets : list string) (index : nat) (rc : nat)
    (ps : list ServerPlayer) : list ServerPlayer * nat :=
  match sockets with
  | [] => (ps, rc)
  | s :: rest =>
      initPlayers rest (S index) (S rc)
        (players_set (newPlayer s index (Math_random rc)) ps)
  end.

Definition ballHome (i : Z) : Vector3 :=
  mkV ((int i - lit 25 10) * int 5) (lit 5 10) (int 0).

Definition newBall (i : Z) : ServerBall :=
  mkBall i (ballHome i) v_zero idle None normal (int 0) 0%Z.

Definition initBalls : list ServerBall :=
  map newBall [0; 1; 2; 3; 4; 5]%Z.

Definition new_Match (mid : string) (md : Mode) (sockets : list string) : Match :=
  let '(ps, rc) := initPlayers sockets 0 0 [] in
  mkMatch mid md ps initBalls [] None 0%Z (int 180) 0%Z 0%Z warmup (int 5) []
    [] 0 [] rc.

(** **** The handler of the socket's ['input'] message *)

(** [Array.prototype.sort] with the comparator [a.seq - b.seq]: a stable
    sort by ascending [seq]. *)
Fixpoint insertBySeq (a : InputPacket) (l : list InputPacket) : list InputPacket :=
  match l with
  | [] => [a]
  | b :: rest =>
      if (seq b <? seq a)%Z then b :: insertBySeq a rest else a :: l
  end.

Definition sortBySeq (l : list InputPacket) : list InputPacket :=
  fold_right insertBySeq [] l.

Definition onInput (socketId : string) (packet : InputPacket) (m : Match) : Match :=
  match players_get socketId (players m) with
  | Some p =>
      if (seq packet >? p_lastInputSeq p)%Z then
        set_players
          (players_set
             (set_p_inputBuffer (sortBySeq (p_inputBuffer p ++ [packet])) p)
             (players m)) m
      else m
  | None => m
  end.

(** **** [start], [stop], [isFinished], [removePlayer] *)

Definition start (now : Z) (m : Match) : Match :=
  let h := env_timerCount m in
  mkMatch (id m) (mode m) (players m) (balls m) (events m) (Some h)
    now (matchTime m) (tickCount m) now (matchState m)
    (countdown m) (history m) (h :: env_timers m) (S (env_timerCount m))
    (env_sent m) (env_randoms m).

(** [clearInterval] takes the timer out of the live ones. *)
Definition clearInterval (h : nat) (ts : list nat) : list nat :=
  filter (fun t => negb (Nat.eqb t h)) ts.

Definition stop (m : Match) : Match :=
  match tickInterval m with
  | Some h => set_env_timers (clearInterval h (env_timers m)) m
  | None => m
  end.

Definition isFinished (m : Match) : bool :=
  (matchTime m <=? int 0) || Nat.eqb (List.length (players m)) 0.

Definition dropBall (k : string) (b : ServerBall) : ServerBall :=
  if owner_is (b_owner b) k then
    mkBall (b_id b) (b_pos b) v_zero idle None (b_type b) (b_curveFactor b)
      (b_lastInteraction b)
  else b.

Definition removePlayer (now : Z) (k : string) (m : Match) : Match :=
  let m1 :=
    match players_get k (players m) with
    | Some p =>
        set_events (events m ++ [Elimination k (Some "disconnect"%string) now])
          (set_players (players_set (set_p_state out p) (players m)) m)
    | None => m
    end in
  let m2 := set_balls (map (dropBall k) (balls m1)) m1 in
  set_players (players_delete k (players m2)) m2.

(** **** [throwBall] *)

Definition throwBall (p : ServerPlayer) (bs : list ServerBall) (throwInput : ThrowInput)
    : ServerPlayer * list ServerBall :=
  match p_holding p with
  | None => (p, bs)
  | Some h =>
      match balls_get h bs with
      | None => (p, bs)
      | Some b =>
          let pos := v_add (p_pos p) (mkV (int 0) (lit 15 10) (int 0)) in
          let aimDir :=
            normalize (mkV (Math_sin (p_rot p)) (int 0) (Math_cos (p_rot p))) in
          let speed := int 25 + charge throwInput * int 25 in
          let v := multiplyScalar aimDir speed in
          let vel := mkV (x v) (int 2 + charge throwInput * int 5) (z v) in
          let type :=
            if Math_abs (curve_ throwInput) >? lit 5 10 then curve else normal in
          let b' :=
            mkBall (b_id b) pos vel thrown (Some (p_id p)) type
              (curve_ throwInput) (b_lastInteraction b) in
          (set_p_holding None p, balls_set b' bs)
      end
  end.

(** **** [tryCatch] *)

(** The body of the [forEach] of [tryCatch] for one ball: the ball, the
    player and the flag [caught] after it, with the events. *)
Definition tryCatchBall (now : Z) (b : ServerBall) (p : ServerPlayer)
    (caught : bool) (es : list GameEvent)
    : ServerBall * ServerPlayer * bool * list GameEvent :=
  if caught then (b, p, caught, es)
  else if BallState_eqb (b_state b) thrown && negb (owner_is (b_owner b) (p_id p)) then
    let dist := distanceTo (p_pos p) (b_pos b) in
    if dist <? int 3 then
      let toBall := normalize (v_sub (b_pos b) (p_pos p)) in
      let facing := mkV (Math_sin (p_rot p)) (int 0) (Math_cos (p_rot p)) in
      if v_dot facing toBall >? lit 5 10 then
        (mkBall (b_id b) (b_pos b) v_zero held (Some (p_id p)) (b_type b)
           (b_curveFactor b) (b_lastInteraction b),
         set_p_holding (Some (b_id b)) p,
         true,
         es ++ [Catch (p_id p) (b_id b) now])
      else (b, p, caught, es)
    else (b, p, caught, es)
  else if BallState_eqb (b_state b) idle
          && match p_holding p with None => true | Some _ => false end then
    let dist := distanceTo (p_pos p) (b_pos b) in
    if dist <? int 2 then
      (mkBall (b_id b) (b_pos b) (b_vel b) held (Some (p_id p)) (b_type b)
         (b_curveFactor b) (b_lastInteraction b),
       set_p_holding (Some (b_id b)) p,
       true,
       es)
    else (b, p, caught, es)
  else (b, p, caught, es).

Fixpoint tryCatchLoop (now : Z) (bs : list ServerBall) (p : ServerPlayer)
    (caught : bool) (es : list GameEvent)
    : list ServerBall * ServerPlayer * bool * list GameEvent :=
  match bs with
  | [] => ([], p, caught, es)
  | b :: rest =>
      let '(b', p', caught', es') := tryCatchBall now b p caught es in
      let '(rest', p'', caught'', es'') := tryCatchLoop now rest p' caught' es' in
      (b' :: rest', p'', caught'', es'')
  end.

Definition tryCatch (now : Z) (p : ServerPlayer) (bs : list ServerBall)
    (es : list GameEvent) : ServerPlayer * list ServerBall * list GameEvent :=
  let '(bs', p', _, es') := tryCatchLoop now bs p false es in
  (p', bs', es').

(** **** [checkHits] *)

Fixpoint checkHitsLoop (now : Z) (ps : list ServerPlayer) (b : ServerBall)
    (es : list GameEvent) : list ServerPlayer * ServerBall * list GameEvent :=
  match ps with
  | [] => ([], b, es)
  | p :: rest =>
      if owner_is (b_owner b) (p_id p) || negb (PlayerState_eqb (p_state p) alive) then
        let '(rest', b', es') := checkHitsLoop now rest b es in
        (p :: rest', b', es')
      else
        let dist := distanceTo (p_pos p) (b_pos b) in
        if dist <? int 1 then
          let v := multiplyScalar (b_vel b) (lit 2 10) in
          let b1 :=
            mkBall (b_id b) (b_pos b) (mkV (x v) (int 5) (z v)) idle (b_owner b)
              (b_type b) (b_curveFactor b) (b_lastInteraction b) in
          let '(rest', b', es') :=
            checkHitsLoop now rest b1 (es ++ [Elimination (p_id p) (b_owner b) now]) in
          (set_p_state out p :: rest', b', es')
        else
          let '(rest', b', es') := checkHitsLoop now rest b es in
          (p :: rest', b', es')
  end.

Definition checkHits (now : Z) (b : ServerBall) (ps : list ServerPlayer)
    (es : list GameEvent) : list ServerPlayer * ServerBall * list GameEvent :=
  checkHitsLoop now ps b es.

(** **** [respawnAll] *)

(** The body of the [forEach] over the players; [r] is the value that
    [Math.random()] returns. *)
Definition respawnPlayer (p : ServerPlayer) (r : num) : ServerPlayer :=
  mkPlayer (p_id p) (p_team p)
    (mkV (spawnX r) (lit 105 100) (spawnZ (p_team p)))
    v_zero (p_rot p) alive (int 100) None (p_blocking p) (p_charge p)
    (p_lastInputSeq p) (p_inputBuffer p).

Fixpoint respawnPlayers (ps : list ServerPlayer) (rc : nat) : list ServerPlayer * nat :=
  match ps with
  | [] => ([], rc)
  | p :: rest =>
      let p' := respawnPlayer p (Math_random rc) in
      let '(rest', rc') := respawnPlayers rest (S rc) in
      (p' :: rest', rc')
  end.

Definition respawnBall (b : ServerBall) : ServerBall :=
  mkBall (b_id b) (ballHome (b_id b)) v_zero idle None (b_type b)
    (b_curveFactor b) (b_lastInteraction b).

Definition respawnAll (m : Match) : Match :=
  let '(ps, rc) := respawnPlayers (players m) (env_randoms m) in
  set_env_randoms rc (set_balls (map respawnBall (balls m)) (set_players ps m)).

(** **** [broadcastSnapshot] *)

Definition snapshotOfPlayer (p : ServerPlayer) : PlayerSnapshot :=
  mkPlayerSnapshot (p_id p) (p_team p) (p_pos p) (p_vel p) (p_rot p) (p_state p)
    (p_stamina p) (p_holding p) (p_blocking p) (p_charge p).

Definition snapshotOfBall (b : ServerBall) : BallSnapshot :=
  mkBallSnapshot (b_id b) (b_pos b) (b_vel b) (b_state b) (b_owner b) (b_type b).

Definition broadcastSnapshot (now : Z) (m : Match) : Match :=
  let snapshot :=
    mkSnapshot (tickCount m) (matchTime m) now (matchState m) (countdown m)
      (map snapshotOfPlayer (players m)) (map snapshotOfBall (balls m))
      (events m) in
  let m1 :=
    set_env_sent (env_sent m ++ map (fun p => (p_id p, snapshot)) (players m)) m in
  set_events [] m1.

(** **** [tick]: the phase *)

Definition tickPhase (now : Z) (m : Match) : Match :=
  let dt := TICK_DT in
  match matchState m with
  | warmup =>
      let c := countdown m - dt in
      if c <=? int 0 then
        respawnAll (set_countdown (int 0) (set_matchState playing (set_countdown c m)))
      else set_countdown c m
  | playing =>
      let t := matchTime m - dt in
      if t <=? int 0 then
        stop (set_events (events m ++ [Win "draw"%string now])
                (set_matchState finished (set_matchTime t m)))
      else set_matchTime t m
  | finished => m
  end.

(** **** [tick]: the inputs *)

(** The body of the [while] loop after [shift()]: one intent applied to the
    player [p], with the balls and the events. *)
Definition applyInput (now : Z) (input : InputPacket) (p : ServerPlayer)
    (bs : list ServerBall) (es : list GameEvent)
    : ServerPlayer * list ServerBall * list GameEvent :=
  let dt := TICK_DT in
  let p := set_p_lastInputSeq (seq input) p in
  if negb (PlayerState_eqb (p_state p) alive) then (p, bs, es)
  else
    let speed :=
      if sprint input && (p_stamina p >? int 0) then int 15 else int 8 in
    let moveDir := normalize (mkV (move_x input) (int 0) (move_z input)) in
    let vel := mkV (x moveDir * speed) (y (p_vel p)) (z moveDir * speed) in
    let pos := v_add (p_pos p) (multiplyScalar vel dt) in
    let limit := int 30 in
    let pos := mkV (Math_max (- limit) (Math_min limit (x pos))) (y pos) (z pos) in
    let pos := mkV (x pos) (y pos) (Math_max (- limit) (Math_min limit (z pos))) in
    let rot := Math_atan2 (x (aim input)) (z (aim input)) in
    let p := set_p_motion pos vel rot p in
    let '(p, bs) :=
      if active (throw input)
         && match p_holding p with Some _ => true | None => false end
      then throwBall p bs (throw input)
      else (p, bs) in
    let '(p, bs, es) :=
      if catch input then tryCatch now p bs es else (p, bs, es) in
    let p :=
      if sprint input then
        set_p_stamina (Math_max (int 0) (p_stamina p - int 10 * dt)) p
      else
        set_p_stamina (Math_min (int 100) (p_stamina p + int 5 * dt)) p in
    (p, bs, es).

(** [while (p.inputBuffer.length > 0) { const input = p.inputBuffer.shift(); ... }]:
    one iteration, [None] when the loop condition fails. *)
Definition drainStep (now : Z)
    (st : ServerPlayer * list ServerBall * list GameEvent)
    : option (ServerPlayer * list ServerBall * list GameEvent) :=
  let '(p, bs, es) := st in
  match p_inputBuffer p with
  | [] => None
  | input :: rest => Some (applyInput now input (set_p_inputBuffer rest p) bs es)
  end.

(** At most [n] iterations of the loop. *)
Fixpoint drainLoop (now : Z) (n : nat)
    (st : ServerPlayer * list ServerBall * list GameEvent)
    : ServerPlayer * list ServerBall * list GameEvent :=
  match n with
  | O => st
  | S k =>
      match drainStep now st with
      | Some st' => drainLoop now k st'
      | None => st
      end
  end.

(** The loop body does not touch the buffer, so the loop ends after as many
    iterations as the buffer has elements ([drainInputs_spec] below). *)
Definition drainInputs (now : Z) (p : ServerPlayer) (bs : list ServerBall)
    (es : list GameEvent) : ServerPlayer * list ServerBall * list GameEvent :=
  drainLoop now (List.length (p_inputBuffer p)) (p, bs, es).

Fixpoint processInputs (now : Z) (ps : list ServerPlayer) (bs : list ServerBall)
    (es : list GameEvent) : list ServerPlayer * list ServerBall * list GameEvent :=
  match ps with
  | [] => ([], bs, es)
  | p :: rest =>
      let '(p', bs', es') := drainInputs now p bs es in
      let '(rest', bs'', es'') := processInputs now rest bs' es' in
      (p' :: rest', bs'', es'')
  end.

(** **** [tick]: the balls *)

Definition owner_truthy (o : option string) : bool :=
  match o with
  | Some s => negb (String.eqb s "")
  | None => false
  end.

(** Gravity and the move. *)
Definition ballFall (b : ServerBall) : ServerBall :=
  let dt := TICK_DT in
  let vel :=
    if y (b_pos b) >? lit 35 100
    then mkV (x (b_vel b)) (y (b_vel b) - int 15 * dt) (z (b_vel b))
    else b_vel b in
  let pos := v_add (b_pos b) (multiplyScalar vel dt) in
  mkBall (b_id b) pos vel (b_state b) (b_owner b) (b_type b) (b_curveFactor b)
    (b_lastInteraction b).

Definition floorBounce (b : ServerBall) : ServerBall :=
  if y (b_pos b) <? lit 35 100 then
    let pos := mkV (x (b_pos b)) (lit 35 100) (z (b_pos b)) in
    let vel :=
      mkV (x (b_vel b) * lit 9 10) (y (b_vel b) * - lit 6 10)
        (z (b_vel b) * lit 9 10) in
    if BallState_eqb (b_state b) thrown then
      mkBall (b_id b) pos vel idle None normal (b_curveFactor b)
        (b_lastInteraction b)
    else
      mkBall (b_id b) pos vel (b_state b) (b_owner b) (b_type b)
        (b_curveFactor b) (b_lastInteraction b)
  else b.

Definition wallBounceX (b : ServerBall) : ServerBall :=
  let limit := int 29 in
  if Math_abs (x (b_pos b)) >? limit then
    mkBall (b_id b)
      (mkV (Math_sign (x (b_pos b)) * limit) (y (b_pos b)) (z (b_pos b)))
      (mkV (x (b_vel b) * - lit 6 10) (y (b_vel b)) (z (b_vel b)))
      idle (b_owner b) (b_type b) (b_curveFactor b) (b_lastInteraction b)
  else b.

Definition wallBounceZ (b : ServerBall) : ServerBall :=
  let limit := int 29 in
  if Math_abs (z (b_pos b)) >? limit then
    mkBall (b_id b)
      (mkV (x (b_pos b)) (y (b_pos b)) (Math_sign (z (b_pos b)) * limit))
      (mkV (x (b_vel b)) (y (b_vel b)) (z (b_vel b) * - lit 6 10))
      idle (b_owner b) (b_type b) (b_curveFactor b) (b_lastInteraction b)
  else b.

(** Gravity, the move and the bounces, in the order of the code. *)
Definition ballMotion (b : ServerBall) : ServerBall :=
  wallBounceZ (wallBounceX (floorBounce (ballFall b))).

(** The body of the [forEach] over the balls. *)
Definition physicsBall (now : Z) (b : ServerBall) (ps : list ServerPlayer)
    (es : list GameEvent) : ServerBall * list ServerPlayer * list GameEvent :=
  if BallState_eqb (b_state b) thrown || BallState_eqb (b_state b) idle then
    let b3 := ballMotion b in
    if BallState_eqb (b_state b3) thrown && (v_length (b_vel b3) >? int 5) then
      let '(ps', b4, es') := checkHits now b3 ps es in
      (b4, ps', es')
    else (b3, ps, es)
  else if BallState_eqb (b_state b) held && owner_truthy (b_owner b) then
    match b_owner b with
    | Some o =>
        match players_get o ps with
        | Some p =>
            (mkBall (b_id b) (v_add (p_pos p) (mkV (int 0) (int 1) (int 0)))
               (b_vel b) (b_state b) (b_owner b) (b_type b) (b_curveFactor b)
               (b_lastInteraction b),
             ps, es)
        | None =>
            (mkBall (b_id b) (b_pos b) (b_vel b) idle None (b_type b)
               (b_curveFactor b) (b_lastInteraction b),
             ps, es)
        end
    | None => (b, ps, es)
    end
  else (b, ps, es).

Fixpoint physics (now : Z) (bs : list ServerBall) (ps : list ServerPlayer)
    (es : list GameEvent) : list ServerBall * list ServerPlayer * list GameEvent :=
  match bs with
  | [] => ([], ps, es)
  | b :: rest =>
      let '(b', ps', es') := physicsBall now b ps es in
      let '(rest', ps'', es'') := physics now rest ps' es' in
      (b' :: rest', ps'', es'')
  end.

(** **** [tick]: the history, and the whole *)

Definition storeHistory (m : Match) : Match :=
  let snapshot := map (fun p => (p_id p, p_pos p)) (players m) in
  let h := history_set (tickCount m) snapshot (history m) in
  if Nat.ltb HISTORY_SIZE (List.length h) then
    set_history (history_delete (tickCount m - Z.of_nat HISTORY_SIZE) h) m
  else set_history h m.

Definition tick (now : Z) (m : Match) : Match :=
  let m := set_tickCount (tickCount m + 1) m in
  let m := tickPhase now m in
  let '(ps, bs, es) := processInputs now (players m) (balls m) (events m) in
  let '(bs, ps, es) := physics now bs ps es in
  let m := set_events es (set_balls bs (set_players ps m)) in
  let m := storeHistory m in
  if Z.eqb (Z.rem (tickCount m) 2) 0 then broadcastSnapshot now m else m.

End Simulation.

(** ** The client's snapshot buffer ([NetworkManager.ts]) *)

Section Client.

Context {N : Num}.
Local Open Scope num_scope.

Record NetworkManager := mkNetworkManager {
  inputSeq : Z;
  snapshots : list WorldSnapshot;
  playerId : option string;
  matchId : option string;
  serverTimeOffset : Z
}.

(** The handler of the ['snapshot'] message: [push], then [shift] once the
    buffer holds more than 20. *)
Definition onSnapshot (snapshot : WorldSnapshot) (nm : NetworkManager) : NetworkManager :=
  let l := snapshots nm ++ [snapshot] in
  mkNetworkManager (inputSeq nm)
    (if Nat.ltb 20 (List.length l) then tl l else l)
    (playerId nm) (matchId nm) (serverTimeOffset nm).

(** What [getInterpolatedState] returns: [null], a snapshot, or the object
    [{ prev, next, fraction }]. *)
Inductive InterpolatedState :=
| Null
| Latest (snapshot : WorldSnapshot)
| Frame (prev next : WorldSnapshot) (fraction : num).

(** The [for] loop: the first [i] with
    [snapshots[i].timestamp <= t && snapshots[i+1].timestamp >= t]. *)
Fixpoint findWindow (l : list WorldSnapshot) (t : Z) : option (WorldSnapshot * WorldSnapshot) :=
  match l with
  | a :: rest =>
      match rest with
      | b :: _ =>
          if (ws_timestamp a <=? t)%Z && (ws_timestamp b >=? t)%Z
          then Some (a, b)
          else findWindow rest t
      | [] => None
      end
  | [] => None
  end.

(** [now] is [Date.now()]; the argument [renderTime] is not read. *)
Definition getInterpolatedState (now : Z) (renderTime : num) (nm : NetworkManager)
    : InterpolatedState :=
  let serverTime := (now + serverTimeOffset nm)%Z in
  let interpolationTime := (serverTime - 100)%Z in
  match snapshots nm with
  | prev0 :: next0 :: _ =>
      let '(prev, next) :=
        match findWindow (snapshots nm) interpolationTime with
        | Some w => w
        | None => (prev0, next0)
        end in
      if (ws_timestamp next <? interpolationTime)%Z then Latest next
      else
        let total := int (ws_timestamp next) - int (ws_timestamp prev) in
        let fraction := (int interpolationTime - int (ws_timestamp prev)) / total in
        Frame prev next fraction
  | _ => Null
  end.

End Client.

(** ** The binary64 runtime

    [Math.sqrt] is the correctly rounded square root.  Of the trigonometric
    functions only the values at the arguments that the runs below reach are
    given ([NaN] stands for every other one): [atan2(0, 1) = 0],
    [atan2(0, -1) = PI], [sin 0 = 0], [cos 0 = 1], [cos PI = -1] and
    [sin PI = 1.2246467991473532e-16]. *)

Module JsMath.

Definition PI : float := 0x1.921fb54442d18p+1%float.

Definition sin (a : float) : float :=
  if PrimFloat.eqb a PrimFloat.zero then a
  else if PrimFloat.eqb a PI then 0x1.1a62633145c07p-53%float
  else PrimFloat.nan.

Definition cos (a : float) : float :=
  if PrimFloat.eqb a PrimFloat.zero then PrimFloat.one
  else if PrimFloat.eqb a PI then PrimFloat.opp PrimFloat.one
  else PrimFloat.nan.

Definition atan2 (a b : float) : float :=
  if PrimFloat.eqb a PrimFloat.zero && negb (PrimFloat.get_sign a) then
    if PrimFloat.ltb PrimFloat.zero b then PrimFloat.zero
    else if PrimFloat.ltb b PrimFloat.zero then PI
    else PrimFloat.nan
  else PrimFloat.nan.

(** The runtime whose [Math.random()] returns [rnd n] at its [n]-th call. *)
Definition lib (rnd : nat -> float) : MathLib F64 :=
  {| Math_sqrt := PrimFloat.sqrt : @num F64 -> @num F64;
     Math_sin := sin : @num F64 -> @num F64;
     Math_cos := cos : @num F64 -> @num F64;
     Math_atan2 := atan2 : @num F64 -> @num F64 -> @num F64;
     Math_PI := PI : @num F64;
     Math_random := rnd : nat -> @num F64 |}.

End JsMath.

(** ** Runs of a match *)

Section Runs.

Context {N : Num} {M : MathLib N}.

(** What the server does to a match: it is created, started and stopped,
    its sockets deliver inputs, players leave, and the timer fires. *)
Inductive reachable : Match -> Prop :=
| reach_new : forall mid md sockets, reachable (new_Match mid md sockets)
| reach_start : forall now m, reachable m -> reachable (start now m)
| reach_stop : forall m, reachable m -> reachable (stop m)
| reach_input : forall k packet m, reachable m -> reachable (onInput k packet m)
| reach_remove : forall now k m, reachable m -> reachable (removePlayer now k m)
| reach_tick : forall now m, reachable m -> reachable (tick now m).

(** [n] ticks in a row (the clock reads [now] at each). *)
Fixpoint ticks (now : Z) (n : nat) (m : Match) : Match :=
  match n with
  | O => m
  | S k => ticks now k (tick now m)
  end.

(** The packets of [l] arrive on the socket [k], in this order. *)
Definition feed (k : string) (l : list InputPacket) (m : Match) : Match :=
  fold_left (fun m packet => onInput k packet m) l m.

(** The phase, the countdown and the remaining time: what [tickPhase] does
    to them does not depend on anything else. *)
Definition phaseStep (s : MatchState * num * num) : MatchState * num * num :=
  let '(st, c, t) := s in
  match st with
  | warmup =>
      let c' := (c - TICK_DT)%num in
      if (c' <=? int 0)%num then (playing, int 0, t) else (warmup, c', t)
  | playing =>
      let t' := (t - TICK_DT)%num in
      if (t' <=? int 0)%num then (finished, c, t') else (playing, c, t')
  | finished => (finished, c, t)
  end.

Definition phaseOf (m : Match) : MatchState * num * num :=
  (matchState m, countdown m, matchTime m).

(** The phases in the order warmup, active, finished. *)
Definition phaseRank (s : MatchState) : nat :=
  match s with warmup => 0 | playing => 1 | finished => 2 end.

(** *** Invariants of the entities *)

(** The buffer of a player is sorted by [seq], and every buffered intent is
    newer than the last one applied. *)
Definition bufferOrdered (p : ServerPlayer) : Prop :=
  Sorted Z.le (map seq (p_inputBuffer p))
  /\ Forall (fun i => (p_lastInputSeq p < seq i)%Z) (p_inputBuffer p).

(** A ball that is held or in flight has an owner. *)
Definition ownedWhenOut (b : ServerBall) : Prop :=
  (b_state b = held \/ b_state b = thrown) -> b_owner b <> None.

Definition Inv (m : Match) : Prop :=
  NoDup (map p_id (players m))
  /\ Forall bufferOrdered (players m)
  /\ Forall ownedWhenOut (balls m).

(** What a tick leaves of a player's input state: the buffer is empty and
    the last applied sequence number is that of the last buffered intent. *)
Definition inputState (p : ServerPlayer) : string * Z * list InputPacket :=
  (p_id p, p_lastInputSeq p, p_inputBuffer p).

Definition inputStateDrained (p : ServerPlayer) : string * Z * list InputPacket :=
  (p_id p, last (map seq (p_inputBuffer p)) (p_lastInputSeq p), []).

(** [p'] has the identity and the input state of [p]. *)
Definition sameInput (p p' : ServerPlayer) : Prop :=
  p_id p' = p_id p
  /\ p_lastInputSeq p' = p_lastInputSeq p
  /\ p_inputBuffer p' = p_inputBuffer p.

(** [b'] has the state and the owner of [b], or it has an owner, or it is
    idle: the ways in which the simulation changes a ball. *)
Definition ballStep (b b' : ServerBall) : Prop :=
  (b_state b' = b_state b /\ b_owner b' = b_owner b)
  \/ b_owner b' <> None
  \/ b_state b' = idle.

(** If [b'] is in flight then [b] was, with the same owner. *)
Definition keepsThrower (b b' : ServerBall) : Prop :=
  b_state b' = thrown -> b_state b = thrown /\ b_owner b' = b_owner b.

(** *** Catching *)

(** [b'] is held and [b] was not. *)
Definition newlyHeld (b b' : ServerBall) : bool :=
  negb (BallState_eqb (b_state b) held) && BallState_eqb (b_state b') held.

(** The number of balls that became held between [bs] and [bs']. *)
Definition acquired (bs bs' : list ServerBall) : nat :=
  List.length (filter (fun bb => newlyHeld (fst bb) (snd bb)) (combine bs bs')).

(** *** The holding references, as the data model states them

    A player's held-ball reference points to a ball whose owner is that
    player and whose state is held, and every ball in state held with owner
    [p] is the ball referenced by [p]. *)
Definition ownRef (bs : list ServerBall) (p : ServerPlayer) : Prop :=
  forall h, p_holding p = Some h ->
    exists b, balls_get h bs = Some b
              /\ b_state b = held /\ b_owner b = Some (p_id p).

Definition holdsOwned (m : Match) : Prop :=
  forall p, In p (players m) -> ownRef (balls m) p.

Definition heldIsReferenced (m : Match) : Prop :=
  forall b k, In b (balls m) -> b_state b = held -> b_owner b = Some k ->
    exists p, players_get k (players m) = Some p
              /\ p_holding p = Some (b_id b).

Definition holdingConsistent (m : Match) : Prop :=
  holdsOwned m /\ heldIsReferenced m.

(** The balls that are held and not owned by [k] are the same in [bs'] as in
    [bs]. *)
Definition frame (k : string) (bs bs' : list ServerBall) : Prop :=
  forall i c, balls_get i bs = Some c -> b_state c = held ->
              b_owner c <> Some k -> balls_get i bs' = Some c.

(** The identity of a player and what it holds. *)
Definition grip (p : ServerPlayer) : string * option Z :=
  (p_id p, p_holding p).

(** What [tryCatch] by [p] does to a ball: nothing, or the ball was not held
    and is now held by [p]. *)
Definition caughtBy (p : ServerPlayer) (b b' : ServerBall) : Prop :=
  b_id b' = b_id b
  /\ (b' = b
      \/ (b_state b <> held /\ b_state b' = held /\ b_owner b' = Some (p_id p))).

(** What the ball physics does to a held ball whose owner is one of the
    players [ids]: it stays held, with its owner. *)
Definition stays (ids : list string) (b b' : ServerBall) : Prop :=
  b_id b' = b_id b
  /\ (b_state b = held -> (forall o, b_owner b = Some o -> In o ids) ->
      b_state b' = held /\ b_owner b' = b_owner b).

(** The ball identifiers are distinct and every reference names a ball that
    its player holds. *)
Definition gripped (m : Match) : Prop :=
  NoDup (map b_id (balls m)) /\ Forall (ownRef (balls m)) (players m).

(** *** The tie-break, as the design states it

    More surviving players on a team wins; equal counts is a draw. *)
Definition survivors (t : Team) (ps : list ServerPlayer) : nat :=
  List.length
    (filter (fun p => Team_eqb (p_team p) t && PlayerState_eqb (p_state p) alive) ps).

Definition tieBreakWinner (ps : list ServerPlayer) : string :=
  if Nat.ltb (survivors red ps) (survivors blue ps) then "blue"
  else if Nat.ltb (survivors blue ps) (survivors red ps) then "red"
  else "draw".

(** *** Bounds of a player *)

Definition inArena (p : ServerPlayer) : Prop :=
  (- int 30 <=? x (p_pos p))%num = true /\ (x (p_pos p) <=? int 30)%num = true
  /\ (- int 30 <=? z (p_pos p))%num = true /\ (z (p_pos p) <=? int 30)%num = true.

Definition staminaBounded (p : ServerPlayer) : Prop :=
  (int 0 <=? p_stamina p)%num = true /\ (p_stamina p <=? int 100)%num = true.

(** The position and the stamina of a player. *)
Definition body (p : ServerPlayer) : Vector3 * num :=
  (p_pos p, p_stamina p).

End Runs.

Definition bounded (p : @ServerPlayer Exact) : Prop :=
  staminaBounded p /\ inArena p.

(** *** The interpolation window *)

Section Window.

Context {N : Num}.

(** No pair of neighbours before position [i] brackets the time [t]. *)
Definition noEarlierWindow (l : list WorldSnapshot) (i : nat) (t : Z) : Prop :=
  forall j a b, (j < i)%nat ->
    nth_error l j = Some a -> nth_error l (S j) = Some b ->
    ~ (ws_timestamp a <= t /\ t <= ws_timestamp b)%Z.

(** The buffer is in the order of the server's clock. *)
Definition inTimeOrder (l : list WorldSnapshot) : Prop :=
  Sorted Z.le (map ws_timestamp l).

Definition clamp01 (f : num) : num :=
  Math_min (int 1) (Math_max (int 0) f).

End Window.

(** ** More of the match: hits, catches, events, the history

    Notions that the properties of [checkHits], [tryCatch], the history
    buffer and the snapshot broadcast are stated with. *)

Section Checks.

Context {N : Num} {M : MathLib N}.

(** The test of [checkHits] for the player [p]: not the owner of the ball,
    alive, and less than 1 away from it. *)
Definition hitBy (b : ServerBall) (p : ServerPlayer) : bool :=
  negb (owner_is (b_owner b) (p_id p))
  && PlayerState_eqb (p_state p) alive
  && (distanceTo (p_pos p) (b_pos b) <? int 1)%num.

(** The integers [a], [a + 1], ..., [a + n - 1]. *)
Fixpoint ticksFrom (a : Z) (n : nat) : list Z :=
  match n with
  | O => []
  | S k => a :: ticksFrom (a + 1) k
  end.

(** The ticks that the history holds after tick [t]: the last 30, or all
    of them when there are fewer. *)
Definition storedTicks (t : Z) : list Z :=
  let n := Nat.min (Z.to_nat t) HISTORY_SIZE in
  ticksFrom (t - Z.of_nat n + 1) n.

(** The tick counter is not negative and the history holds the last ticks. *)
Definition historyKept (m : Match) : Prop :=
  (0 <= tickCount m)%Z /\ map fst (history m) = storedTicks (tickCount m).

(** In the phase finished the clock is at zero or below. *)
Definition clockOut (s : MatchState * num * num) : Prop :=
  fst (fst s) = finished -> (snd s <=? int 0)%num = true.

(** The last applied sequence number is not negative. *)
Definition seqStarted (p : ServerPlayer) : Prop := (0 <= p_lastInputSeq p)%Z.

(** The player that the constructor makes for the socket [snd js], which is
    at position [fst js] of [sockets]. *)
Definition seat (js : nat * string) : ServerPlayer :=
  newPlayer (snd js) (fst js) (Math_random (fst js)).

(** The match has an interval timer, which is live unless the phase is
    finished. *)
Definition ticking (m : Match) : Prop :=
  exists h, tickInterval m = Some h
            /\ (matchState m <> finished -> In h (env_timers m)).

End Checks.

Section Intents.

Context {N : Num} {M : MathLib N}.
Local Open Scope num_scope.

(** The test of the first branch of [tryCatch]: a ball in flight, thrown by
    somebody else, less than 3 away and in front of the player. *)
Definition canCatch (p : ServerPlayer) (b : ServerBall) : bool :=
  BallState_eqb (b_state b) thrown
  && negb (owner_is (b_owner b) (p_id p))
  && (distanceTo (p_pos p) (b_pos b) <? int 3)
  && (v_dot (mkV (Math_sin (p_rot p)) (int 0) (Math_cos (p_rot p)))
        (normalize (v_sub (b_pos b) (p_pos p))) >? lit 5 10).

(** The test of the second branch: an idle ball less than 2 away, for a
    player who holds nothing. *)
Definition canPickUp (p : ServerPlayer) (b : ServerBall) : bool :=
  BallState_eqb (b_state b) idle
  && match p_holding p with None => true | Some _ => false end
  && (distanceTo (p_pos p) (b_pos b) <? int 2).

(** The ball [b] in the hand of [p]: a caught ball is stopped, a picked up
    one keeps its velocity. *)
Definition inHand (p : ServerPlayer) (b : ServerBall) : ServerBall :=
  mkBall (b_id b) (b_pos b)
    (if BallState_eqb (b_state b) thrown then v_zero else b_vel b)
    held (Some (p_id p)) (b_type b) (b_curveFactor b) (b_lastInteraction b).

(** The event is a win event. *)
Definition isWin (e : GameEvent) : bool :=
  match e with Win _ _ => true | _ => false end.

(** [es'] is [es] with more events at its end, none of them a win. *)
Definition appended (es es' : list GameEvent) : Prop :=
  exists d, es' = es ++ d /\ Forall (fun e => isWin e = false) d.

(** The tick ends the match: the phase is active and the clock runs out. *)
Definition finishing (m : Match) : bool :=
  match matchState m with
  | playing => matchTime m - TICK_DT <=? int 0
  | _ => false
  end.

(** The snapshot that [broadcastSnapshot] builds. *)
Definition worldSnapshot (now : Z) (m : Match) : WorldSnapshot :=
  mkSnapshot (tickCount m) (matchTime m) now (matchState m) (countdown m)
    (map snapshotOfPlayer (players m)) (map snapshotOfBall (balls m))
    (events m).

(** The tick numbers of the snapshots sent so far, in the order of sending. *)
Definition sentTicks (m : Match) : list Z :=
  map (fun e => ws_tick (snd e)) (env_sent m).

(** Every snapshot sent has an even tick number that is not above the tick
    counter, and the snapshots left in the order of their tick numbers. *)
Definition sentInOrder (m : Match) : Prop :=
  Forall (fun t => Z.rem t 2 = 0%Z /\ (t <= tickCount m)%Z) (sentTicks m)
  /\ Sorted Z.le (sentTicks m).

(** The tick ends the warmup. *)
Definition activating (m : Match) : bool :=
  match matchState m with
  | warmup => countdown m - TICK_DT <=? int 0
  | _ => false
  end.

(** What a tick does to the players and the balls once the phase is dealt
    with: the inputs, then the ball physics. *)
Definition simulate (now : Z) (ps : list ServerPlayer) (bs : list ServerBall)
    (es : list GameEvent) : list ServerPlayer * list ServerBall :=
  let '(ps1, bs1, es1) := processInputs now ps bs es in
  let '(bs2, ps2, _) := physics now bs1 ps1 es1 in
  (ps2, bs2).

End Intents.

(** A binary64 coordinate that is [NaN], or between two bounds; one that is
    [NaN], or not below a bound.  ([NaN] compares false with everything.) *)
Definition nanOrBetween (lo hi c : float) : Prop :=
  PrimFloat.is_nan c = true
  \/ (PrimFloat.leb lo c = true /\ PrimFloat.leb c hi = true).

Definition nanOrAbove (lo c : float) : Prop :=
  PrimFloat.is_nan c = true \/ PrimFloat.leb lo c = true.

(** Inside the walls (29 from the centre) and not below the floor (0.35),
    in every coordinate that is a number. *)
Definition inCourt (v : @Vector3 F64) : Prop :=
  nanOrBetween (@nopp F64 (int 29)) (int 29) (x v)
  /\ nanOrAbove (lit 35 100) (y v)
  /\ nanOrBetween (@nopp F64 (int 29)) (int 29) (z v).

(** ** The client's side of the inputs ([NetworkManager.sendInput],
    [Game.animate]) *)

Section ClientInputs.

Context {N : Num}.
Local Open Scope num_scope.

(** [Omit<InputPacket, 'seq' | 'timestamp'>]: what the game hands to
    [sendInput]. *)
Record InputIntent := mkIntent {
  in_move_x : num;
  in_move_z : num;
  in_aim : Vector3;
  in_sprint : bool;
  in_block : bool;
  in_throw : ThrowInput;
  in_catch : bool
}.

(** The fields of a new [NetworkManager]. *)
Definition new_NetworkManager : NetworkManager :=
  mkNetworkManager 0 [] None None 0.

(** [sendInput]: the packet that goes out on the socket, and the manager
    afterwards ([this.inputSeq++]).  [now] is [Date.now()]. *)
Definition sendInput (now : Z) (input : InputIntent) (nm : NetworkManager)
    : InputPacket * NetworkManager :=
  (mkInput (inputSeq nm) (now + serverTimeOffset nm)
     (in_move_x input) (in_move_z input) (in_aim input) (in_sprint input)
     (in_block input) (in_throw input) (in_catch input),
   mkNetworkManager (inputSeq nm + 1) (snapshots nm) (playerId nm) (matchId nm)
     (serverTimeOffset nm)).

(** One call of [sendInput] for each element of [inputs], which pairs the
    reading of the clock with the input: the packets that go out, in
    order. *)
Fixpoint sendAll (inputs : list (Z * InputIntent)) (nm : NetworkManager)
    : list InputPacket * NetworkManager :=
  match inputs with
  | [] => ([], nm)
  | (now, input) :: rest =>
      let '(packet, nm1) := sendInput now input nm in
      let '(packets, nm2) := sendAll rest nm1 in
      (packet :: packets, nm2)
  end.

(** The snapshots of [l] arrive in this order. *)
Definition receive (l : list WorldSnapshot) (nm : NetworkManager) : NetworkManager :=
  fold_left (fun nm snapshot => onSnapshot snapshot nm) l nm.

(** The last [k] elements of a list. *)
Definition lastn (A : Type) (k : nat) (l : list A) : list A :=
  skipn (List.length l - k) l.

(** The fields of [Game] that [animate] reads when it builds an input: the
    movement direction, the camera's world direction, and the state of the
    keys. *)
Record Controls := mkControls {
  g_direction : Vector3;
  g_cameraDirection : Vector3;
  g_isSprinting : bool;
  g_isBlocking : bool;
  g_isCharging : bool;
  g_canPickUp : bool;
  g_chargeLevel : num;
  g_curveLeft : bool;
  g_curveRight : bool
}.

(** The argument of [this.network.sendInput] in [Game.animate]. *)
Definition animateInput (g : Controls) : InputIntent :=
  mkIntent (x (g_direction g)) (z (g_direction g))
    (g_cameraDirection g)
    (g_isSprinting g) (g_isBlocking g)
    (mkThrow (g_isCharging g && negb (g_canPickUp g)) (g_chargeLevel g)
       (if g_curveLeft g then - int 1 else if g_curveRight g then int 1 else int 0))
    false.

(** A packet that a [Game] sends. *)
Definition gamePacket (packet : InputPacket) : Prop :=
  exists now g nm, packet = fst (sendInput now (animateInput g) nm).

End ClientInputs.

Section Online.

Context {N : Num} {M : MathLib N}.

(** What the server does to a match whose inputs all come from [Game]
    clients. *)
Inductive played : Match -> Prop :=
| play_new : forall mid md sockets, played (new_Match mid md sockets)
| play_start : forall now m, played m -> played (start now m)
| play_stop : forall m, played m -> played (stop m)
| play_input : forall k packet m,
    played m -> gamePacket packet -> played (onInput k packet m)
| play_remove : forall now k m, played m -> played (removePlayer now k m)
| play_tick : forall now m, played m -> played (tick now m).

(** A ball that nobody has touched. *)
Definition untouched (b : ServerBall) : Prop :=
  b_state b = idle /\ b_owner b = None.

(** A player who is in the game, holds nothing, and has no catch among the
    buffered intents. *)
Definition emptyHanded (p : ServerPlayer) : Prop :=
  p_holding p = None /\ p_state p = alive
  /\ Forall (fun i => catch i = false) (p_inputBuffer p).

(** No ball has been touched and every player is empty-handed. *)
Definition quiet (m : Match) : Prop :=
  Forall untouched (balls m) /\ Forall emptyHanded (players m).

End Online.

(** ** The matchmaking ([server/MatchManager.ts])

    A socket is represented by its [id].  [matches] and [playerMatchMap] are
    JavaScript [Map]s with string keys: association lists in insertion
    order.  Each match is built by [new_Match], which numbers its own calls
    of [Math.random()]. *)

Section StringMaps.

Variable V : Type.

(** [Map.get], [Map.set] and [Map.delete] *)
Fixpoint smap_get (k : string) (l : list (string * V)) : option V :=
  match l with
  | [] => None
  | e :: rest => if String.eqb (fst e) k then Some (snd e) else smap_get k rest
  end.

Fixpoint smap_set (k : string) (v : V) (l : list (string * V)) : list (string * V) :=
  match l with
  | [] => [(k, v)]
  | e :: rest =>
      if String.eqb (fst e) k then (k, v) :: rest else e :: smap_set k v rest
  end.

Definition smap_delete (k : string) (l : list (string * V)) : list (string * V) :=
  filter (fun e => negb (String.eqb (fst e) k)) l.

End StringMaps.

Section Manager.

Context {N : Num} {M : MathLib N}.

(** The payload of a ['queueStatus'] message. *)
Record QueueStatus := mkQueueStatus {
  qs_position : nat;
  qs_mode : Mode
}.

(** The last field is the part of the runtime the manager acts on: the
    ['queueStatus'] messages emitted, with the socket each went to. *)
Record MatchManager := mkManager {
  matches : list (string * Match);
  casualQueue : list string;
  rankedQueue : list string;
  playerMatchMap : list (string * string);
  env_queueStatus : list (string * QueueStatus)
}.

(** The fields of a new [MatchManager]. *)
Definition new_MatchManager : MatchManager := mkManager [] [] [] [] [].

(** The callback of the constructor's [setInterval]: finished matches leave
    the [Map]. *)
Definition cleanUp (mm : MatchManager) : MatchManager :=
  mkManager (filter (fun e => negb (isFinished (snd e))) (matches mm))
    (casualQueue mm) (rankedQueue mm) (playerMatchMap mm) (env_queueStatus mm).

(** [mode === 'casual' ? this.casualQueue : this.rankedQueue], and the
    assignment to that queue. *)
Definition queueOf (mode : Mode) (mm : MatchManager) : list string :=
  match mode with casual => casualQueue mm | ranked => rankedQueue mm end.

Definition set_queueOf (mode : Mode) (q : list string) (mm : MatchManager)
    : MatchManager :=
  match mode with
  | casual =>
      mkManager (matches mm) q (rankedQueue mm) (playerMatchMap mm)
        (env_queueStatus mm)
  | ranked =>
      mkManager (matches mm) (casualQueue mm) q (playerMatchMap mm)
        (env_queueStatus mm)
  end.

(** Every waiting socket is told the length of the queue. *)
Definition broadcastQueueStatus (mode : Mode) (mm : MatchManager) : MatchManager :=
  let queue := queueOf mode mm in
  mkManager (matches mm) (casualQueue mm) (rankedQueue mm) (playerMatchMap mm)
    (env_queueStatus mm
     ++ map (fun s => (s, mkQueueStatus (List.length queue) mode)) queue).

(** [wasInCasual] and [wasInRanked] are computed before the socket is
    filtered out; the broadcasts come after. *)
Definition removeFromQueue (socket : string) (mm : MatchManager) : MatchManager :=
  let wasInCasual := existsb (fun s => String.eqb s socket) (casualQueue mm) in
  let wasInRanked := existsb (fun s => String.eqb s socket) (rankedQueue mm) in
  let mm :=
    mkManager (matches mm)
      (filter (fun s => negb (String.eqb s socket)) (casualQueue mm))
      (filter (fun s => negb (String.eqb s socket)) (rankedQueue mm))
      (playerMatchMap mm) (env_queueStatus mm) in
  let mm := if wasInCasual then broadcastQueueStatus casual mm else mm in
  if wasInRanked then broadcastQueueStatus ranked mm else mm.

Definition requiredPlayers (mode : Mode) : nat :=
  match mode with casual => 2 | ranked => 4 end.

(** [checkQueue]: [now] is [Date.now()]; [tag] stands for the text
    [`${Date.now()}_${Math.random().toString(36).substr(2, 9)}`] of the
    match identifier.  The match is started after it is stored; the [Map]
    holds the same object. *)
Definition checkQueue (now : Z) (tag : string) (mode : Mode) (mm : MatchManager)
    : MatchManager :=
  let queue := queueOf mode mm in
  if Nat.leb (requiredPlayers mode) (List.length queue) then
    let players := firstn (requiredPlayers mode) queue in
    let mm := set_queueOf mode (skipn (requiredPlayers mode) queue) mm in
    let matchId := ("match_" ++ tag)%string in
    let match_ := new_Match matchId mode players in
    mkManager (smap_set matchId (start now match_) (matches mm))
      (casualQueue mm) (rankedQueue mm)
      (fold_left (fun pm p => smap_set p matchId pm) players (playerMatchMap mm))
      (env_queueStatus mm)
  else mm.

(** The handler of the socket's ['joinQueue'] message. *)
Definition addToQueue (now : Z) (tag : string) (socket : string) (mode : Mode)
    (mm : MatchManager) : MatchManager :=
  let mm := removeFromQueue socket mm in
  let mm := set_queueOf mode (queueOf mode mm ++ [socket]) mm in
  let mm := broadcastQueueStatus mode mm in
  checkQueue now tag mode mm.

(** The handler of the socket's ['disconnect'] message. *)
Definition onDisconnect (now : Z) (socket : string) (mm : MatchManager)
    : MatchManager :=
  let mm := removeFromQueue socket mm in
  match smap_get socket (playerMatchMap mm) with
  | Some matchId =>
      if String.eqb matchId "" then mm
      else
        let ms :=
          match smap_get matchId (matches mm) with
          | Some match_ => smap_set matchId (removePlayer now socket match_) (matches mm)
          | None => matches mm
          end in
        mkManager ms (casualQueue mm) (rankedQueue mm)
          (smap_delete socket (playerMatchMap mm)) (env_queueStatus mm)
  | None => mm
  end.

(** What happens to a manager: sockets join and leave the queues and
    disconnect, the clean-up timer fires, and the matches in the [Map] tick
    and receive inputs. *)
Inductive serving : MatchManager -> Prop :=
| serve_new : serving new_MatchManager
| serve_join : forall now tag socket mode mm,
    serving mm -> serving (addToQueue now tag socket mode mm)
| serve_leave : forall socket mm, serving mm -> serving (removeFromQueue socket mm)
| serve_disconnect : forall now socket mm,
    serving mm -> serving (onDisconnect now socket mm)
| serve_cleanUp : forall mm, serving mm -> serving (cleanUp mm)
| serve_tick : forall now matchId match_ mm,
    serving mm -> smap_get matchId (matches mm) = Some match_ ->
    serving (mkManager (smap_set matchId (tick now match_) (matches mm))
               (casualQueue mm) (rankedQueue mm) (playerMatchMap mm)
               (env_queueStatus mm))
| serve_input : forall socket packet mm,
    serving mm ->
    serving (mkManager
               (map (fun e => (fst e, onInput socket packet (snd e))) (matches mm))
               (casualQueue mm) (rankedQueue mm) (playerMatchMap mm)
               (env_queueStatus mm)).

(** Nobody waits twice, and no queue is long enough for a match. *)
Definition queuesShort (mm : MatchManager) : Prop :=
  NoDup (casualQueue mm ++ rankedQueue mm)
  /\ (List.length (casualQueue mm) < 2)%nat
  /\ (List.length (rankedQueue mm) < 4)%nat.

(** Every identifier in [playerMatchMap] was made by [checkQueue]. *)
Definition named (pm : list (string * string)) : Prop :=
  Forall (fun e => exists tag, snd e = ("match_" ++ tag)%string) pm.

End Manager.

(** ** A two-player match, played in binary64

    The sockets ["a"] (blue) and ["b"] (red); [Math.random()] returns
    0.375 and 0.625 in turn, so that ["a"] spawns at x = -2.5, in front of
    ball 2, and ["b"] at x = 2.5, in front of ball 3. *)

Module Scenario.

Definition rnd (n : nat) : float :=
  if Nat.even n then 0.375%float else 0.625%float.

Definition js : MathLib F64 := JsMath.lib rnd.

Definition Packet : Type := @InputPacket F64.
Definition State : Type := @Match F64.

Definition run (n : nat) (m : State) : State := @ticks F64 js 0%Z n m.

(** The match is created and its timer started. *)
Definition m0 : State :=
  start 0 (@new_Match F64 js "match" casual ["a"%string; "b"%string]).

Definition noThrow : @ThrowInput F64 := mkThrow false 0%float 0%float.
Definition forward : @Vector3 F64 := mkV 0%float 0%float 1%float.
Definition backward : @Vector3 F64 := mkV 0%float 0%float (-1)%float.

(** A packet that moves along [(mx, mz)], aims along [a], and may attempt a
    catch. *)
Definition walk (s : Z) (mx mz : float) (a : @Vector3 F64) (c : bool) : Packet :=
  mkInput s 0 mx mz a false false noThrow c.

Fixpoint walks (n : nat) (s : Z) (mx mz : float) (a : @Vector3 F64) : list Packet :=
  match n with
  | O => []
  | S k => walk s mx mz a false :: walks k (s + 1) mx mz a
  end.

(** A packet that throws with the given charge. *)
Definition throwing (s : Z) (a : @Vector3 F64) (c : float) : Packet :=
  mkInput s 0 0%float 0%float a false false (mkThrow true c 0%float) false.

(** The warmup is over. *)
Definition active : State := run 151 m0.

(** ["a"] walks to ball 2, picks it up and steps over to x = 2.57; ["b"]
    walks to ball 3 and picks it up.  They now face each other 3.2 apart. *)
Definition queued : State :=
  feed "b" (walks 69 1 0 (-1) backward ++ [walk 70 0 0 backward true])
    (feed "a"
       (walks 69 1 0 1 forward ++ [walk 70 0 0 forward true]
          ++ walks 19 71 1 0 forward)
       active).

Definition armed : State := run 1 queued.

(** ["b"] throws ball 3 at ["a"]. *)
Definition afterThrow : State :=
  run 1 (onInput "b" (throwing 71 backward 0) armed).

(** ["a"], who still holds ball 2, catches ball 3. *)
Definition afterCatch : State :=
  run 1 (onInput "a" (walk 90 0 0 forward true) afterThrow).

(** ["a"] throws ball 2 with a charge of 3. *)
Definition overcharged : State :=
  run 1 (onInput "a" (throwing 90 forward 3) armed).

(** The first packet of ["a"] carries an infinite [move.x] (the JSON number
    [1e999]). *)
Definition poisoned : State :=
  run 1 (onInput "a" (walk 1 PrimFloat.infinity 0 forward false) active).

(** ["b"] disconnects after the warmup and ["a"] waits for the clock. *)
Definition alone : State := removePlayer 0 "b" active.
Definition lastSecond : State := run 5400 alone.
Definition over : State := run 1 lastSecond.

(** ["a"] sends the same packet, with the sequence number 1, twice before
    the next tick; and once. *)
Definition step : Packet := walk 1 0 1 forward false.
Definition doubled : State := feed "a" [step; step] active.
Definition single : State := feed "a" [step] active.

(** ["a"] throws ball 2 with an infinite charge (the JSON number [1e999]). *)
Definition blown : State :=
  run 1 (onInput "a" (throwing 90 forward PrimFloat.infinity) armed).

(** The events of the last snapshot that went out. *)
Definition lastEvents (m : State) : list GameEvent :=
  match rev (env_sent m) with
  | (_, w) :: _ => ws_events w
  | [] => []
  end.

Definition ball (i : Z) (m : State) : option (BallState * option string) :=
  match balls_get i (balls m) with
  | Some b => Some (b_state b, b_owner b)
  | None => None
  end.

Definition holdingOf (k : string) (m : State) : option (option Z) :=
  match players_get k (players m) with
  | Some p => Some (p_holding p)
  | None => None
  end.

(** The sequence numbers that wait in the buffer of a player, the last
    number applied, and how far along z the player stands. *)
Definition pending (k : string) (m : State) : option (list Z * Z) :=
  match players_get k (players m) with
  | Some p => Some (map seq (p_inputBuffer p), p_lastInputSeq p)
  | None => None
  end.

Definition depth (k : string) (m : State) : option float :=
  match players_get k (players m) with
  | Some p => Some (z (p_pos p))
  | None => None
  end.

(** *** Snapshot buffers of a client *)

Definition snap (t : Z) : @WorldSnapshot F64 :=
  mkSnapshot 0 180%float t playing 0%float [] [] [].

Definition client (l : list (@WorldSnapshot F64)) : @NetworkManager F64 :=
  mkNetworkManager 0 l (Some "a"%string) (Some "match"%string) 0.

(** Three snapshots, all older than the render time 2000. *)
Definition lagging : @NetworkManager F64 :=
  client [snap 1000; snap 1066; snap 1133].

(** Four snapshots whose timestamps are not in order: the second one was
    stamped after the last two. *)
Definition shuffled : @NetworkManager F64 :=
  client [snap 1000; snap 1200; snap 1066; snap 1133].

(** A player who holds ball 0 of a new set of balls. *)
Definition holder : @ServerPlayer F64 :=
  set_p_holding (Some 0%Z) (@newPlayer F64 js "a" 0 0.375%float).

(** A runtime with exact numbers whose functions are constant. *)
Definition flat : MathLib Exact :=
  {| Math_sqrt := (fun _ => 0) : @num Exact -> @num Exact;
     Math_sin := (fun _ => 0) : @num Exact -> @num Exact;
     Math_cos := (fun _ => 0) : @num Exact -> @num Exact;
     Math_atan2 := (fun _ _ => 0) : @num Exact -> @num Exact -> @num Exact;
     Math_PI := 0 : @num Exact;
     Math_random := (fun _ => 1 # 2) : nat -> @num Exact |}.

(** Three snapshots in order, with exact numbers. *)
Definition snapQ (t : Z) : @WorldSnapshot Exact :=
  mkSnapshot 0 (@int Exact 180) t playing (@int Exact 0) [] [] [].

Definition ordered : @NetworkManager Exact :=
  mkNetworkManager 0 [snapQ 1000; snapQ 1066; snapQ 1133]
    (Some "a"%string) (Some "match"%string) 0.

End Scenario.

(** ** A lobby, two clients, and a ball at the wall *)

Module Lobby.

Definition State : Type := @MatchManager F64.

(** ["a"] waits for a casual match; then ["b"] joins. *)
Definition one : State :=
  @addToQueue F64 Scenario.js 0%Z "t"%string "a"%string casual new_MatchManager.
Definition two : State :=
  @addToQueue F64 Scenario.js 0%Z "t"%string "b"%string casual one.

(** A player who walks forward with no key pressed. *)
Definition keys : @Controls F64 :=
  mkControls Scenario.forward Scenario.forward false false false false 0%float
    false false.

(** The second packet of a new client. *)
Definition second : Scenario.Packet :=
  fst (sendInput 0 (animateInput keys)
         (snd (sendInput 0 (animateInput keys) new_NetworkManager))).

Definition online : Scenario.State :=
  @tick F64 Scenario.js 0 (onInput "a" second Scenario.m0).

(** A ball in flight, one step away from the wall at x = 29. *)
Definition rolling : @ServerBall F64 :=
  mkBall 0 (mkV (@lit F64 289 10) (@lit F64 4 10) 0%float)
    (mkV 30%float 0%float 0%float)
    thrown (Some "a"%string) normal 0%float 0.

End Lobby.

(** * Properties *)

(** ** Runs *)

Section RunFacts.

Context {N : Num} {M : MathLib N}.

Lemma reachable_ticks (now : Z) (n : nat) :
  forall m, reachable m -> reachable (ticks now n m).
Proof.
  induction n as [|n IH]; intros m Hm; simpl.
  - exact Hm.
  - apply IH. now apply reach_tick.
Qed.

Lemma reachable_feed (k : string) (l : list InputPacket) :
  forall m, reachable m -> reachable (feed k l m).
Proof.
  unfold feed.
  induction l as [|i l IH]; intros m Hm; simpl.
  - exact Hm.
  - apply IH. now apply reach_input.
Qed.

Lemma ticks_succ (now : Z) (n : nat) (m : Match) :
  ticks now (S n) m = tick now (ticks now n m).
Proof.
  revert m. induction n as [|n IH]; intro m.
  - reflexivity.
  - change (ticks now (S (S n)) m) with (ticks now (S n) (tick now m)).
    rewrite IH. reflexivity.
Qed.

(** *** The phase is driven by the clock alone *)

Lemma phaseOf_respawnAll (m : Match) : phaseOf (respawnAll m) = phaseOf m.
Proof.
  unfold respawnAll.
  destruct (respawnPlayers (players m) (env_randoms m)) as [ps rc].
  reflexivity.
Qed.

Lemma phaseOf_stop (m : Match) : phaseOf (stop m) = phaseOf m.
Proof. unfold stop. destruct (tickInterval m); reflexivity. Qed.

Lemma phaseOf_tickPhase (now : Z) (m : Match) :
  phaseOf (tickPhase now m) = phaseStep (phaseOf m).
Proof.
  unfold tickPhase, phaseStep, phaseOf at 2.
  destruct (matchState m) eqn:E.
  - destruct (nleb _ _).
    + rewrite phaseOf_respawnAll. reflexivity.
    + unfold phaseOf. simpl. rewrite E. reflexivity.
  - destruct (nleb _ _).
    + rewrite phaseOf_stop. reflexivity.
    + unfold phaseOf. simpl. rewrite E. reflexivity.
  - unfold phaseOf. rewrite E. reflexivity.
Qed.

Lemma phaseOf_storeHistory (m : Match) : phaseOf (storeHistory m) = phaseOf m.
Proof. unfold storeHistory. destruct (Nat.ltb _ _); reflexivity. Qed.

Lemma phaseOf_tick (now : Z) (m : Match) :
  phaseOf (tick now m) = phaseStep (phaseOf m).
Proof.
  unfold tick.
  set (m1 := tickPhase now (set_tickCount (tickCount m + 1) m)).
  assert (H1 : phaseOf m1 = phaseStep (phaseOf m)).
  { unfold m1. rewrite phaseOf_tickPhase. reflexivity. }
  destruct (processInputs now (players m1) (balls m1) (events m1)) as [[ps bs] es].
  destruct (physics now bs ps es) as [[bs' ps'] es'].
  set (m2 := storeHistory _).
  assert (H2 : phaseOf m2 = phaseOf m1).
  { unfold m2. rewrite phaseOf_storeHistory. reflexivity. }
  destruct (Z.eqb _ _); [unfold broadcastSnapshot|]; rewrite <- H1, <- H2;
    reflexivity.
Qed.

Lemma phaseOf_ticks (now : Z) (n : nat) (m : Match) :
  phaseOf (ticks now n m) = Nat.iter n phaseStep (phaseOf m).
Proof.
  induction n as [|n IH].
  - reflexivity.
  - rewrite ticks_succ, phaseOf_tick, IH. reflexivity.
Qed.

Lemma phase_after (now : Z) (n : nat) (m : Match) (s : MatchState) (c t : num) :
  Nat.iter n phaseStep (phaseOf m) = (s, c, t) ->
  matchState (ticks now n m) = s /\ countdown (ticks now n m) = c
  /\ matchTime (ticks now n m) = t.
Proof.
  intros H. rewrite <- phaseOf_ticks with (now := now) in H.
  unfold phaseOf in H.
  generalize dependent (ticks now n m). intros m' H.
  inversion H. repeat split.
Qed.

Lemma matchState_ticks (now : Z) (n : nat) (m : Match) :
  matchState (ticks now n m) = fst (fst (Nat.iter n phaseStep (phaseOf m))).
Proof. rewrite <- phaseOf_ticks with (now := now). reflexivity. Qed.

Lemma phaseOf_new_Match (mid : string) (md : Mode) (sockets : list string) :
  phaseOf (new_Match mid md sockets) = (warmup, int 5, int 180).
Proof.
  unfold new_Match. destruct (initPlayers sockets 0 0 []). reflexivity.
Qed.

End RunFacts.

(** ** Lookups *)

Lemma balls_get_In {N : Num} (k : Z) (bs : list ServerBall) (b : ServerBall) :
  balls_get k bs = Some b -> In b bs /\ b_id b = k.
Proof.
  induction bs as [|c bs IH]; simpl; [discriminate|].
  destruct (Z.eqb (b_id c) k) eqn:E.
  - intros [= <-]. split; [now left | now apply Z.eqb_eq].
  - intros H. destruct (IH H). split; [now right | assumption].
Qed.

Lemma players_get_In {N : Num} (k : string) (ps : list ServerPlayer) (p : ServerPlayer) :
  players_get k ps = Some p -> In p ps /\ p_id p = k.
Proof.
  induction ps as [|q ps IH]; simpl; [discriminate|].
  destruct (String.eqb (p_id q) k) eqn:E.
  - intros [= <-]. split; [now left | now apply String.eqb_eq].
  - intros H. destruct (IH H). split; [now right | assumption].
Qed.

(** ** Entities *)

Section Entities.

Context {N : Num} {M : MathLib N}.



Lemma sameInput_refl (p : ServerPlayer) : sameInput p p.
Proof. repeat split. Qed.

Lemma sameInput_trans (p q r : ServerPlayer) :
  sameInput p q -> sameInput q r -> sameInput p r.
Proof.
  unfold sameInput. intros [A [B C]] [D [E F]].
  repeat split; congruence.
Qed.

Lemma ballStep_owned (b b' : ServerBall) :
  ballStep b b' -> ownedWhenOut b -> ownedWhenOut b'.
Proof.
  unfold ballStep, ownedWhenOut.
  intros [[Hs Ho] | [Ho | Hi]] H Hout.
  - rewrite Hs in Hout. rewrite Ho. auto.
  - exact Ho.
  - rewrite Hi in Hout. destruct Hout; discriminate.
Qed.

Lemma ballStep_refl (b : ServerBall) : ballStep b b.
Proof. left. split; reflexivity. Qed.

Lemma balls_set_Forall (P : ServerBall -> Prop) (c : ServerBall) (bs : list ServerBall) :
  P c -> Forall P bs -> Forall P (balls_set c bs).
Proof.
  intros Hc. induction 1 as [|b bs Hb Hbs IH]; simpl.
  - constructor; [assumption | constructor].
  - destruct (Z.eqb (b_id b) (b_id c)); constructor; assumption.
Qed.

Lemma throwBall_spec (p : ServerPlayer) (bs : list ServerBall) (t : ThrowInput) :
  sameInput p (fst (throwBall p bs t))
  /\ p_state (fst (throwBall p bs t)) = p_state p
  /\ (Forall ownedWhenOut bs -> Forall ownedWhenOut (snd (throwBall p bs t))).
Proof.
  unfold throwBall.
  destruct (p_holding p) as [h|]; [|simpl; auto using sameInput_refl].
  destruct (balls_get h bs) as [b|]; [|simpl; auto using sameInput_refl].
  simpl. split; [repeat split|]. split; [reflexivity|].
  intros H. apply balls_set_Forall; [|assumption].
  intros _. simpl. discriminate.
Qed.

Lemma tryCatchBall_spec (now : Z) (b : ServerBall) (p : ServerPlayer) (c : bool)
    (es : list GameEvent) :
  let r := tryCatchBall now b p c es in
  sameInput p (snd (fst (fst r)))
  /\ p_state (snd (fst (fst r))) = p_state p
  /\ ballStep b (fst (fst (fst r))).
Proof.
  unfold tryCatchBall.
  repeat match goal with
         | |- context [if ?c then _ else _] => destruct c
         end; simpl; repeat split; auto using ballStep_refl;
    right; left; discriminate.
Qed.

Lemma tryCatchLoop_spec (now : Z) (bs : list ServerBall) :
  forall (p : ServerPlayer) (c : bool) (es : list GameEvent),
    let r := tryCatchLoop now bs p c es in
    sameInput p (snd (fst (fst r)))
    /\ p_state (snd (fst (fst r))) = p_state p
    /\ Forall2 ballStep bs (fst (fst (fst r))).
Proof.
  induction bs as [|b bs IH]; intros p c es; simpl.
  - repeat split. constructor.
  - pose proof (tryCatchBall_spec now b p c es) as H. simpl in H.
    destruct (tryCatchBall now b p c es) as [[[b' p'] c'] es'].
    simpl in H. destruct H as [H1 [H2 H3]].
    specialize (IH p' c' es').
    destruct (tryCatchLoop now bs p' c' es') as [[[bs' p''] c''] es''].
    simpl in *. destruct IH as [I1 [I2 I3]].
    split; [eapply sameInput_trans; eassumption|].
    split; [congruence|]. constructor; assumption.
Qed.

Lemma Forall2_ballStep_owned (bs bs' : list ServerBall) :
  Forall2 ballStep bs bs' -> Forall ownedWhenOut bs -> Forall ownedWhenOut bs'.
Proof.
  induction 1 as [|b b' bs bs' H _ IH]; intros HF.
  - constructor.
  - inversion HF; subst. constructor; [eapply ballStep_owned; eassumption | auto].
Qed.

Lemma tryCatch_spec (now : Z) (p : ServerPlayer) (bs : list ServerBall)
    (es : list GameEvent) :
  let r := tryCatch now p bs es in
  sameInput p (fst (fst r))
  /\ p_state (fst (fst r)) = p_state p
  /\ Forall2 ballStep bs (snd (fst r)).
Proof.
  unfold tryCatch.
  pose proof (tryCatchLoop_spec now bs p false es) as H. simpl in H.
  destruct (tryCatchLoop now bs p false es) as [[[bs' p'] c'] es'].
  exact H.
Qed.

Lemma applyInput_spec (now : Z) (i : InputPacket) (p : ServerPlayer)
    (bs : list ServerBall) (es : list GameEvent) :
  let r := applyInput now i p bs es in
  p_id (fst (fst r)) = p_id p
  /\ p_lastInputSeq (fst (fst r)) = seq i
  /\ p_inputBuffer (fst (fst r)) = p_inputBuffer p
  /\ p_state (fst (fst r)) = p_state p
  /\ (Forall ownedWhenOut bs -> Forall ownedWhenOut (snd (fst r))).
Proof.
  unfold applyInput.
  set (p0 := set_p_lastInputSeq (seq i) p).
  destruct (negb (PlayerState_eqb (p_state p0) alive)).
  { simpl. repeat split. auto. }
  match goal with
  | |- context [set_p_motion ?a ?b ?c p0] => set (p1 := set_p_motion a b c p0)
  end.
  assert (H1 : p_id p1 = p_id p /\ p_lastInputSeq p1 = seq i
               /\ p_inputBuffer p1 = p_inputBuffer p /\ p_state p1 = p_state p)
    by (repeat split).
  clearbody p1. clear p0.
  set (r2 := if active (throw i) && match p_holding p1 with Some _ => true | None => false end
             then throwBall p1 bs (throw i) else (p1, bs)).
  assert (H2 : sameInput p1 (fst r2) /\ p_state (fst r2) = p_state p1
               /\ (Forall ownedWhenOut bs -> Forall ownedWhenOut (snd r2))).
  { unfold r2. destruct (_ && _).
    - apply throwBall_spec.
    - simpl. auto using sameInput_refl. }
  clearbody r2. destruct r2 as [p2 bs2]. simpl in H2.
  set (r3 := if catch i then tryCatch now p2 bs2 es else (p2, bs2, es)).
  assert (H3 : sameInput p2 (fst (fst r3)) /\ p_state (fst (fst r3)) = p_state p2
               /\ (Forall ownedWhenOut bs2 -> Forall ownedWhenOut (snd (fst r3)))).
  { unfold r3. destruct (catch i).
    - pose proof (tryCatch_spec now p2 bs2 es) as H. simpl in H.
      destruct H as [A [B C]]. repeat split; try apply A; auto.
      intros HF. eapply Forall2_ballStep_owned; eassumption.
    - simpl. auto using sameInput_refl. }
  clearbody r3. destruct r3 as [[p3 bs3] es3]. simpl in H3.
  destruct H1 as [A1 [B1 [C1 D1]]].
  destruct H2 as [[A2 [B2 C2]] [D2 E2]].
  destruct H3 as [[A3 [B3 C3]] [D3 E3]].
  destruct (sprint i); simpl; repeat split; try congruence; auto.
Qed.



Lemma ballStep_trans (a b c : ServerBall) :
  ballStep a b -> ballStep b c -> ballStep a c.
Proof.
  unfold ballStep.
  intros [[S1 O1] | [O1 | I1]] [[S2 O2] | [O2 | I2]]; auto.
  - left. split; congruence.
  - right. left. congruence.
  - right. right. congruence.
Qed.

Lemma last_cons_default (A : Type) (a d : A) (l : list A) :
  last (a :: l) d = last l a.
Proof.
  revert a d. induction l as [|b l IH]; intros a d.
  - reflexivity.
  - change (last (a :: b :: l) d) with (last (b :: l) d).
    rewrite IH. symmetry. apply IH.
Qed.

Lemma drainLoop_spec (now : Z) (n : nat) :
  forall (p : ServerPlayer) (bs : list ServerBall) (es : list GameEvent),
    (n <= List.length (p_inputBuffer p))%nat ->
    let r := drainLoop now n (p, bs, es) in
    p_id (fst (fst r)) = p_id p
    /\ p_inputBuffer (fst (fst r)) = skipn n (p_inputBuffer p)
    /\ p_lastInputSeq (fst (fst r))
       = last (map seq (firstn n (p_inputBuffer p))) (p_lastInputSeq p)
    /\ p_state (fst (fst r)) = p_state p
    /\ (Forall ownedWhenOut bs -> Forall ownedWhenOut (snd (fst r))).
Proof.
  induction n as [|n IH]; intros p bs es Hn.
  - simpl. repeat split. auto.
  - simpl drainLoop. unfold drainStep.
    destruct (p_inputBuffer p) as [|i rest] eqn:Hb; [simpl in Hn; lia|].
    pose proof (applyInput_spec now i (set_p_inputBuffer rest p) bs es) as H.
    simpl in H.
    destruct (applyInput now i (set_p_inputBuffer rest p) bs es) as [[p1 bs1] es1].
    simpl in H. destruct H as [A [B [C [D E]]]].
    assert (Hn' : (n <= List.length (p_inputBuffer p1))%nat)
      by (rewrite C; simpl in Hn; lia).
    specialize (IH p1 bs1 es1 Hn'). simpl in IH.
    destruct IH as [A' [B' [C' [D' E']]]].
    split; [congruence|].
    split; [rewrite B', C; reflexivity|].
    split.
    { rewrite C', C, B. simpl firstn. simpl map.
      rewrite last_cons_default. reflexivity. }
    split; [congruence|]. auto.
Qed.

Lemma drainInputs_spec (now : Z) (p : ServerPlayer) (bs : list ServerBall)
    (es : list GameEvent) :
  let r := drainInputs now p bs es in
  inputState (fst (fst r)) = inputStateDrained p
  /\ p_state (fst (fst r)) = p_state p
  /\ (Forall ownedWhenOut bs -> Forall ownedWhenOut (snd (fst r))).
Proof.
  unfold drainInputs.
  pose proof (@drainLoop_spec now (List.length (p_inputBuffer p)) p bs es (le_n _)) as H.
  simpl in H. destruct H as [A [B [C [D E]]]].
  rewrite skipn_all in B. rewrite firstn_all in C.
  unfold inputState, inputStateDrained. simpl.
  rewrite A, B, C. auto.
Qed.

Lemma processInputs_spec (now : Z) (ps : list ServerPlayer) :
  forall (bs : list ServerBall) (es : list GameEvent),
    let r := processInputs now ps bs es in
    map inputState (fst (fst r)) = map inputStateDrained ps
    /\ map p_state (fst (fst r)) = map p_state ps
    /\ (Forall ownedWhenOut bs -> Forall ownedWhenOut (snd (fst r))).
Proof.
  induction ps as [|p ps IH]; intros bs es; simpl.
  - auto.
  - pose proof (drainInputs_spec now p bs es) as H. simpl in H.
    destruct (drainInputs now p bs es) as [[p' bs'] es'].
    simpl in H. destruct H as [A [B C]].
    specialize (IH bs' es'). simpl in IH.
    destruct (processInputs now ps bs' es') as [[ps' bs''] es''].
    simpl in *. destruct IH as [A' [B' C']].
    split; [congruence|]. split; [congruence|]. auto.
Qed.

Lemma checkHitsLoop_spec (now : Z) (ps : list ServerPlayer) :
  forall (b : ServerBall) (es : list GameEvent),
    let r := checkHitsLoop now ps b es in
    map inputState (fst (fst r)) = map inputState ps
    /\ ballStep b (snd (fst r)).
Proof.
  induction ps as [|p ps IH]; intros b es; simpl.
  - split; [reflexivity | apply ballStep_refl].
  - destruct (owner_is (b_owner b) (p_id p) || negb (PlayerState_eqb (p_state p) alive)).
    + specialize (IH b es). simpl in IH.
      destruct (checkHitsLoop now ps b es) as [[ps' b'] es'].
      destruct IH as [A B]. simpl in A, B. simpl.
      split; [rewrite A; reflexivity | assumption].
    + destruct (nltb _ _).
      * match goal with
        | |- context [checkHitsLoop now ps ?b1 ?es1] =>
            specialize (IH b1 es1); simpl in IH;
            destruct (checkHitsLoop now ps b1 es1) as [[ps' b'] es']
        end.
        destruct IH as [A B]. simpl in A, B. simpl.
        split; [rewrite A; reflexivity|].
        eapply ballStep_trans; [|exact B].
        right. right. reflexivity.
      * specialize (IH b es). simpl in IH.
        destruct (checkHitsLoop now ps b es) as [[ps' b'] es'].
        destruct IH as [A B]. simpl in A, B. simpl.
        split; [rewrite A; reflexivity | assumption].
Qed.

Lemma floorBounce_step (b : ServerBall) : ballStep b (floorBounce b).
Proof.
  unfold floorBounce.
  destruct (nltb _ _); [|apply ballStep_refl].
  destruct (BallState_eqb (b_state b) thrown).
  - right. right. reflexivity.
  - left. split; reflexivity.
Qed.

Lemma wallBounceX_step (b : ServerBall) : ballStep b (wallBounceX b).
Proof.
  unfold wallBounceX.
  destruct (nltb _ _); [right; right; reflexivity | apply ballStep_refl].
Qed.

Lemma wallBounceZ_step (b : ServerBall) : ballStep b (wallBounceZ b).
Proof.
  unfold wallBounceZ.
  destruct (nltb _ _); [right; right; reflexivity | apply ballStep_refl].
Qed.

Lemma ballFall_step (b : ServerBall) : ballStep b (ballFall b).
Proof. left. split; reflexivity. Qed.

Lemma physicsBall_spec (now : Z) (b : ServerBall) (ps : list ServerPlayer)
    (es : list GameEvent) :
  let r := physicsBall now b ps es in
  map inputState (snd (fst r)) = map inputState ps
  /\ ballStep b (fst (fst r)).
Proof.
  unfold physicsBall, ballMotion.
  assert (H3 : ballStep b (wallBounceZ (wallBounceX (floorBounce (ballFall b))))).
  { eapply ballStep_trans; [|apply wallBounceZ_step].
    eapply ballStep_trans; [|apply wallBounceX_step].
    eapply ballStep_trans; [|apply floorBounce_step].
    apply ballFall_step. }
  destruct (BallState_eqb (b_state b) thrown || BallState_eqb (b_state b) idle).
  - destruct (_ && _).
    + unfold checkHits.
      match goal with
      | |- context [checkHitsLoop now ps ?b3 es] =>
          pose proof (checkHitsLoop_spec now ps b3 es) as H; simpl in H;
          destruct (checkHitsLoop now ps b3 es) as [[ps' b4] es']
      end.
      simpl in *. destruct H as [A B]. split; [assumption|].
      eapply ballStep_trans; eassumption.
    + simpl. split; [reflexivity | assumption].
  - destruct (_ && _); [|simpl; split; [reflexivity | apply ballStep_refl]].
    destruct (b_owner b) as [o|]; [|simpl; split; [reflexivity | apply ballStep_refl]].
    destruct (players_get o ps); simpl; split; try reflexivity.
    + right. left. discriminate.
    + right. right. reflexivity.
Qed.

Lemma physics_spec (now : Z) (bs : list ServerBall) :
  forall (ps : list ServerPlayer) (es : list GameEvent),
    let r := physics now bs ps es in
    map inputState (snd (fst r)) = map inputState ps
    /\ Forall2 ballStep bs (fst (fst r)).
Proof.
  induction bs as [|b bs IH]; intros ps es; simpl.
  - split; [reflexivity | constructor].
  - pose proof (physicsBall_spec now b ps es) as H. simpl in H.
    destruct (physicsBall now b ps es) as [[b' ps'] es'].
    simpl in H. destruct H as [A B].
    specialize (IH ps' es'). simpl in IH.
    destruct (physics now bs ps' es') as [[bs' ps''] es''].
    simpl in *. destruct IH as [A' B'].
    split; [congruence | constructor; assumption].
Qed.

Lemma respawnPlayers_spec (ps : list ServerPlayer) :
  forall rc, map inputState (fst (respawnPlayers ps rc)) = map inputState ps.
Proof.
  induction ps as [|p ps IH]; intro rc; simpl.
  - reflexivity.
  - specialize (IH (S rc)).
    destruct (respawnPlayers ps (S rc)) as [ps' rc'].
    simpl in *. rewrite IH. reflexivity.
Qed.

Lemma respawnBalls_owned (bs : list ServerBall) :
  Forall ownedWhenOut (map respawnBall bs).
Proof.
  induction bs as [|b bs IH]; simpl; constructor; [|assumption].
  intros [H | H]; discriminate H.
Qed.

Lemma tickPhase_spec (now : Z) (m : Match) :
  map inputState (players (tickPhase now m)) = map inputState (players m)
  /\ (Forall ownedWhenOut (balls m) -> Forall ownedWhenOut (balls (tickPhase now m))).
Proof.
  unfold tickPhase.
  destruct (matchState m).
  - destruct (nleb _ _).
    + unfold respawnAll. simpl.
      pose proof (respawnPlayers_spec (players m) (env_randoms m)) as H.
      destruct (respawnPlayers (players m) (env_randoms m)) as [ps rc].
      simpl in *. split; [assumption|]. intros _. apply respawnBalls_owned.
    + simpl. auto.
  - destruct (nleb _ _).
    + unfold stop. simpl. destruct (tickInterval m); simpl; auto.
    + simpl. auto.
  - auto.
Qed.

Lemma drained_of_inputState (l l' : list ServerPlayer) :
  map inputState l = map inputState l' ->
  map inputStateDrained l = map inputStateDrained l'.
Proof.
  revert l'. induction l as [|p l IH]; intros [|q l']; simpl; intros H;
    try discriminate H; [reflexivity|].
  inversion H as [[Hi Hl Hb Ht]].
  unfold inputStateDrained. rewrite Hi, Hl, Hb.
  f_equal. apply IH. assumption.
Qed.

Lemma tick_spec (now : Z) (m : Match) :
  map inputState (players (tick now m)) = map inputStateDrained (players m)
  /\ (Forall ownedWhenOut (balls m) -> Forall ownedWhenOut (balls (tick now m))).
Proof.
  unfold tick.
  set (m1 := tickPhase now (set_tickCount (tickCount m + 1) m)).
  pose proof (tickPhase_spec now (set_tickCount (tickCount m + 1) m)) as H1.
  fold m1 in H1. simpl in H1. destruct H1 as [A1 B1].
  pose proof (processInputs_spec now (players m1) (balls m1) (events m1)) as H2.
  simpl in H2.
  destruct (processInputs now (players m1) (balls m1) (events m1)) as [[ps bs] es].
  simpl in H2. destruct H2 as [A2 [_ B2]].
  pose proof (physics_spec now bs ps es) as H3. simpl in H3.
  destruct (physics now bs ps es) as [[bs' ps'] es'].
  simpl in H3. destruct H3 as [A3 B3].
  assert (HA : map inputState ps' = map inputStateDrained (players m)).
  { rewrite A3, A2. apply drained_of_inputState. exact A1. }
  assert (HB : Forall ownedWhenOut (balls m) -> Forall ownedWhenOut bs').
  { intros H. eapply Forall2_ballStep_owned; [eassumption|]. auto. }
  unfold storeHistory.
  destruct (Nat.ltb _ _); simpl;
    destruct (Z.eqb _ _); simpl; split; assumption.
Qed.



(** *** The sort of the input buffer *)

Lemma insertBySeq_perm (a : InputPacket) (l : list InputPacket) :
  Permutation (insertBySeq a l) (a :: l).
Proof.
  induction l as [|b l IH]; simpl.
  - apply Permutation_refl.
  - destruct (seq b <? seq a)%Z.
    + eapply perm_trans; [apply perm_skip, IH | apply perm_swap].
    + apply Permutation_refl.
Qed.

Lemma insertBySeq_hd (a : InputPacket) (l : list InputPacket) (c : Z) :
  (c <= seq a)%Z -> HdRel Z.le c (map seq l) ->
  HdRel Z.le c (map seq (insertBySeq a l)).
Proof.
  destruct l as [|b l]; simpl; intros Ha Hl.
  - constructor. assumption.
  - destruct (seq b <? seq a)%Z; simpl; constructor.
    + inversion Hl. assumption.
    + assumption.
Qed.

Lemma insertBySeq_sorted (a : InputPacket) (l : list InputPacket) :
  Sorted Z.le (map seq l) -> Sorted Z.le (map seq (insertBySeq a l)).
Proof.
  induction l as [|b l IH]; simpl; intros H.
  - repeat constructor.
  - destruct (seq b <? seq a)%Z eqn:E.
    + inversion H as [|? ? Hs Hh]; subst. simpl. constructor.
      * apply IH. assumption.
      * apply insertBySeq_hd; [apply Z.ltb_lt in E; lia | assumption].
    + simpl. constructor; [assumption|].
      constructor. apply Z.ltb_ge in E. assumption.
Qed.

Lemma sortBySeq_perm (l : list InputPacket) : Permutation (sortBySeq l) l.
Proof.
  induction l as [|a l IH]; simpl.
  - constructor.
  - eapply perm_trans; [apply insertBySeq_perm | apply perm_skip, IH].
Qed.

Lemma sortBySeq_sorted (l : list InputPacket) : Sorted Z.le (map seq (sortBySeq l)).
Proof.
  induction l as [|a l IH]; simpl.
  - constructor.
  - apply insertBySeq_sorted. assumption.
Qed.

(** *** The [Map] of players *)

Lemma players_set_ids (q : ServerPlayer) (ps : list ServerPlayer) (k : string) :
  In k (map p_id (players_set q ps)) -> k = p_id q \/ In k (map p_id ps).
Proof.
  induction ps as [|p ps IH]; simpl.
  - intros [H | []]. left. congruence.
  - destruct (String.eqb (p_id p) (p_id q)) eqn:E; simpl.
    + intros [H | H]; [left; congruence | right; right; assumption].
    + intros [H | H]; [right; left; assumption|].
      destruct (IH H); [left | right; right]; assumption.
Qed.

Lemma players_set_NoDup (q : ServerPlayer) (ps : list ServerPlayer) :
  NoDup (map p_id ps) -> NoDup (map p_id (players_set q ps)).
Proof.
  induction ps as [|p ps IH]; simpl; intros H.
  - constructor; [intros [] | constructor].
  - inversion H as [|? ? Hn Hd]; subst.
    destruct (String.eqb (p_id p) (p_id q)) eqn:E; simpl.
    + apply String.eqb_eq in E. rewrite <- E. assumption.
    + constructor; [|apply IH; assumption].
      intros Hin. apply players_set_ids in Hin.
      destruct Hin as [Hq | Hin]; [|contradiction].
      apply String.eqb_neq in E. congruence.
Qed.

Lemma players_set_Forall (P : ServerPlayer -> Prop) (q : ServerPlayer)
    (ps : list ServerPlayer) :
  P q -> Forall P ps -> Forall P (players_set q ps).
Proof.
  intros Hq. induction 1 as [|p ps Hp Hps IH]; simpl.
  - constructor; [assumption | constructor].
  - destruct (String.eqb (p_id p) (p_id q)); constructor; assumption.
Qed.

Lemma players_get_set (q : ServerPlayer) (ps : list ServerPlayer) :
  players_get (p_id q) (players_set q ps) = Some q.
Proof.
  induction ps as [|p ps IH]; simpl.
  - rewrite String.eqb_refl. reflexivity.
  - destruct (String.eqb (p_id p) (p_id q)) eqn:E; simpl.
    + rewrite String.eqb_refl. reflexivity.
    + rewrite E. assumption.
Qed.

Lemma players_get_NoDup (p : ServerPlayer) (ps : list ServerPlayer) :
  NoDup (map p_id ps) -> In p ps -> players_get (p_id p) ps = Some p.
Proof.
  induction ps as [|q ps IH]; simpl; intros Hn Hin; [contradiction|].
  inversion Hn as [|? ? Hq Hd]; subst.
  destruct Hin as [-> | Hin].
  - rewrite String.eqb_refl. reflexivity.
  - destruct (String.eqb (p_id q) (p_id p)) eqn:E.
    + apply String.eqb_eq in E. exfalso. apply Hq. rewrite E.
      apply in_map. assumption.
    + apply IH; assumption.
Qed.

Lemma players_delete_NoDup (k : string) (ps : list ServerPlayer) :
  NoDup (map p_id ps) -> NoDup (map p_id (players_delete k ps)).
Proof.
  unfold players_delete.
  induction ps as [|p ps IH]; simpl; intros H; [constructor|].
  inversion H as [|? ? Hn Hd]; subst.
  destruct (negb (String.eqb (p_id p) k)); simpl; [|auto].
  constructor; [|auto].
  intros Hin. apply Hn. apply in_map_iff in Hin.
  destruct Hin as [q [Hq Hin]]. apply filter_In in Hin.
  rewrite <- Hq. apply in_map. tauto.
Qed.

Lemma players_delete_Forall (P : ServerPlayer -> Prop) (k : string)
    (ps : list ServerPlayer) :
  Forall P ps -> Forall P (players_delete k ps).
Proof.
  unfold players_delete. rewrite !Forall_forall.
  intros H p Hin. apply filter_In in Hin. apply H. tauto.
Qed.

Lemma drained_ordered (ps ps' : list ServerPlayer) :
  map inputState ps' = map inputStateDrained ps ->
  map p_id ps' = map p_id ps /\ Forall bufferOrdered ps'.
Proof.
  revert ps'. induction ps as [|p ps IH]; intros [|q ps']; simpl; intros H;
    try discriminate H.
  - split; [reflexivity | constructor].
  - inversion H as [[Hi Hl Hb Ht]].
    destruct (IH _ Ht) as [A B].
    split; [rewrite A; reflexivity|].
    constructor; [|assumption].
    unfold bufferOrdered. rewrite Hb. split; constructor.
Qed.

(** *** The invariant *)

Lemma Inv_new_Match (mid : string) (md : Mode) (sockets : list string) :
  Inv (new_Match mid md sockets).
Proof.
  unfold new_Match.
  assert (H : forall l i rc ps,
             NoDup (map p_id ps) /\ Forall bufferOrdered ps ->
             NoDup (map p_id (fst (initPlayers l i rc ps)))
             /\ Forall bufferOrdered (fst (initPlayers l i rc ps))).
  { induction l as [|s l IH]; intros i rc ps [A B]; simpl; [auto|].
    apply IH. split.
    - apply players_set_NoDup. assumption.
    - apply players_set_Forall; [|assumption].
      split; simpl; constructor. }
  specialize (H sockets 0%nat 0%nat []).
  destruct (initPlayers sockets 0 0 []) as [ps rc]. simpl in H.
  destruct H as [A B]; [split; constructor|].
  unfold Inv. simpl. split; [assumption|]. split; [assumption|].
  repeat constructor; intros [H | H]; discriminate H.
Qed.

Lemma Inv_start (now : Z) (m : Match) : Inv m -> Inv (start now m).
Proof. unfold Inv. simpl. auto. Qed.

Lemma Inv_stop (m : Match) : Inv m -> Inv (stop m).
Proof. unfold Inv, stop. destruct (tickInterval m); simpl; auto. Qed.

Lemma Inv_onInput (k : string) (packet : InputPacket) (m : Match) :
  Inv m -> Inv (onInput k packet m).
Proof.
  unfold onInput. intros H.
  destruct (players_get k (players m)) as [p|] eqn:E; [|assumption].
  destruct (seq packet >? p_lastInputSeq p)%Z eqn:G; [|assumption].
  destruct H as [A [B C]]. unfold Inv. simpl.
  split; [apply players_set_NoDup; assumption|].
  split; [|assumption].
  apply players_set_Forall; [|assumption].
  apply players_get_In in E. destruct E as [Hin _].
  rewrite Forall_forall in B. destruct (B p Hin) as [_ Hf].
  split; simpl.
  - apply sortBySeq_sorted.
  - eapply Permutation_Forall; [apply Permutation_sym, sortBySeq_perm|].
    apply Forall_app. split; [assumption|].
    constructor; [|constructor]. apply Z.gtb_lt in G. lia.
Qed.

Lemma dropBall_step (k : string) (b : ServerBall) : ballStep b (dropBall k b).
Proof.
  unfold dropBall.
  destruct (owner_is (b_owner b) k); [right; right; reflexivity | apply ballStep_refl].
Qed.

Lemma Inv_removePlayer (now : Z) (k : string) (m : Match) :
  Inv m -> Inv (removePlayer now k m).
Proof.
  unfold removePlayer. intros [A [B C]].
  set (m1 := match players_get k (players m) with
             | Some p => _
             | None => m
             end).
  assert (H1 : NoDup (map p_id (players m1)) /\ Forall bufferOrdered (players m1)
               /\ balls m1 = balls m).
  { unfold m1. destruct (players_get k (players m)) as [p|] eqn:E; simpl; [|auto].
    split; [apply players_set_NoDup; assumption|].
    split; [|reflexivity].
    apply players_set_Forall; [|assumption].
    apply players_get_In in E. destruct E as [Hin _].
    rewrite Forall_forall in B. exact (B p Hin). }
  clearbody m1. destruct H1 as [A1 [B1 C1]].
  unfold Inv. simpl.
  split; [apply players_delete_NoDup; assumption|].
  split; [apply players_delete_Forall; assumption|].
  rewrite C1. clear - C.
  induction C as [|b bs Hb _ IH]; simpl; constructor; [|assumption].
  eapply ballStep_owned; [apply dropBall_step | assumption].
Qed.

Lemma Inv_tick (now : Z) (m : Match) : Inv m -> Inv (tick now m).
Proof.
  intros [A [B C]].
  destruct (tick_spec now m) as [H1 H2].
  destruct (drained_ordered _ _ H1) as [H3 H4].
  unfold Inv. rewrite H3. auto.
Qed.

Lemma reachable_Inv (m : Match) : reachable m -> Inv m.
Proof.
  induction 1.
  - apply Inv_new_Match.
  - apply Inv_start. assumption.
  - apply Inv_stop. assumption.
  - apply Inv_onInput. assumption.
  - apply Inv_removePlayer. assumption.
  - apply Inv_tick. assumption.
Qed.



Lemma applyInput_not_alive (now : Z) (i : InputPacket) (p : ServerPlayer)
    (bs : list ServerBall) (es : list GameEvent) :
  p_state p <> alive ->
  applyInput now i p bs es = (set_p_lastInputSeq (seq i) p, bs, es).
Proof.
  intros H. unfold applyInput. simpl.
  destruct (p_state p); [contradiction | reflexivity | reflexivity].
Qed.

(** C7.  In every state that a match reaches, for every player (one per
    connection): the buffer is sorted by sequence number and holds only
    intents newer than the last one applied; a packet whose sequence number
    is not above the last applied one leaves the match as it is; a newer
    packet is added once, and the buffer is sorted again; a tick leaves
    every buffer empty and the last applied sequence number at that of the
    last buffered intent; the loop takes the intents from the front of the
    buffer, so that after [k] iterations the first [k] are consumed, each
    once and in ascending order, and the others wait; and for a player who
    is not alive an intent advances the sequence number and nothing else. *)
Theorem input_intents_consumed_once_in_order :
  forall m : Match, reachable m ->
    Forall bufferOrdered (players m)
    /\ (forall p packet, In p (players m) ->
          (seq packet <= p_lastInputSeq p)%Z ->
          onInput (p_id p) packet m = m)
    /\ (forall p packet, In p (players m) ->
          (p_lastInputSeq p < seq packet)%Z ->
          exists p',
            players_get (p_id p) (players (onInput (p_id p) packet m)) = Some p'
            /\ Permutation (p_inputBuffer p') (p_inputBuffer p ++ [packet])
            /\ Sorted Z.le (map seq (p_inputBuffer p')))
    /\ (forall now,
          map inputState (players (tick now m)) = map inputStateDrained (players m))
    /\ (forall now p bs es k, (k <= List.length (p_inputBuffer p))%nat ->
          p_inputBuffer (fst (fst (drainLoop now k (p, bs, es))))
          = skipn k (p_inputBuffer p)
          /\ p_lastInputSeq (fst (fst (drainLoop now k (p, bs, es))))
             = last (map seq (firstn k (p_inputBuffer p))) (p_lastInputSeq p))
    /\ (forall now i p bs es, p_state p <> alive ->
          applyInput now i p bs es = (set_p_lastInputSeq (seq i) p, bs, es)).
Proof.
  intros m Hm. pose proof (reachable_Inv Hm) as [A [B C]].
  split; [assumption|].
  split.
  { intros p packet Hin Hs. unfold onInput.
    rewrite (players_get_NoDup p (players m) A Hin).
    replace (seq packet >? p_lastInputSeq p)%Z with false; [reflexivity|].
    symmetry. rewrite Z.gtb_ltb. apply Z.ltb_ge. assumption. }
  split.
  { intros p packet Hin Hs. unfold onInput.
    rewrite (players_get_NoDup p (players m) A Hin).
    replace (seq packet >? p_lastInputSeq p)%Z with true
      by (symmetry; rewrite Z.gtb_ltb; apply Z.ltb_lt; assumption).
    simpl.
    eexists. split.
    - change (p_id p) with
        (p_id (set_p_inputBuffer (sortBySeq (p_inputBuffer p ++ [packet])) p)) at 1.
      apply players_get_set.
    - simpl. split; [apply sortBySeq_perm | apply sortBySeq_sorted]. }
  split; [intro now; apply tick_spec|].
  split.
  { intros now p bs es k Hk.
    pose proof (@drainLoop_spec now k p bs es Hk) as H. simpl in H. tauto. }
  intros. apply applyInput_not_alive. assumption.
Qed.

(** *** Catching *)

Lemma acquired_cons (b b' : ServerBall) (bs bs' : list ServerBall) :
  acquired (b :: bs) (b' :: bs')
  = ((if newlyHeld b b' then 1 else 0) + acquired bs bs')%nat.
Proof.
  unfold acquired. simpl. destruct (newlyHeld b b'); reflexivity.
Qed.

Lemma newlyHeld_same (b : ServerBall) : newlyHeld b b = false.
Proof. unfold newlyHeld. destruct (BallState_eqb (b_state b) held); reflexivity. Qed.

Lemma tryCatchBall_cases (now : Z) (b : ServerBall) (p : ServerPlayer) (c : bool)
    (es : list GameEvent) :
  let r := tryCatchBall now b p c es in
  (fst (fst (fst r)) = b /\ snd (fst r) = c)
  \/ (c = false /\ newlyHeld b (fst (fst (fst r))) = true /\ snd (fst r) = true).
Proof.
  unfold tryCatchBall.
  destruct c; [left; split; reflexivity|].
  destruct (BallState_eqb (b_state b) thrown && negb (owner_is (b_owner b) (p_id p))) eqn:E1.
  - apply andb_prop in E1. destruct E1 as [E1 _].
    destruct (nltb _ _); [|left; split; reflexivity].
    destruct (nltb _ _); [|left; split; reflexivity].
    right. simpl. unfold newlyHeld. simpl.
    destruct (b_state b); try discriminate E1. auto.
  - destruct (BallState_eqb (b_state b) idle && _) eqn:E2; [|left; split; reflexivity].
    apply andb_prop in E2. destruct E2 as [E2 _].
    destruct (nltb _ _); [|left; split; reflexivity].
    right. simpl. unfold newlyHeld. simpl.
    destruct (b_state b); try discriminate E2. auto.
Qed.

Lemma tryCatchLoop_acquired (now : Z) (bs : list ServerBall) :
  forall (p : ServerPlayer) (c : bool) (es : list GameEvent),
    let bs' := fst (fst (fst (tryCatchLoop now bs p c es))) in
    (acquired bs bs' <= (if c then 0 else 1))%nat
    /\ Forall2 (fun b b' => b' = b \/ newlyHeld b b' = true) bs bs'.
Proof.
  induction bs as [|b bs IH]; intros p c es; simpl.
  - split; [unfold acquired; simpl; destruct c; lia | constructor].
  - pose proof (tryCatchBall_cases now b p c es) as H. simpl in H.
    destruct (tryCatchBall now b p c es) as [[[b' p'] c'] es'].
    simpl in H.
    specialize (IH p' c' es'). simpl in IH.
    destruct (tryCatchLoop now bs p' c' es') as [[[bs' p''] c''] es''].
    simpl in *. destruct IH as [I1 I2].
    rewrite acquired_cons.
    destruct H as [[-> ->] | [-> [Hn ->]]].
    + rewrite newlyHeld_same. split; [lia|]. constructor; auto.
    + rewrite Hn. split; [lia|]. constructor; auto.
Qed.

(** C10.  One call of [tryCatch] turns at most one ball into a held one, and
    leaves every other ball as it was, however many balls are in range. *)
Theorem tryCatch_acquires_at_most_one_ball :
  forall (now : Z) (p : ServerPlayer) (bs : list ServerBall) (es : list GameEvent),
    (acquired bs (snd (fst (tryCatch now p bs es))) <= 1)%nat
    /\ Forall2 (fun b b' => b' = b \/ newlyHeld b b' = true)
         bs (snd (fst (tryCatch now p bs es))).
Proof.
  intros now p bs es. unfold tryCatch.
  pose proof (tryCatchLoop_acquired now bs p false es) as H. simpl in H.
  destruct (tryCatchLoop now bs p false es) as [[[bs' p'] c'] es'].
  exact H.
Qed.

(** *** Owners of the balls *)


Lemma keepsThrower_trans (a b c : ServerBall) :
  keepsThrower a b -> keepsThrower b c -> keepsThrower a c.
Proof.
  unfold keepsThrower. intros H1 H2 H.
  destruct (H2 H) as [A B]. destruct (H1 A) as [C D].
  split; congruence.
Qed.

Lemma checkHitsLoop_owner (now : Z) (ps : list ServerPlayer) :
  forall (b : ServerBall) (es : list GameEvent),
    keepsThrower b (snd (fst (checkHitsLoop now ps b es))).
Proof.
  induction ps as [|p ps IH]; intros b es; simpl.
  - intros H. auto.
  - destruct (owner_is (b_owner b) (p_id p) || negb (PlayerState_eqb (p_state p) alive)).
    + specialize (IH b es).
      destruct (checkHitsLoop now ps b es) as [[ps' b'] es']. exact IH.
    + destruct (nltb _ _).
      * match goal with
        | |- context [checkHitsLoop now ps ?b1 ?es1] =>
            specialize (IH b1 es1);
            destruct (checkHitsLoop now ps b1 es1) as [[ps' b'] es']
        end.
        simpl in *. intros H. destruct (IH H) as [A _]. discriminate A.
      * specialize (IH b es).
        destruct (checkHitsLoop now ps b es) as [[ps' b'] es']. exact IH.
Qed.

Lemma floorBounce_owner (b : ServerBall) : keepsThrower b (floorBounce b).
Proof.
  unfold floorBounce, keepsThrower.
  destruct (nltb _ _); [|auto].
  destruct (BallState_eqb (b_state b) thrown) eqn:E; simpl; intros H.
  - discriminate H.
  - auto.
Qed.

Lemma wallBounceX_owner (b : ServerBall) : keepsThrower b (wallBounceX b).
Proof.
  unfold wallBounceX, keepsThrower.
  destruct (nltb _ _); simpl; intros H; [discriminate H | auto].
Qed.

Lemma wallBounceZ_owner (b : ServerBall) : keepsThrower b (wallBounceZ b).
Proof.
  unfold wallBounceZ, keepsThrower.
  destruct (nltb _ _); simpl; intros H; [discriminate H | auto].
Qed.

Lemma physicsBall_owner (now : Z) (b : ServerBall) (ps : list ServerPlayer)
    (es : list GameEvent) :
  keepsThrower b (fst (fst (physicsBall now b ps es))).
Proof.
  unfold physicsBall, ballMotion.
  assert (H3 : keepsThrower b (wallBounceZ (wallBounceX (floorBounce (ballFall b))))).
  { eapply keepsThrower_trans; [|apply wallBounceZ_owner].
    eapply keepsThrower_trans; [|apply wallBounceX_owner].
    eapply keepsThrower_trans; [|apply floorBounce_owner].
    intros H. simpl in H. auto. }
  destruct (BallState_eqb (b_state b) thrown || BallState_eqb (b_state b) idle) eqn:E.
  - destruct (_ && _); [|exact H3].
    unfold checkHits.
    match goal with
    | |- context [checkHitsLoop now ps ?b3 es] =>
        pose proof (checkHitsLoop_owner now ps b3 es) as H;
        destruct (checkHitsLoop now ps b3 es) as [[ps' b4] es']
    end.
    simpl in *. eapply keepsThrower_trans; eassumption.
  - assert (Hb : b_state b = held) by (destruct (b_state b); try discriminate E; reflexivity).
    destruct (_ && _); [|intros H; simpl in H; congruence].
    destruct (b_owner b) as [o|]; [|intros H; simpl in H; congruence].
    destruct (players_get o ps); intros H; simpl in H; congruence.
Qed.

Lemma physicsBall_floor (now : Z) (b : ServerBall) (ps : list ServerPlayer)
    (es : list GameEvent) :
  b_state b = thrown ->
  (y (b_pos (ballFall b)) <? lit 35 100)%num = true ->
  b_state (fst (fst (physicsBall now b ps es))) = idle
  /\ b_owner (fst (fst (physicsBall now b ps es))) = None.
Proof.
  intros Hs Hy. unfold physicsBall, ballMotion. rewrite Hs. simpl.
  assert (H1 : b_state (floorBounce (ballFall b)) = idle
               /\ b_owner (floorBounce (ballFall b)) = None).
  { unfold floorBounce. rewrite Hy.
    change (b_state (ballFall b)) with (b_state b). rewrite Hs. simpl. auto. }
  clear Hy.
  assert (H2 : forall c, b_state c = idle /\ b_owner c = None ->
                         b_state (wallBounceX c) = idle /\ b_owner (wallBounceX c) = None).
  { intros c [A B]. unfold wallBounceX.
    destruct (nltb _ _); simpl; split; try reflexivity; assumption. }
  assert (H3 : forall c, b_state c = idle /\ b_owner c = None ->
                         b_state (wallBounceZ c) = idle /\ b_owner (wallBounceZ c) = None).
  { intros c [A B]. unfold wallBounceZ.
    destruct (nltb _ _); simpl; split; try reflexivity; assumption. }
  specialize (H3 _ (H2 _ H1)). destruct H3 as [A B].
  rewrite A. simpl. auto.
Qed.

(** C6, amended.  In every state that a match reaches, a ball that is held
    has an owner, and so has a ball in flight; through the physics of a tick
    a ball that stays in flight keeps its owner, the thrower; and a ball in
    flight that touches the floor is idle and without owner when the tick
    is over. *)
Theorem held_and_thrown_balls_have_an_owner :
  forall m : Match, reachable m ->
    Forall (fun b => (b_state b = held -> b_owner b <> None)
                     /\ (b_state b = thrown -> b_owner b <> None)) (balls m)
    /\ (forall now b ps es,
          b_state (fst (fst (physicsBall now b ps es))) = thrown ->
          b_state b = thrown
          /\ b_owner (fst (fst (physicsBall now b ps es))) = b_owner b)
    /\ (forall now b ps es,
          b_state b = thrown ->
          (y (b_pos (ballFall b)) <? lit 35 100)%num = true ->
          b_state (fst (fst (physicsBall now b ps es))) = idle
          /\ b_owner (fst (fst (physicsBall now b ps es))) = None).
Proof.
  intros m Hm. pose proof (reachable_Inv Hm) as [_ [_ C]].
  split.
  { eapply Forall_impl; [|exact C].
    intros b H. unfold ownedWhenOut in H. split; intros Hs; apply H; auto. }
  split.
  { intros now b ps es. apply physicsBall_owner. }
  intros now b ps es. apply physicsBall_floor.
Qed.

End Entities.

(** ** Positions, stamina and speed *)

Section Bodies.
Context {N : Num} {M : MathLib N}.

Lemma balls_get_set (c : ServerBall) (bs : list ServerBall) :
  balls_get (b_id c) (balls_set c bs) = Some c.
Proof.
  induction bs as [|b bs IH]; simpl.
  - rewrite Z.eqb_refl. reflexivity.
  - destruct (Z.eqb (b_id b) (b_id c)) eqn:E; simpl.
    + rewrite Z.eqb_refl. reflexivity.
    + rewrite E. assumption.
Qed.

(** X3.  The ball that leaves the hand is in flight, owned by the thrower,
    and its velocity is the aim direction times [25 + charge * 25], with
    the vertical component [2 + charge * 5]: the charge is used as it is,
    whatever its value. *)
Lemma throwBall_speed (p : ServerPlayer) (bs : list ServerBall) (t : ThrowInput)
    (h : Z) (b : ServerBall) :
  p_holding p = Some h -> balls_get h bs = Some b ->
  let aimDir := normalize (mkV (Math_sin (p_rot p)) (int 0) (Math_cos (p_rot p))) in
  let speed := (int 25 + charge t * int 25)%num in
  exists b',
    balls_get h (snd (throwBall p bs t)) = Some b'
    /\ b_state b' = thrown
    /\ b_owner b' = Some (p_id p)
    /\ b_vel b' = mkV (x aimDir * speed)%num (int 2 + charge t * int 5)%num
                      (z aimDir * speed)%num.
Proof.
  intros Hh Hb. unfold throwBall. rewrite Hh, Hb. simpl.
  apply balls_get_In in Hb. destruct Hb as [_ Hid].
  eexists. split.
  - rewrite <- Hid at 1.
    match goal with
    | |- balls_get _ (balls_set ?c _) = _ => change (b_id b) with (b_id c)
    end.
    apply balls_get_set.
  - simpl. repeat split.
Qed.


Lemma throwBall_body (p : ServerPlayer) (bs : list (ServerBall)) (t : ThrowInput) :
  body (fst (throwBall p bs t)) = body p.
Proof.
  unfold throwBall.
  destruct (p_holding p) as [h|]; [|reflexivity].
  destruct (balls_get h bs); reflexivity.
Qed.

Lemma tryCatchBall_body (now : Z) (b : ServerBall) (p : ServerPlayer) (c : bool)
    (es : list GameEvent) :
  body (snd (fst (fst (tryCatchBall now b p c es)))) = body p.
Proof.
  unfold tryCatchBall.
  repeat match goal with
         | |- context [if ?c then _ else _] => destruct c
         end; reflexivity.
Qed.

Lemma tryCatchLoop_body (now : Z) (bs : list (ServerBall)) :
  forall (p : ServerPlayer) (c : bool) (es : list GameEvent),
    body (snd (fst (fst (tryCatchLoop now bs p c es)))) = body p.
Proof.
  induction bs as [|b bs IH]; intros p c es; simpl; [reflexivity|].
  pose proof (tryCatchBall_body now b p c es) as H.
  destruct (tryCatchBall now b p c es) as [[[b' p'] c'] es'].
  specialize (IH p' c' es').
  destruct (tryCatchLoop now bs p' c' es') as [[[bs' p''] c''] es''].
  simpl in *. congruence.
Qed.

Lemma tryCatch_body (now : Z) (p : ServerPlayer) (bs : list (ServerBall))
    (es : list GameEvent) :
  body (fst (fst (tryCatch now p bs es))) = body p.
Proof.
  unfold tryCatch.
  pose proof (tryCatchLoop_body now bs p false es) as H.
  destruct (tryCatchLoop now bs p false es) as [[[bs' p'] c'] es'].
  exact H.
Qed.


(** What one intent does to the position and the stamina of a player: it
    leaves them, or the x and z coordinates are clamped values and the
    stamina is drained or regenerated. *)
Lemma applyInput_shape (now : Z) (i : InputPacket) (p : ServerPlayer)
    (bs : list ServerBall) (es : list GameEvent) :
  body (fst (fst (applyInput now i p bs es))) = body p
  \/ ((exists vx vy vz,
         p_pos (fst (fst (applyInput now i p bs es)))
         = mkV (Math_max (- int 30) (Math_min (int 30) vx))%num vy
               (Math_max (- int 30) (Math_min (int 30) vz))%num)
      /\ (p_stamina (fst (fst (applyInput now i p bs es)))
          = Math_max (int 0) (p_stamina p - int 10 * TICK_DT)%num
          \/ p_stamina (fst (fst (applyInput now i p bs es)))
             = Math_min (int 100) (p_stamina p + int 5 * TICK_DT)%num)).
Proof.
  unfold applyInput.
  set (p0 := set_p_lastInputSeq (seq i) p).
  destruct (negb (PlayerState_eqb (p_state p0) alive)); [left; reflexivity|].
  right.
  match goal with
  | |- context [set_p_motion ?a ?b ?c p0] => set (p1 := set_p_motion a b c p0)
  end.
  assert (H1 : (exists vx vy vz,
                   p_pos p1 = mkV (Math_max (- int 30) (Math_min (int 30) vx))%num vy
                                  (Math_max (- int 30) (Math_min (int 30) vz))%num)
               /\ p_stamina p1 = p_stamina p).
  { split; [|reflexivity]. do 3 eexists. unfold p1. reflexivity. }
  clearbody p1. clear p0.
  set (r2 := if active (throw i) && match p_holding p1 with Some _ => true | None => false end
             then throwBall p1 bs (throw i) else (p1, bs)).
  assert (H2 : body (fst r2) = body p1).
  { unfold r2. destruct (_ && _); [apply throwBall_body | reflexivity]. }
  clearbody r2. destruct r2 as [p2 bs2]. simpl in H2.
  set (r3 := if catch i then tryCatch now p2 bs2 es else (p2, bs2, es)).
  assert (H3 : body (fst (fst r3)) = body p2).
  { unfold r3. destruct (catch i); [apply tryCatch_body | reflexivity]. }
  clearbody r3. destruct r3 as [[p3 bs3] es3]. simpl in H3.
  rewrite H2 in H3. unfold body in H3. injection H3 as Hpos Hst.
  destruct H1 as [Ha Hs]. rewrite <- Hpos in Ha. rewrite <- Hs, <- Hst.
  destruct (sprint i); simpl; (split; [exact Ha|]); [left | right]; reflexivity.
Qed.

End Bodies.

(** ** The held-ball references

    The reference of a player always names a ball that is held and owned by
    that player: each operation keeps the player's own reference right and
    leaves the held balls of the others alone. *)

Section Holding.

Context {N : Num} {M : MathLib N}.


Lemma balls_get_set_other (k : Z) (c : ServerBall) (bs : list ServerBall) :
  k <> b_id c -> balls_get k (balls_set c bs) = balls_get k bs.
Proof.
  intros Hk. induction bs as [|b bs IH]; simpl.
  - destruct (Z.eqb (b_id c) k) eqn:E; [|reflexivity].
    apply Z.eqb_eq in E. congruence.
  - destruct (Z.eqb (b_id b) (b_id c)) eqn:E; simpl.
    + apply Z.eqb_eq in E.
      destruct (Z.eqb (b_id c) k) eqn:E1; [apply Z.eqb_eq in E1; congruence|].
      destruct (Z.eqb (b_id b) k) eqn:E2; [apply Z.eqb_eq in E2; congruence|].
      reflexivity.
    + destruct (Z.eqb (b_id b) k); [reflexivity | exact IH].
Qed.

Lemma balls_set_ids (c b : ServerBall) (bs : list ServerBall) :
  balls_get (b_id c) bs = Some b -> map b_id (balls_set c bs) = map b_id bs.
Proof.
  induction bs as [|d bs IH]; simpl; [discriminate|].
  destruct (Z.eqb (b_id d) (b_id c)) eqn:E; simpl.
  - intros _. apply Z.eqb_eq in E. rewrite E. reflexivity.
  - intros H. rewrite (IH H). reflexivity.
Qed.

Lemma balls_get_NoDup (b : ServerBall) (bs : list ServerBall) :
  NoDup (map b_id bs) -> In b bs -> balls_get (b_id b) bs = Some b.
Proof.
  induction bs as [|c bs IH]; simpl; intros Hn Hin; [contradiction|].
  inversion Hn as [|? ? Hc Hd]; subst.
  destruct Hin as [-> | Hin].
  - rewrite Z.eqb_refl. reflexivity.
  - destruct (Z.eqb (b_id c) (b_id b)) eqn:E.
    + apply Z.eqb_eq in E. exfalso. apply Hc. rewrite E.
      apply in_map. assumption.
    + apply IH; assumption.
Qed.

Lemma frame_refl (k : string) (bs : list ServerBall) : frame k bs bs.
Proof. intros i c H _ _. exact H. Qed.

Lemma frame_trans (k : string) (bs1 bs2 bs3 : list ServerBall) :
  frame k bs1 bs2 -> frame k bs2 bs3 -> frame k bs1 bs3.
Proof.
  intros H1 H2 i c Hc Hs Ho. apply H2; [|assumption|assumption].
  apply H1; assumption.
Qed.

(** [throwBall] *)
Lemma throwBall_grip (p : ServerPlayer) (bs : list ServerBall) (t : ThrowInput) :
  ownRef bs p ->
  p_id (fst (throwBall p bs t)) = p_id p
  /\ map b_id (snd (throwBall p bs t)) = map b_id bs
  /\ ownRef (snd (throwBall p bs t)) (fst (throwBall p bs t))
  /\ frame (p_id p) bs (snd (throwBall p bs t)).
Proof.
  intros Ho. unfold throwBall.
  destruct (p_holding p) as [h|] eqn:Hh.
  2:{ simpl. repeat split; [exact Ho | apply frame_refl]. }
  destruct (Ho h Hh) as [b [Hb [Hs Hw]]].
  rewrite Hb. simpl.
  pose proof (balls_get_In _ _ Hb) as [_ Hid].
  split; [reflexivity|]. split.
  { apply balls_set_ids with (b := b). simpl. rewrite Hid. exact Hb. }
  split.
  { intros h' Hh'. discriminate Hh'. }
  intros i c Hc Hcs Hco.
  rewrite balls_get_set_other; [exact Hc|].
  simpl. intros ->. rewrite Hid in Hc. rewrite Hb in Hc.
  injection Hc as <-. contradiction.
Qed.

(** *** [tryCatch] *)

Lemma tryCatchBall_grip (now : Z) (b : ServerBall) (p : ServerPlayer) (c : bool)
    (es : list GameEvent) :
  let r := tryCatchBall now b p c es in
  p_id (snd (fst (fst r))) = p_id p
  /\ caughtBy p b (fst (fst (fst r)))
  /\ ((fst (fst (fst r)) = b /\ snd (fst (fst r)) = p /\ snd (fst r) = c)
      \/ (c = false /\ snd (fst r) = true
          /\ b_state (fst (fst (fst r))) = held
          /\ b_owner (fst (fst (fst r))) = Some (p_id p)
          /\ p_holding (snd (fst (fst r))) = Some (b_id b))).
Proof.
  unfold tryCatchBall, caughtBy.
  destruct c; [simpl; auto 10|].
  destruct (BallState_eqb (b_state b) thrown && negb (owner_is (b_owner b) (p_id p))) eqn:E1.
  - apply andb_prop in E1. destruct E1 as [E1 _].
    assert (Hn : b_state b <> held) by (destruct (b_state b); try discriminate E1; discriminate).
    match goal with |- context [if ?c then _ else _] => destruct c end;
      [|simpl; auto 10].
    match goal with |- context [if ?c then _ else _] => destruct c end;
      simpl; auto 10.
  - destruct (BallState_eqb (b_state b) idle && _) eqn:E2; [|simpl; auto 10].
    apply andb_prop in E2. destruct E2 as [E2 _].
    assert (Hn : b_state b <> held) by (destruct (b_state b); try discriminate E2; discriminate).
    match goal with |- context [if ?c then _ else _] => destruct c end;
      simpl; auto 10.
Qed.

Lemma tryCatchLoop_grip (now : Z) (bs : list ServerBall) :
  forall (p : ServerPlayer) (c : bool) (es : list GameEvent),
    let r := tryCatchLoop now bs p c es in
    p_id (snd (fst (fst r))) = p_id p
    /\ Forall2 (caughtBy p) bs (fst (fst (fst r)))
    /\ ((fst (fst (fst r)) = bs /\ snd (fst (fst r)) = p)
        \/ (c = false
            /\ exists b', In b' (fst (fst (fst r)))
                 /\ b_state b' = held /\ b_owner b' = Some (p_id p)
                 /\ p_holding (snd (fst (fst r))) = Some (b_id b'))).
Proof.
  induction bs as [|b bs IH]; intros p c es; simpl.
  - split; [reflexivity|]. split; [constructor|]. left. auto.
  - pose proof (tryCatchBall_grip now b p c es) as H. simpl in H.
    destruct (tryCatchBall now b p c es) as [[[b' p'] c'] es'].
    simpl in H. destruct H as [Hid [Hcb Hcase]].
    specialize (IH p' c' es'). simpl in IH.
    destruct (tryCatchLoop now bs p' c' es') as [[[bs' p''] c''] es''].
    simpl in *. destruct IH as [Iid [IF Icase]].
    split; [congruence|].
    split.
    { constructor; [exact Hcb|].
      eapply Forall2_impl; [|exact IF].
      intros x x' [A B]. split; [exact A|]. rewrite <- Hid. exact B. }
    destruct Hcase as [[-> [-> ->]] | [-> [-> [Hs [Ho Hh]]]]].
    + destruct Icase as [[-> ->] | [-> [d [Hin [Hds [Hdo Hdh]]]]]].
      * left. auto.
      * right. split; [reflexivity|]. exists d. auto.
    + destruct Icase as [[-> ->] | [Hf _]]; [|discriminate Hf].
      right. split; [reflexivity|]. exists b'.
      destruct Hcb as [Hbid _]. rewrite Hbid. auto.
Qed.

Lemma caughtBy_ids (p : ServerPlayer) (bs bs' : list ServerBall) :
  Forall2 (caughtBy p) bs bs' -> map b_id bs' = map b_id bs.
Proof.
  induction 1 as [|b b' bs bs' [H _] _ IH]; simpl; [reflexivity|].
  rewrite H, IH. reflexivity.
Qed.

Lemma caughtBy_held (p : ServerPlayer) (bs bs' : list ServerBall) :
  Forall2 (caughtBy p) bs bs' ->
  forall i c, balls_get i bs = Some c -> b_state c = held ->
              balls_get i bs' = Some c.
Proof.
  induction 1 as [|b b' bs bs' [Hid Hc] _ IH]; simpl; intros i c Hg Hs;
    [discriminate|].
  rewrite Hid.
  destruct (Z.eqb (b_id b) i) eqn:E.
  - injection Hg as <-.
    destruct Hc as [-> | [Hn _]]; [reflexivity | contradiction].
  - apply IH; assumption.
Qed.

Lemma tryCatch_grip (now : Z) (p : ServerPlayer) (bs : list ServerBall)
    (es : list GameEvent) :
  NoDup (map b_id bs) -> ownRef bs p ->
  let r := tryCatch now p bs es in
  p_id (fst (fst r)) = p_id p
  /\ map b_id (snd (fst r)) = map b_id bs
  /\ ownRef (snd (fst r)) (fst (fst r))
  /\ frame (p_id p) bs (snd (fst r)).
Proof.
  intros Hn Ho. unfold tryCatch.
  pose proof (tryCatchLoop_grip now bs p false es) as H. simpl in H.
  destruct (tryCatchLoop now bs p false es) as [[[bs' p'] c'] es'].
  simpl in *. destruct H as [Hid [HF Hcase]].
  pose proof (caughtBy_ids HF) as Hids.
  split; [exact Hid|]. split; [exact Hids|].
  split.
  - destruct Hcase as [[-> ->] | [_ [b' [Hin [Hs [Hw Hh]]]]]]; [exact Ho|].
    intros h Hh'. rewrite Hh in Hh'. injection Hh' as <-.
    exists b'. split; [|split; [exact Hs | rewrite Hid; exact Hw]].
    apply balls_get_NoDup; [rewrite Hids; exact Hn | exact Hin].
  - intros i c Hc Hcs _. exact (caughtBy_held HF i Hc Hcs).
Qed.

(** [applyInput] *)
Lemma applyInput_grip (now : Z) (i : InputPacket) (p : ServerPlayer)
    (bs : list ServerBall) (es : list GameEvent) :
  NoDup (map b_id bs) -> ownRef bs p ->
  let r := applyInput now i p bs es in
  p_id (fst (fst r)) = p_id p
  /\ map b_id (snd (fst r)) = map b_id bs
  /\ ownRef (snd (fst r)) (fst (fst r))
  /\ frame (p_id p) bs (snd (fst r)).
Proof.
  intros Hn Ho. unfold applyInput.
  set (p0 := set_p_lastInputSeq (seq i) p).
  destruct (negb (PlayerState_eqb (p_state p0) alive)).
  { simpl. repeat split; [exact Ho | apply frame_refl]. }
  match goal with
  | |- context [set_p_motion ?a ?b ?c p0] => set (p1 := set_p_motion a b c p0)
  end.
  assert (H1 : p_id p1 = p_id p /\ ownRef bs p1) by (split; [reflexivity | exact Ho]).
  clearbody p1. clear p0. destruct H1 as [I1 O1].
  set (r2 := if active (throw i) && match p_holding p1 with Some _ => true | None => false end
             then throwBall p1 bs (throw i) else (p1, bs)).
  assert (H2 : p_id (fst r2) = p_id p1 /\ map b_id (snd r2) = map b_id bs
               /\ ownRef (snd r2) (fst r2) /\ frame (p_id p1) bs (snd r2)).
  { unfold r2. destruct (_ && _).
    - apply throwBall_grip. exact O1.
    - simpl. repeat split; [exact O1 | apply frame_refl]. }
  clearbody r2. destruct r2 as [p2 bs2]. simpl in H2.
  destruct H2 as [I2 [D2 [O2 F2]]].
  set (r3 := if catch i then tryCatch now p2 bs2 es else (p2, bs2, es)).
  assert (H3 : p_id (fst (fst r3)) = p_id p2 /\ map b_id (snd (fst r3)) = map b_id bs2
               /\ ownRef (snd (fst r3)) (fst (fst r3))
               /\ frame (p_id p2) bs2 (snd (fst r3))).
  { unfold r3. destruct (catch i).
    - apply tryCatch_grip; [rewrite D2; exact Hn | exact O2].
    - simpl. repeat split; [exact O2 | apply frame_refl]. }
  clearbody r3. destruct r3 as [[p3 bs3] es3]. simpl in H3.
  destruct H3 as [I3 [D3 [O3 F3]]].
  assert (HF : frame (p_id p) bs bs3).
  { rewrite I2, I1 in F3. rewrite I1 in F2. eapply frame_trans; eassumption. }
  destruct (sprint i); simpl; (split; [congruence|]); (split; [congruence|]);
    (split; [exact O3 | exact HF]).
Qed.

Lemma drainLoop_grip (now : Z) (n : nat) :
  forall (p : ServerPlayer) (bs : list ServerBall) (es : list GameEvent),
    NoDup (map b_id bs) -> ownRef bs p ->
    let r := drainLoop now n (p, bs, es) in
    p_id (fst (fst r)) = p_id p
    /\ map b_id (snd (fst r)) = map b_id bs
    /\ ownRef (snd (fst r)) (fst (fst r))
    /\ frame (p_id p) bs (snd (fst r)).
Proof.
  induction n as [|n IH]; intros p bs es Hn Ho; simpl.
  - repeat split; [exact Ho | apply frame_refl].
  - destruct (p_inputBuffer p) as [|i rest] eqn:Hb.
    + simpl. repeat split; [exact Ho | apply frame_refl].
    + pose proof (@applyInput_grip now i (set_p_inputBuffer rest p) bs es Hn Ho) as H.
      simpl in H.
      destruct (applyInput now i (set_p_inputBuffer rest p) bs es) as [[p1 bs1] es1].
      simpl in H. destruct H as [I1 [D1 [O1 F1]]].
      assert (Hn1 : NoDup (map b_id bs1)) by (rewrite D1; exact Hn).
      specialize (IH p1 bs1 es1 Hn1 O1). simpl in IH.
      destruct IH as [I2 [D2 [O2 F2]]].
      split; [congruence|]. split; [congruence|]. split; [exact O2|].
      rewrite I1 in F2. eapply frame_trans; eassumption.
Qed.

Lemma ownRef_frame (p : ServerPlayer) (k : string) (bs bs' : list ServerBall) :
  p_id p <> k -> frame k bs bs' -> ownRef bs p -> ownRef bs' p.
Proof.
  intros Hk Hf Ho h Hh.
  destruct (Ho h Hh) as [b [Hb [Hs Hw]]].
  exists b. split; [|split; assumption].
  apply Hf; [exact Hb | exact Hs|].
  rewrite Hw. intros [= E]. contradiction.
Qed.

Lemma processInputs_grip (now : Z) (ps : list ServerPlayer) :
  forall (bs : list ServerBall) (es : list GameEvent),
    NoDup (map p_id ps) -> NoDup (map b_id bs) -> Forall (ownRef bs) ps ->
    let r := processInputs now ps bs es in
    map p_id (fst (fst r)) = map p_id ps
    /\ map b_id (snd (fst r)) = map b_id bs
    /\ Forall (ownRef (snd (fst r))) (fst (fst r))
    /\ (forall i c, balls_get i bs = Some c -> b_state c = held ->
                    (forall k, In k (map p_id ps) -> b_owner c <> Some k) ->
                    balls_get i (snd (fst r)) = Some c).
Proof.
  induction ps as [|p ps IH]; intros bs es Hp Hn Ho; simpl.
  - repeat split; [constructor | intros i c Hc _ _; exact Hc].
  - inversion Hp as [|? ? Hpn Hpd]; subst.
    inversion Ho as [|? ? Hop Hops]; subst.
    pose proof (@drainLoop_grip now (List.length (p_inputBuffer p)) p bs es Hn Hop) as H.
    unfold drainInputs. simpl in H.
    destruct (drainLoop now (List.length (p_inputBuffer p)) (p, bs, es)) as [[p' bs'] es'].
    simpl in H. destruct H as [I1 [D1 [O1 F1]]].
    assert (Hn' : NoDup (map b_id bs')) by (rewrite D1; exact Hn).
    assert (Ho' : Forall (ownRef bs') ps).
    { rewrite Forall_forall in Hops |- *. intros q Hq.
      apply (@ownRef_frame q (p_id p) bs bs'); [|exact F1 | exact (Hops q Hq)].
      intros E. apply Hpn. rewrite <- E. apply in_map. exact Hq. }
    specialize (IH bs' es' Hpd Hn' Ho'). simpl in IH.
    destruct (processInputs now ps bs' es') as [[ps' bs''] es''].
    simpl in *. destruct IH as [I2 [D2 [O2 F2]]].
    split; [congruence|]. split; [congruence|].
    split.
    + constructor; [|exact O2].
      intros h Hh. destruct (O1 h Hh) as [b [Hb [Hs Hw]]].
      exists b. split; [|split; assumption].
      apply F2; [exact Hb | exact Hs|].
      intros k Hk. rewrite Hw, I1. intros [= E]. apply Hpn. rewrite E. exact Hk.
    + intros i c Hc Hs Hw. apply F2.
      * apply F1; [exact Hc | exact Hs|]. apply Hw. left. reflexivity.
      * exact Hs.
      * intros k Hk. apply Hw. right. exact Hk.
Qed.

(** *** The physics *)

Lemma players_get_None (k : string) (ps : list ServerPlayer) :
  players_get k ps = None -> ~ In k (map p_id ps).
Proof.
  induction ps as [|p ps IH]; simpl; intros H; [tauto|].
  destruct (String.eqb (p_id p) k) eqn:E; [discriminate H|].
  apply String.eqb_neq in E. intros [Hk | Hk]; [contradiction | exact (IH H Hk)].
Qed.

Lemma grip_ids (ps ps' : list ServerPlayer) :
  map grip ps' = map grip ps -> map p_id ps' = map p_id ps.
Proof.
  intros H. apply (f_equal (map fst)) in H. rewrite !map_map in H. exact H.
Qed.

Lemma checkHitsLoop_grip (now : Z) (ps : list ServerPlayer) :
  forall (b : ServerBall) (es : list GameEvent),
    let r := checkHitsLoop now ps b es in
    map grip (fst (fst r)) = map grip ps /\ b_id (snd (fst r)) = b_id b.
Proof.
  induction ps as [|p ps IH]; intros b es; simpl.
  - split; reflexivity.
  - destruct (owner_is (b_owner b) (p_id p) || negb (PlayerState_eqb (p_state p) alive)).
    + specialize (IH b es). simpl in IH.
      destruct (checkHitsLoop now ps b es) as [[ps' b'] es'].
      destruct IH as [A B]. simpl in A, B. simpl.
      split; [rewrite A; reflexivity | exact B].
    + match goal with |- context [if ?c then _ else _] => destruct c end.
      * match goal with
        | |- context [checkHitsLoop now ps ?b1 ?es1] =>
            specialize (IH b1 es1); simpl in IH;
            destruct (checkHitsLoop now ps b1 es1) as [[ps' b'] es']
        end.
        destruct IH as [A B]. simpl in A, B. simpl.
        split; [rewrite A; reflexivity | exact B].
      * specialize (IH b es). simpl in IH.
        destruct (checkHitsLoop now ps b es) as [[ps' b'] es'].
        destruct IH as [A B]. simpl in A, B. simpl.
        split; [rewrite A; reflexivity | exact B].
Qed.

Lemma ballMotion_id (b : ServerBall) : b_id (ballMotion b) = b_id b.
Proof.
  unfold ballMotion, wallBounceZ, wallBounceX, floorBounce.
  repeat match goal with
         | |- context [if ?c then _ else _] => destruct c
         end; reflexivity.
Qed.

Lemma physicsBall_grip (now : Z) (b : ServerBall) (ps : list ServerPlayer)
    (es : list GameEvent) :
  let r := physicsBall now b ps es in
  map grip (snd (fst r)) = map grip ps
  /\ stays (map p_id ps) b (fst (fst r)).
Proof.
  unfold physicsBall, stays.
  destruct (BallState_eqb (b_state b) thrown || BallState_eqb (b_state b) idle) eqn:E.
  - assert (Hn : b_state b <> held).
    { intros H. rewrite H in E. discriminate E. }
    destruct (_ && _).
    + unfold checkHits.
      pose proof (checkHitsLoop_grip now ps (ballMotion b) es) as H. simpl in H.
      destruct (checkHitsLoop now ps (ballMotion b) es) as [[ps' b4] es'].
      simpl in *. destruct H as [A B].
      split; [exact A|]. split; [rewrite B; apply ballMotion_id | contradiction].
    + simpl. split; [reflexivity|].
      split; [apply ballMotion_id | contradiction].
  - destruct (BallState_eqb (b_state b) held && owner_truthy (b_owner b));
      [|simpl; split; [reflexivity | split; [reflexivity | auto]]].
    destruct (b_owner b) as [o|] eqn:Eo;
      [|simpl; split; [reflexivity | split; [reflexivity | auto]]].
    destruct (players_get o ps) eqn:Ep; simpl.
    + split; [reflexivity|]. split; [reflexivity | auto].
    + split; [reflexivity|]. split; [reflexivity|].
      intros _ Hin. exfalso.
      apply (players_get_None _ _ Ep). apply Hin. reflexivity.
Qed.

Lemma physics_grip (now : Z) (bs : list ServerBall) :
  forall (ps : list ServerPlayer) (es : list GameEvent),
    let r := physics now bs ps es in
    map grip (snd (fst r)) = map grip ps
    /\ Forall2 (stays (map p_id ps)) bs (fst (fst r)).
Proof.
  induction bs as [|b bs IH]; intros ps es; simpl.
  - split; [reflexivity | constructor].
  - pose proof (physicsBall_grip now b ps es) as H. simpl in H.
    destruct (physicsBall now b ps es) as [[b' ps'] es'].
    simpl in H. destruct H as [A B].
    specialize (IH ps' es'). simpl in IH.
    destruct (physics now bs ps' es') as [[bs' ps''] es''].
    simpl in *. destruct IH as [A' B'].
    split; [congruence|].
    constructor; [exact B|]. rewrite (grip_ids _ _ A) in B'. exact B'.
Qed.

Lemma stays_get (ids : list string) (bs bs' : list ServerBall) :
  Forall2 (stays ids) bs bs' ->
  map b_id bs' = map b_id bs
  /\ forall i c, balls_get i bs = Some c ->
       exists c', balls_get i bs' = Some c' /\ stays ids c c'.
Proof.
  induction 1 as [|b b' bs bs' H _ [IH1 IH2]]; simpl.
  - split; [reflexivity | intros i c Hc; discriminate Hc].
  - pose proof H as [Hid _]. rewrite Hid, IH1. split; [reflexivity|].
    intros i c Hc. destruct (Z.eqb (b_id b) i).
    + injection Hc as <-. exists b'. split; [reflexivity | exact H].
    + apply IH2. exact Hc.
Qed.

Lemma ownRef_grip (bs : list ServerBall) (p q : ServerPlayer) :
  grip q = grip p -> ownRef bs p -> ownRef bs q.
Proof.
  unfold grip, ownRef. intros [= Hi Hh] Ho. rewrite Hi, Hh. exact Ho.
Qed.

Lemma Forall_grip (P : ServerPlayer -> Prop) (ps ps' : list ServerPlayer) :
  (forall p q, grip q = grip p -> P p -> P q) ->
  map grip ps' = map grip ps -> Forall P ps -> Forall P ps'.
Proof.
  intros HP. revert ps'.
  induction ps as [|p ps IH]; intros [|q ps'] H HF; try discriminate H.
  - constructor.
  - pose proof (f_equal (@hd _ (grip p)) H) as Hh.
    pose proof (f_equal (@tl _) H) as Ht. simpl in Hh, Ht.
    pose proof (Forall_inv HF) as H1. pose proof (Forall_inv_tail HF) as H2.
    constructor; [exact (HP p q Hh H1) | exact (IH ps' Ht H2)].
Qed.

Lemma physics_holds (now : Z) (bs : list ServerBall) (ps : list ServerPlayer)
    (es : list GameEvent) :
  Forall (ownRef bs) ps ->
  let r := physics now bs ps es in
  map p_id (snd (fst r)) = map p_id ps
  /\ map b_id (fst (fst r)) = map b_id bs
  /\ Forall (ownRef (fst (fst r))) (snd (fst r)).
Proof.
  intros Ho.
  pose proof (physics_grip now bs ps es) as H. simpl in H.
  destruct (physics now bs ps es) as [[bs' ps'] es'].
  simpl in *. destruct H as [A B].
  destruct (stays_get B) as [C D].
  split; [apply grip_ids; exact A|]. split; [exact C|].
  apply (@Forall_grip (ownRef bs') ps ps'); [|exact A|].
  - intros p q. apply ownRef_grip.
  - rewrite Forall_forall in Ho |- *. intros p Hp h Hh.
    destruct (Ho p Hp h Hh) as [c [Hc [Hs Hw]]].
    destruct (D h c Hc) as [c' [Hc' [_ Hst]]].
    destruct (Hst Hs) as [Hs' Hw'].
    { intros o Ho'. rewrite Hw in Ho'. injection Ho' as <-.
      apply in_map. exact Hp. }
    exists c'. split; [exact Hc'|]. split; [exact Hs' | congruence].
Qed.

(** *** The whole tick, and the other operations *)

Lemma free_ownRef (bs : list ServerBall) (p : ServerPlayer) :
  p_holding p = None -> ownRef bs p.
Proof. intros H h Hh. rewrite H in Hh. discriminate Hh. Qed.

Lemma respawnPlayers_free (ps : list ServerPlayer) :
  forall rc, Forall (fun p => p_holding p = None) (fst (respawnPlayers ps rc)).
Proof.
  induction ps as [|p ps IH]; intro rc; simpl; [constructor|].
  specialize (IH (S rc)).
  destruct (respawnPlayers ps (S rc)) as [ps' rc'].
  simpl in *. constructor; [reflexivity | assumption].
Qed.

Lemma respawnBalls_ids (bs : list ServerBall) :
  map b_id (map respawnBall bs) = map b_id bs.
Proof. rewrite map_map. reflexivity. Qed.

Lemma stop_same (m : Match) :
  players (stop m) = players m /\ balls (stop m) = balls m.
Proof. unfold stop. destruct (tickInterval m); split; reflexivity. Qed.

Lemma tickPhase_gripped (now : Z) (m : Match) :
  gripped m -> gripped (tickPhase now m).
Proof.
  unfold gripped, tickPhase. intros [A B].
  destruct (matchState m).
  - destruct (nleb _ _); [|simpl; auto].
    unfold respawnAll. simpl.
    pose proof (respawnPlayers_free (players m) (env_randoms m)) as H.
    destruct (respawnPlayers (players m) (env_randoms m)) as [ps rc].
    simpl in *. rewrite respawnBalls_ids. split; [exact A|].
    eapply Forall_impl; [|exact H]. intros p. apply free_ownRef.
  - destruct (nleb _ _); [|simpl; auto].
    match goal with |- context [stop ?m0] => destruct (stop_same m0) as [-> ->] end.
    simpl. auto.
  - auto.
Qed.

Lemma inputState_ids (ps ps' : list ServerPlayer) :
  map inputState ps' = map inputState ps -> map p_id ps' = map p_id ps.
Proof.
  intros H. apply (f_equal (map (fun t => fst (fst t)))) in H.
  rewrite !map_map in H. exact H.
Qed.

Lemma tick_gripped (now : Z) (m : Match) :
  NoDup (map p_id (players m)) -> gripped m -> gripped (tick now m).
Proof.
  intros Hn Hg. unfold tick.
  set (m1 := tickPhase now (set_tickCount (tickCount m + 1) m)).
  assert (Hn1 : NoDup (map p_id (players m1))).
  { pose proof (proj1 (tickPhase_spec now (set_tickCount (tickCount m + 1) m))) as H.
    fold m1 in H. rewrite (inputState_ids _ _ H). exact Hn. }
  assert (Hg1 : gripped m1) by (apply tickPhase_gripped; exact Hg).
  clearbody m1. destruct Hg1 as [A B].
  pose proof (@processInputs_grip now (players m1) (balls m1) (events m1) Hn1 A B) as H.
  simpl in H.
  destruct (processInputs now (players m1) (balls m1) (events m1)) as [[ps bs] es].
  simpl in H. destruct H as [_ [H2 [H3 _]]].
  pose proof (@physics_holds now bs ps es H3) as K. simpl in K.
  destruct (physics now bs ps es) as [[bs' ps'] es'].
  simpl in K. destruct K as [_ [K2 K3]].
  assert (G : gripped (storeHistory (set_events es' (set_balls bs' (set_players ps' m1))))).
  { unfold gripped, storeHistory.
    destruct (Nat.ltb _ _); simpl; (split; [rewrite K2, H2; exact A | exact K3]). }
  destruct (Z.eqb _ 0); [|exact G].
  exact G.
Qed.

Lemma balls_get_map (f : ServerBall -> ServerBall) (bs : list ServerBall) (i : Z) :
  (forall b, b_id (f b) = b_id b) ->
  balls_get i (map f bs) = option_map f (balls_get i bs).
Proof.
  intros Hf. induction bs as [|b bs IH]; simpl; [reflexivity|].
  rewrite Hf. destruct (Z.eqb (b_id b) i); [reflexivity | exact IH].
Qed.

Lemma dropBall_id (k : string) (b : ServerBall) : b_id (dropBall k b) = b_id b.
Proof. unfold dropBall. destruct (owner_is _ _); reflexivity. Qed.

Lemma owner_is_Some (o k : string) : owner_is (Some o) k = true -> o = k.
Proof. simpl. apply String.eqb_eq. Qed.

Lemma removePlayer_gripped (now : Z) (k : string) (m : Match) :
  gripped m -> gripped (removePlayer now k m).
Proof.
  unfold gripped, removePlayer. intros [A B].
  set (m1 := match players_get k (players m) with
             | Some p => _
             | None => m
             end).
  assert (H1 : balls m1 = balls m).
  { unfold m1. destruct (players_get k (players m)); reflexivity. }
  assert (H2 : Forall (ownRef (balls m)) (players m1)).
  { unfold m1. destruct (players_get k (players m)) as [p|] eqn:E; [|exact B].
    simpl. apply players_set_Forall; [|exact B].
    apply players_get_In in E. destruct E as [E _].
    rewrite Forall_forall in B. apply (@ownRef_grip (balls m) p); [reflexivity|].
    apply B. exact E. }
  clearbody m1. simpl. rewrite H1.
  split.
  - rewrite map_map.
    rewrite (map_ext (fun b => b_id (dropBall k b)) b_id (dropBall_id k)). exact A.
  - rewrite Forall_forall in H2 |- *. intros p Hp.
    unfold players_delete in Hp. apply filter_In in Hp. destruct Hp as [Hp Hk].
    intros h Hh. destruct (H2 p Hp h Hh) as [c [Hc [Hs Hw]]].
    exists c. rewrite (@balls_get_map (dropBall k) (balls m) h (dropBall_id k)), Hc. simpl.
    assert (Hd : dropBall k c = c).
    { unfold dropBall. rewrite Hw.
      destruct (owner_is (Some (p_id p)) k) eqn:E; [|reflexivity].
      apply owner_is_Some in E. rewrite E, String.eqb_refl in Hk. discriminate Hk. }
    rewrite Hd. auto.
Qed.

Lemma onInput_gripped (k : string) (packet : InputPacket) (m : Match) :
  gripped m -> gripped (onInput k packet m).
Proof.
  unfold gripped, onInput. intros [A B].
  destruct (players_get k (players m)) as [p|] eqn:E; [|auto].
  destruct (seq packet >? p_lastInputSeq p)%Z; [|auto].
  simpl. split; [exact A|].
  apply players_set_Forall; [|exact B].
  apply players_get_In in E. destruct E as [E _].
  rewrite Forall_forall in B. apply (@ownRef_grip (balls m) p); [reflexivity|].
  apply B. exact E.
Qed.

Lemma initPlayers_free (l : list string) :
  forall i rc ps,
    Forall (fun p => p_holding p = None) ps ->
    Forall (fun p => p_holding p = None) (fst (initPlayers l i rc ps)).
Proof.
  induction l as [|s l IH]; intros i rc ps H; simpl; [exact H|].
  apply IH. apply players_set_Forall; [reflexivity | exact H].
Qed.

Lemma new_Match_gripped (mid : string) (md : Mode) (sockets : list string) :
  gripped (new_Match mid md sockets).
Proof.
  unfold gripped, new_Match.
  pose proof (@initPlayers_free sockets 0 0 [] (Forall_nil _)) as H.
  destruct (initPlayers sockets 0 0 []) as [ps rc]. simpl in *.
  split.
  - repeat constructor; simpl; intuition discriminate.
  - eapply Forall_impl; [|exact H]. intros p. apply free_ownRef.
Qed.

Lemma reachable_gripped (m : Match) : reachable m -> gripped m.
Proof.
  induction 1 as [mid md sockets | now m H IH | m H IH | k packet m H IH
                 | now k m H IH | now m H IH].
  - apply new_Match_gripped.
  - exact IH.
  - unfold gripped. destruct (stop_same m) as [-> ->]. exact IH.
  - apply onInput_gripped. exact IH.
  - apply removePlayer_gripped. exact IH.
  - apply tick_gripped; [|exact IH]. apply (reachable_Inv H).
Qed.

(** X7.  In every state that a match reaches, the ball that a player's
    reference names is in state held and its owner is that player. *)
Theorem held_reference_is_owned (m : Match) : reachable m -> holdsOwned m.
Proof.
  intros H p Hp. destruct (reachable_gripped H) as [_ B].
  rewrite Forall_forall in B. apply B. exact Hp.
Qed.

End Holding.

(** ** The bounds of a player, in exact arithmetic *)

Section ExactBounds.

Context {M : MathLib Exact}.


Hypothesis random_unit :
  forall n, 0 <= (Math_random n : Q) /\ (Math_random n : Q) <= 1.

Lemma clamp30 (v : Q) :
  let c : Q := @Math_max Exact (@nopp Exact (int 30)) (@Math_min Exact (int 30) v) in
  @nleb Exact (@nopp Exact (int 30)) c = true /\ @nleb Exact c (int 30) = true.
Proof.
  cbv [Math_max Math_min nopp nleb Exact int ofQ].
  destruct (Qle_bool (inject_Z 30) v) eqn:E1.
  - split; reflexivity.
  - destruct (Qle_bool (- inject_Z 30) v) eqn:E2.
    + split; [exact E2|].
      apply Qle_bool_iff. apply Qnot_lt_le. intros H.
      apply Qlt_le_weak in H. apply Qle_bool_iff in H. congruence.
    + split; reflexivity.
Qed.

Lemma stamina_drain (s : Q) :
  @nleb Exact (int 0) s = true -> @nleb Exact s (int 100) = true ->
  let s' : Q := @Math_max Exact (int 0) (@nsub Exact s (@nmul Exact (int 10) TICK_DT)) in
  @nleb Exact (int 0) s' = true /\ @nleb Exact s' (int 100) = true.
Proof.
  cbv [Math_max nleb nsub nmul Exact int ofQ TICK_DT TICK_RATE ndiv].
  intros H0 H1. apply Qle_bool_iff in H0, H1.
  assert (Hc : 0 <= inject_Z 10 * (inject_Z 1 / inject_Z 30))
    by (apply Qle_bool_iff; reflexivity).
  set (c := inject_Z 10 * (inject_Z 1 / inject_Z 30)) in *.
  change (inject_Z 0) with 0 in *. change (inject_Z 100) with 100 in *.
  destruct (Qle_bool 0 (s - c)) eqn:E.
  - split; [exact E|]. apply Qle_bool_iff. clearbody c. lra.
  - split; reflexivity.
Qed.

Lemma stamina_regen (s : Q) :
  @nleb Exact (int 0) s = true -> @nleb Exact s (int 100) = true ->
  let s' : Q := @Math_min Exact (int 100) (@nadd Exact s (@nmul Exact (int 5) TICK_DT)) in
  @nleb Exact (int 0) s' = true /\ @nleb Exact s' (int 100) = true.
Proof.
  cbv [Math_min nleb nadd nmul Exact int ofQ TICK_DT TICK_RATE ndiv].
  intros H0 H1. apply Qle_bool_iff in H0, H1.
  assert (Hc : 0 <= inject_Z 5 * (inject_Z 1 / inject_Z 30))
    by (apply Qle_bool_iff; reflexivity).
  set (c := inject_Z 5 * (inject_Z 1 / inject_Z 30)) in *.
  change (inject_Z 0) with 0 in *. change (inject_Z 100) with 100 in *.
  destruct (Qle_bool 100 (s + c)) eqn:E.
  - split; reflexivity.
  - split; [apply Qle_bool_iff; clearbody c; lra|].
    apply Qle_bool_iff. apply Qnot_lt_le. intros H.
    apply Qlt_le_weak in H. apply Qle_bool_iff in H. congruence.
Qed.

Lemma spawn_inArena (r : @num Exact) (t : Team) :
  0 <= (r : Q) -> (r : Q) <= 1 ->
  @nleb Exact (@nopp Exact (int 30)) (spawnX r) = true
  /\ @nleb Exact (spawnX r) (int 30) = true
  /\ @nleb Exact (@nopp Exact (int 30)) (spawnZ t) = true
  /\ @nleb Exact (spawnZ t) (int 30) = true.
Proof.
  intros H0 H1.
  cbv [nleb nopp Exact int ofQ spawnX spawnZ lit nsub nmul].
  change (inject_Z 30) with 30. change (inject_Z 20) with 20.
  split; [apply Qle_bool_iff; lra|].
  split; [apply Qle_bool_iff; lra|].
  destruct t; split; reflexivity.
Qed.

Lemma bounded_body (p q : @ServerPlayer Exact) :
  body q = body p -> bounded p -> bounded q.
Proof.
  unfold body, bounded, staminaBounded, inArena.
  intros H. injection H as Hp Hs. rewrite Hp, Hs. auto.
Qed.

Lemma applyInput_bounded (now : Z) (i : @InputPacket Exact) (p : @ServerPlayer Exact)
    (bs : list (@ServerBall Exact)) (es : list GameEvent) :
  bounded p -> bounded (fst (fst (applyInput now i p bs es))).
Proof.
  intros Hp.
  destruct (applyInput_shape now i p bs es) as [H | [[vx [vy [vz Hpos]]] Hst]].
  - exact (bounded_body H Hp).
  - destruct Hp as [[S0 S1] _]. split.
    + unfold staminaBounded.
      destruct Hst as [-> | ->];
        [exact (stamina_drain _ S0 S1) | exact (stamina_regen _ S0 S1)].
    + unfold inArena. rewrite Hpos. simpl x. simpl z.
      destruct (clamp30 vx) as [A B]. destruct (clamp30 vz) as [C D].
      split; [exact A|]. split; [exact B|]. split; [exact C | exact D].
Qed.

Lemma drainLoop_bounded (now : Z) (n : nat) :
  forall (p : @ServerPlayer Exact) (bs : list (@ServerBall Exact)) (es : list GameEvent),
    bounded p -> bounded (fst (fst (drainLoop now n (p, bs, es)))).
Proof.
  induction n as [|n IH]; intros p bs es Hp; simpl; [exact Hp|].
  destruct (p_inputBuffer p) as [|i rest]; [exact Hp|].
  pose proof (@applyInput_bounded now i (set_p_inputBuffer rest p) bs es Hp) as H.
  destruct (applyInput now i (set_p_inputBuffer rest p) bs es) as [[p1 bs1] es1].
  apply IH. exact H.
Qed.

Lemma processInputs_bounded (now : Z) (ps : list (@ServerPlayer Exact)) :
  forall (bs : list (@ServerBall Exact)) (es : list GameEvent),
    Forall bounded ps -> Forall bounded (fst (fst (processInputs now ps bs es))).
Proof.
  induction ps as [|p ps IH]; intros bs es H; simpl; [constructor|].
  inversion H as [|? ? Hp Hps]; subst.
  pose proof (@drainLoop_bounded now (List.length (p_inputBuffer p)) p bs es Hp) as H1.
  unfold drainInputs.
  destruct (drainLoop now (List.length (p_inputBuffer p)) (p, bs, es)) as [[p' bs'] es'].
  specialize (IH bs' es' Hps).
  destruct (processInputs now ps bs' es') as [[ps' bs''] es''].
  simpl in *. constructor; assumption.
Qed.

Lemma checkHitsLoop_bounded (now : Z) (ps : list (@ServerPlayer Exact)) :
  forall (b : @ServerBall Exact) (es : list GameEvent),
    Forall bounded ps -> Forall bounded (fst (fst (checkHitsLoop now ps b es))).
Proof.
  induction ps as [|p ps IH]; intros b es H; simpl; [constructor|].
  inversion H as [|? ? Hp Hps]; subst.
  destruct (owner_is (b_owner b) (p_id p) || negb (PlayerState_eqb (p_state p) alive)).
  - specialize (IH b es Hps).
    destruct (checkHitsLoop now ps b es) as [[ps' b'] es'].
    simpl in *. constructor; assumption.
  - match goal with |- context [if ?c then _ else _] => destruct c end.
    + match goal with
      | |- context [checkHitsLoop now ps ?b1 ?es1] =>
          specialize (IH b1 es1 Hps);
          destruct (checkHitsLoop now ps b1 es1) as [[ps' b'] es']
      end.
      simpl in *. constructor; [exact Hp | assumption].
    + specialize (IH b es Hps).
      destruct (checkHitsLoop now ps b es) as [[ps' b'] es'].
      simpl in *. constructor; assumption.
Qed.

Lemma physics_bounded (now : Z) (bs : list (@ServerBall Exact)) :
  forall (ps : list (@ServerPlayer Exact)) (es : list GameEvent),
    Forall bounded ps -> Forall bounded (snd (fst (physics now bs ps es))).
Proof.
  induction bs as [|b bs IH]; intros ps es H; simpl; [exact H|].
  assert (H1 : Forall bounded (snd (fst (physicsBall now b ps es)))).
  { unfold physicsBall, ballMotion.
    destruct (_ || _).
    - destruct (_ && _); [|exact H].
      unfold checkHits.
      match goal with
      | |- context [checkHitsLoop now ps ?b3 es] =>
          pose proof (@checkHitsLoop_bounded now ps b3 es H) as H';
          destruct (checkHitsLoop now ps b3 es) as [[ps' b4] es']
      end.
      exact H'.
    - destruct (_ && _); [|exact H].
      destruct (b_owner b) as [o|]; [|exact H].
      destruct (players_get o ps); exact H. }
  destruct (physicsBall now b ps es) as [[b' ps'] es'].
  specialize (IH ps' es' H1).
  destruct (physics now bs ps' es') as [[bs' ps''] es''].
  exact IH.
Qed.

Lemma respawnPlayers_bounded (ps : list (@ServerPlayer Exact)) :
  forall rc, Forall bounded (fst (respawnPlayers ps rc)).
Proof.
  induction ps as [|p ps IH]; intro rc; simpl; [constructor|].
  specialize (IH (S rc)).
  destruct (respawnPlayers ps (S rc)) as [ps' rc'].
  simpl in *. constructor; [|assumption].
  destruct (random_unit rc) as [R0 R1].
  split; [split; reflexivity|].
  exact (spawn_inArena (p_team p) R0 R1).
Qed.

Lemma tick_bounded (now : Z) (m : @Match Exact) :
  Forall bounded (players m) -> Forall bounded (players (tick now m)).
Proof.
  intros H. unfold tick.
  set (m1 := tickPhase now (set_tickCount (tickCount m + 1) m)).
  assert (H1 : Forall bounded (players m1)).
  { unfold m1, tickPhase. simpl.
    destruct (matchState m).
    - match goal with |- context [if ?c then _ else _] => destruct c end; [|exact H].
      unfold respawnAll. simpl.
      pose proof (respawnPlayers_bounded (players m) (env_randoms m)) as H'.
      destruct (respawnPlayers (players m) (env_randoms m)) as [ps rc].
      exact H'.
    - match goal with |- context [if ?c then _ else _] => destruct c end; [|exact H].
      unfold stop. simpl. destruct (tickInterval m); exact H.
    - exact H. }
  clearbody m1.
  pose proof (@processInputs_bounded now (players m1) (balls m1) (events m1) H1) as H2.
  destruct (processInputs now (players m1) (balls m1) (events m1)) as [[ps bs] es].
  pose proof (@physics_bounded now bs ps es H2) as H3.
  destruct (physics now bs ps es) as [[bs' ps'] es'].
  simpl in H3. unfold storeHistory.
  destruct (Nat.ltb _ _); simpl; destruct (Z.eqb _ _); exact H3.
Qed.

Lemma new_Match_bounded (mid : string) (md : Mode) (sockets : list string) :
  Forall bounded (players (new_Match mid md sockets)).
Proof.
  unfold new_Match.
  assert (H : forall l i rc ps, Forall bounded ps ->
                                Forall bounded (fst (initPlayers l i rc ps))).
  { induction l as [|s l IH]; intros i rc ps Hps; simpl; [exact Hps|].
    apply IH. apply players_set_Forall; [|exact Hps].
    destruct (random_unit rc) as [R0 R1].
    split; [split; reflexivity|].
    exact (spawn_inArena (if Nat.even i then blue else red) R0 R1). }
  specialize (H sockets 0%nat 0%nat [] (Forall_nil _)).
  destruct (initPlayers sockets 0 0 []) as [ps rc]. exact H.
Qed.

(** With exact arithmetic, and a [Math.random()] that returns numbers
    between 0 and 1, the stamina of every player is within [0, 100] and its
    x and z coordinates are within [-30, 30] in every state that a match
    reaches. *)
Theorem bounds_hold_in_exact_arithmetic :
  forall m : @Match Exact, reachable m ->
    Forall (fun p => staminaBounded p /\ inArena p) (players m).
Proof.
  induction 1 as [mid md sockets | now m _ IH | m _ IH | k packet m _ IH
                  | now k m _ IH | now m _ IH].
  - apply new_Match_bounded.
  - exact IH.
  - unfold stop. destruct (tickInterval m); exact IH.
  - unfold onInput.
    destruct (players_get k (players m)) as [p|] eqn:E; [|exact IH].
    destruct (seq packet >? p_lastInputSeq p)%Z; [|exact IH].
    simpl. apply players_set_Forall; [|exact IH].
    apply players_get_In in E. destruct E as [Hin _].
    rewrite Forall_forall in IH. exact (IH p Hin).
  - unfold removePlayer. simpl.
    apply players_delete_Forall.
    destruct (players_get k (players m)) as [p|] eqn:E; simpl; [|exact IH].
    apply players_set_Forall; [|exact IH].
    apply players_get_In in E. destruct E as [Hin _].
    rewrite Forall_forall in IH. exact (IH p Hin).
  - apply tick_bounded. exact IH.
Qed.

End ExactBounds.

(** ** The interpolation window *)

Section WindowFacts.
Context {N : Num}.

Lemma findWindow_first (t : Z) (l : list WorldSnapshot) :
  forall (i : nat) (a b : WorldSnapshot),
    nth_error l i = Some a -> nth_error l (S i) = Some b ->
    (ws_timestamp a <= t /\ t <= ws_timestamp b)%Z ->
    noEarlierWindow l i t ->
    findWindow l t = Some (a, b).
Proof.
  induction l as [|c l IH]; intros i a b Ha Hb Ht Hn.
  - destruct i; discriminate Ha.
  - destruct i as [|i].
    + simpl in Ha, Hb. injection Ha as ->.
      destruct l as [|d l]; [discriminate Hb|].
      simpl in Hb. injection Hb as ->.
      simpl.
      replace (ws_timestamp a <=? t)%Z with true
        by (symmetry; apply Z.leb_le; tauto).
      replace (ws_timestamp b >=? t)%Z with true
        by (symmetry; rewrite Z.geb_leb; apply Z.leb_le; tauto).
      reflexivity.
    + simpl in Ha, Hb.
      destruct l as [|d l]; [destruct i; discriminate Ha|].
      assert (Hc : ~ (ws_timestamp c <= t /\ t <= ws_timestamp d)%Z).
      { apply (Hn 0%nat c d); [lia | reflexivity | reflexivity]. }
      change (findWindow (c :: d :: l) t)
        with (if (ws_timestamp c <=? t)%Z && (ws_timestamp d >=? t)%Z
              then Some (c, d) else findWindow (d :: l) t).
      destruct ((ws_timestamp c <=? t)%Z && (ws_timestamp d >=? t)%Z) eqn:E.
      * exfalso. apply Hc. apply andb_prop in E. destruct E as [E1 E2].
        apply Z.leb_le in E1. rewrite Z.geb_leb in E2. apply Z.leb_le in E2.
        tauto.
      * apply (IH i a b Ha Hb Ht).
        intros j a' b' Hj Ha' Hb'.
        apply (Hn (S j) a' b'); [lia | exact Ha' | exact Hb'].
Qed.

Lemma inTimeOrder_nth (l : list WorldSnapshot) :
  inTimeOrder l ->
  forall (j i : nat) (a b : WorldSnapshot),
    (j <= i)%nat -> nth_error l j = Some a -> nth_error l i = Some b ->
    (ws_timestamp a <= ws_timestamp b)%Z.
Proof.
  unfold inTimeOrder. intros H.
  apply Sorted_StronglySorted in H; [|intros u v w; apply Z.le_trans].
  induction l as [|c l IH]; intros j i a b Hji Ha Hb.
  - destruct j; discriminate Ha.
  - simpl in H. inversion H as [|? ? Hs Hf]; subst.
    destruct j as [|j].
    + simpl in Ha. injection Ha as ->.
      destruct i as [|i].
      * simpl in Hb. injection Hb as ->. lia.
      * simpl in Hb. rewrite Forall_forall in Hf. apply Hf.
        apply in_map. eapply nth_error_In. eassumption.
    + destruct i as [|i]; [lia|].
      simpl in Ha, Hb. apply (IH Hs j i); [lia | assumption | assumption].
Qed.

Lemma inTimeOrder_noEarlierWindow (l : list WorldSnapshot) (i : nat)
    (a : WorldSnapshot) (t : Z) :
  inTimeOrder l -> nth_error l i = Some a -> (ws_timestamp a < t)%Z ->
  noEarlierWindow l i t.
Proof.
  intros Ho Ha Hlt j c d Hj Hc Hd [_ H2].
  assert (ws_timestamp d <= ws_timestamp a)%Z
    by (apply (inTimeOrder_nth Ho (j := S j) (i := i)); [lia | assumption | assumption]).
  lia.
Qed.

(** The pair that the query returns when a window is found. *)
Lemma getInterpolatedState_window (now : Z) (renderTime : num)
    (nm : NetworkManager) (i : nat) (a b : WorldSnapshot) :
  let t := (now + serverTimeOffset nm - 100)%Z in
  nth_error (snapshots nm) i = Some a -> nth_error (snapshots nm) (S i) = Some b ->
  (ws_timestamp a <= t /\ t <= ws_timestamp b)%Z ->
  noEarlierWindow (snapshots nm) i t ->
  getInterpolatedState now renderTime nm
  = Frame a b
      ((int t - int (ws_timestamp a))
       / (int (ws_timestamp b) - int (ws_timestamp a)))%num.
Proof.
  intros t Ha Hb Ht Hn.
  unfold getInterpolatedState. fold t.
  rewrite (findWindow_first Ha Hb Ht Hn).
  destruct (snapshots nm) as [|c [|d l]].
  - destruct i; discriminate Ha.
  - destruct i as [|[|i]]; discriminate Hb.
  - replace (ws_timestamp b <? t)%Z with false
      by (symmetry; apply Z.ltb_ge; tauto).
    reflexivity.
Qed.

(** X1.  When the buffer holds two snapshots or more and all of them are
    older than the render timestamp, the query returns the second snapshot
    of the buffer. *)
Lemma getInterpolatedState_lagging (now : Z) (renderTime : num)
    (nm : NetworkManager) (a b : WorldSnapshot) (l : list WorldSnapshot) :
  snapshots nm = a :: b :: l ->
  Forall (fun w => (ws_timestamp w < now + serverTimeOffset nm - 100)%Z) (snapshots nm) ->
  getInterpolatedState now renderTime nm = Latest b.
Proof.
  intros E H. unfold getInterpolatedState. rewrite E in *.
  set (t := (now + serverTimeOffset nm - 100)%Z) in *.
  assert (Hw : forall l', Forall (fun w => (ws_timestamp w < t)%Z) l' ->
                          findWindow l' t = None).
  { induction l' as [|c l' IH]; intros Hf; [reflexivity|].
    inversion Hf as [|? ? Hc Hl]; subst.
    destruct l' as [|d l']; [reflexivity|].
    inversion Hl as [|? ? Hd _]; subst.
    change (findWindow (c :: d :: l') t)
      with (if (ws_timestamp c <=? t)%Z && (ws_timestamp d >=? t)%Z
            then Some (c, d) else findWindow (d :: l') t).
    replace (ws_timestamp d >=? t)%Z with false
      by (symmetry; rewrite Z.geb_leb; apply Z.leb_gt; assumption).
    rewrite andb_false_r. apply IH. assumption. }
  rewrite (Hw _ H).
  inversion H as [|? ? _ H']; subst. inversion H' as [|? ? Hb _]; subst.
  replace (ws_timestamp b <? t)%Z with true by (symmetry; apply Z.ltb_lt; assumption).
  reflexivity.
Qed.

(** X2.  With fewer than two buffered snapshots the query returns [null]. *)
Lemma getInterpolatedState_short (now : Z) (renderTime : num) (nm : NetworkManager) :
  (List.length (snapshots nm) < 2)%nat ->
  getInterpolatedState now renderTime nm = Null.
Proof.
  unfold getInterpolatedState.
  destruct (snapshots nm) as [|a [|b l]]; simpl; intros H; try reflexivity; lia.
Qed.

End WindowFacts.

Lemma clamp01_inside (f : Q) :
  0 <= f -> f < 1 -> clamp01 (N := Exact) f = f.
Proof.
  intros H0 H1.
  change (clamp01 (N := Exact) f)
    with (if Qle_bool (inject_Z 1)
               (if Qle_bool (inject_Z 0) f then f else inject_Z 0)
          then inject_Z 1
          else if Qle_bool (inject_Z 0) f then f else inject_Z 0).
  assert (E0 : Qle_bool (inject_Z 0) f = true) by (apply Qle_bool_iff; exact H0).
  rewrite E0.
  destruct (Qle_bool (inject_Z 1) f) eqn:E1; [|reflexivity].
  apply Qle_bool_iff in E1. change (inject_Z 1) with 1 in E1. lra.
Qed.

(** C3, amended.  Take a buffer whose snapshots are in the order of their
    timestamps, two neighbours of it with timestamps [T1] and [T2], and a
    render timestamp strictly between the two.  The query returns these two
    as [prev] and [next], with the fraction [(t - T1) / (T2 - T1)], which
    lies between 0 and 1, so that clamping it to [0, 1] changes nothing.
    (Numbers are exact here.) *)
Theorem bracketing_neighbours_are_interpolated :
  forall (nm : @NetworkManager Exact) (now : Z) (renderTime : @num Exact) (i : nat)
         (s1 s2 : @WorldSnapshot Exact),
    inTimeOrder (snapshots nm) ->
    nth_error (snapshots nm) i = Some s1 ->
    nth_error (snapshots nm) (S i) = Some s2 ->
    (ws_timestamp s1 < now + serverTimeOffset nm - 100 < ws_timestamp s2)%Z ->
    exists f : @num Exact,
      getInterpolatedState now renderTime nm = Frame s1 s2 f
      /\ (f : Q) == inject_Z (now + serverTimeOffset nm - 100 - ws_timestamp s1)
              / inject_Z (ws_timestamp s2 - ws_timestamp s1)
      /\ clamp01 (N := Exact) f = f.
Proof.
  intros nm now renderTime i s1 s2 Ho H1 H2 Ht.
  set (t := (now + serverTimeOffset nm - 100)%Z) in *.
  exists ((int t - int (ws_timestamp s1))
          / (int (ws_timestamp s2) - int (ws_timestamp s1)))%num.
  split.
  { apply (getInterpolatedState_window now renderTime nm (i := i)); fold t.
    - exact H1.
    - exact H2.
    - lia.
    - apply (inTimeOrder_noEarlierWindow (a := s1) Ho H1). lia. }
  clearbody t. unfold int. simpl.
  assert (Ha : inject_Z (ws_timestamp s1) < inject_Z t)
    by (rewrite <- Zlt_Qlt; lia).
  assert (Hb : inject_Z t < inject_Z (ws_timestamp s2))
    by (rewrite <- Zlt_Qlt; lia).
  set (A := inject_Z (ws_timestamp s1)) in *.
  set (B := inject_Z (ws_timestamp s2)) in *.
  set (T := inject_Z t) in *.
  split.
  { unfold Zminus. rewrite !inject_Z_plus, !inject_Z_opp.
    fold A B T. unfold Qminus. reflexivity. }
  assert (H0 : 0 <= (T - A) / (B - A)).
  { apply Qle_shift_div_l; lra. }
  assert (H3 : (T - A) / (B - A) < 1).
  { apply Qlt_shift_div_r; lra. }
  apply clamp01_inside; assumption.
Qed.

(** ** The tick that ends the warmup *)

Section Activation.
Context {N : Num} {M : MathLib N}.







End Activation.

(** ** The match played in binary64 *)

Ltac reach :=
  repeat
    match goal with
    | |- reachable (ticks _ _ _) => apply reachable_ticks
    | |- reachable (feed _ _ _) => apply reachable_feed
    | |- reachable (onInput _ _ _) => apply reach_input
    | |- reachable (removePlayer _ _ _) => apply reach_remove
    | |- reachable (start _ _) => apply reach_start
    | |- reachable (stop _) => apply reach_stop
    | |- reachable (new_Match _ _ _) => apply reach_new
    end.

Lemma reachable_armed : reachable (M := Scenario.js) Scenario.armed.
Proof.
  unfold Scenario.armed, Scenario.queued, Scenario.active, Scenario.run,
    Scenario.m0.
  reach.
Qed.

(** X6.  A match of any players, in any binary64 runtime, is still in the
    warmup phase after 150 ticks: 150 subtractions of the binary64 number
    [1/30] from [5] leave a countdown above zero.  The phase is active after
    the 151st tick. *)
Theorem warmup_lasts_151_ticks :
  forall (L : MathLib F64) (mid : string) (md : Mode) (sockets : list string)
         (now : Z),
    matchState (@ticks F64 L now 150 (new_Match mid md sockets)) = warmup
    /\ (countdown (@ticks F64 L now 150 (new_Match mid md sockets)) >? int 0)%num = true
    /\ matchState (@ticks F64 L now 151 (new_Match mid md sockets)) = playing.
Proof.
  intros L mid md sockets now.
  destruct (@phase_after F64 L now 150 (new_Match mid md sockets) warmup
              0x1.1780000000000p-47%float 180%float) as [Hs [Hc _]].
  { rewrite phaseOf_new_Match. vm_compute. reflexivity. }
  destruct (@phase_after F64 L now 151 (new_Match mid md sockets) playing
              0%float 180%float) as [Hs' _].
  { rewrite phaseOf_new_Match. vm_compute. reflexivity. }
  rewrite Hs, Hc, Hs'. repeat split.
Qed.

(** C1, on the code.  After the warmup the red player disconnects; the blue
    player is alive when the clock runs out.  The tick that ends the match
    sets the phase to finished, clears the timer and sends a win event, but
    its winner is ["draw"], where the tie-break gives ["blue"]. *)
Theorem timeout_winner_is_draw :
  reachable (M := Scenario.js) Scenario.lastSecond
  /\ matchState Scenario.lastSecond = playing
  /\ env_timers Scenario.lastSecond = [0%nat]
  /\ tieBreakWinner (players Scenario.lastSecond) = "blue"%string
  /\ Scenario.over = tick (M := Scenario.js) 0 Scenario.lastSecond
  /\ matchState Scenario.over = finished
  /\ env_timers Scenario.over = []
  /\ Scenario.lastEvents Scenario.over = [Win "draw" 0].
Proof.
  split.
  { unfold Scenario.lastSecond, Scenario.alone, Scenario.active, Scenario.run,
      Scenario.m0. reach. }
  do 3 (split; [vm_compute; reflexivity|]).
  split; [unfold Scenario.over, Scenario.run, ticks; reflexivity|].
  do 2 (split; [vm_compute; reflexivity|]).
  vm_compute; reflexivity.
Qed.

(** C2, on the code.  With three buffered snapshots that are all older than
    the render time, the query returns the second one, not the newest. *)
Theorem lagging_client_gets_second_snapshot :
  Forall (fun w => (ws_timestamp w < 2100 - 100)%Z) (snapshots Scenario.lagging)
  /\ getInterpolatedState 2100 0%float Scenario.lagging
     = Latest (Scenario.snap 1066)
  /\ last (snapshots Scenario.lagging) (Scenario.snap 0) = Scenario.snap 1133
  /\ Scenario.snap 1066 <> Scenario.snap 1133.
Proof.
  split; [|split; [|split]].
  - repeat constructor.
  - reflexivity.
  - reflexivity.
  - intros H. apply (f_equal ws_timestamp) in H. discriminate H.
Qed.

(** C4, on the code.  One packet whose [move.x] is infinite makes the x
    coordinate of the player [NaN], which the clamp lets through: the
    position is not within the arena. *)
Theorem infinite_move_leaves_the_arena :
  reachable (M := Scenario.js) Scenario.poisoned
  /\ exists p, players_get "a" (players Scenario.poisoned) = Some p
       /\ PrimFloat.is_nan (x (p_pos p)) = true
       /\ ~ inArena p.
Proof.
  split.
  { unfold Scenario.poisoned, Scenario.active, Scenario.run, Scenario.m0. reach. }
  remember (players_get "a" (players Scenario.poisoned)) as o eqn:E.
  vm_compute in E. subst o.
  eexists. split; [reflexivity|]. split; [reflexivity|].
  unfold inArena. intros [_ [H _]]. vm_compute in H. discriminate H.
Qed.

(** C5, on the code.  Player ["a"] holds ball 2 and catches ball 3, which
    ["b"] threw: afterwards both balls are held with owner ["a"], and the
    player's reference is ball 3 only. *)
Theorem catch_while_holding_breaks_consistency :
  reachable (M := Scenario.js) Scenario.afterCatch
  /\ Scenario.holdingOf "a" Scenario.armed = Some (Some 2%Z)
  /\ Scenario.ball 3 Scenario.afterThrow = Some (thrown, Some "b"%string)
  /\ Scenario.holdingOf "a" Scenario.afterCatch = Some (Some 3%Z)
  /\ Scenario.ball 2 Scenario.afterCatch = Some (held, Some "a"%string)
  /\ Scenario.ball 3 Scenario.afterCatch = Some (held, Some "a"%string)
  /\ ~ holdingConsistent Scenario.afterCatch.
Proof.
  split.
  { unfold Scenario.afterCatch, Scenario.afterThrow, Scenario.run.
    reach. exact reachable_armed. }
  do 5 (split; [vm_compute; reflexivity|]).
  intros [_ H].
  pose (o := balls_get 2 (balls Scenario.afterCatch)).
  assert (E : balls_get 2 (balls Scenario.afterCatch) = o) by reflexivity.
  vm_compute in o. subst o.
  apply balls_get_In in E. destruct E as [Hin _].
  specialize (H _ "a"%string Hin eq_refl eq_refl).
  destruct H as [p [Hp Hh]].
  vm_compute in Hp. injection Hp as <-. discriminate Hh.
Qed.

(** C8, on the code.  A throw whose charge is 3 leaves the hand at speed
    [25 + 3 * 25 = 100]: the charge is used as it arrives. *)
Theorem overcharged_throw_is_not_clamped :
  reachable (M := Scenario.js) Scenario.overcharged
  /\ exists b, balls_get 2 (balls Scenario.overcharged) = Some b
       /\ b_state b = thrown
       /\ z (b_vel b) = 100%float
       /\ (int 50 <? v_length (M := Scenario.js) (b_vel b))%num = true.
Proof.
  split.
  { unfold Scenario.overcharged, Scenario.run.
    reach. exact reachable_armed. }
  remember (balls_get 2 (balls Scenario.overcharged)) as o eqn:E.
  vm_compute in E. subst o.
  eexists. split; [reflexivity|]. repeat split.
Qed.

(** C3, as stated.  (1) In the buffer with the timestamps 1000, 1066 and
    1133, the render timestamp 1100 lies strictly between the first and the
    last, but the query returns the last two snapshots.  (2) In a buffer
    whose second snapshot was stamped after the last two, the render
    timestamp 1100 lies strictly between the timestamps 1066 and 1133 of
    the neighbours at positions 2 and 3, but the query returns the first
    two snapshots, with the fraction 0.5. *)
Lemma some_bracketing_pairs_are_not_returned :
  (nth_error (snapshots Scenario.lagging) 0 = Some (Scenario.snap 1000)
   /\ nth_error (snapshots Scenario.lagging) 2 = Some (Scenario.snap 1133)
   /\ (1000 < 1200 + serverTimeOffset Scenario.lagging - 100 < 1133)%Z
   /\ forall f, getInterpolatedState 1200 0%float Scenario.lagging
                <> Frame (Scenario.snap 1000) (Scenario.snap 1133) f)
  /\ (nth_error (snapshots Scenario.shuffled) 2 = Some (Scenario.snap 1066)
      /\ nth_error (snapshots Scenario.shuffled) 3 = Some (Scenario.snap 1133)
      /\ (1066 < 1200 + serverTimeOffset Scenario.shuffled - 100 < 1133)%Z
      /\ getInterpolatedState 1200 0%float Scenario.shuffled
         = Frame (Scenario.snap 1000) (Scenario.snap 1200) 0.5%float
      /\ forall f, getInterpolatedState 1200 0%float Scenario.shuffled
                   <> Frame (Scenario.snap 1066) (Scenario.snap 1133) f).
Proof.
  split.
  - split; [reflexivity|]. split; [reflexivity|]. split; [simpl; lia|].
    intros f H. vm_compute in H. inversion H.
  - split; [reflexivity|]. split; [reflexivity|]. split; [simpl; lia|].
    assert (E : getInterpolatedState 1200 0%float Scenario.shuffled
                = Frame (Scenario.snap 1000) (Scenario.snap 1200) 0.5%float)
      by (vm_compute; reflexivity).
    split; [exact E|].
    intros f H. rewrite E in H. inversion H.
Qed.

Lemma bracketing_neighbours_witness :
  inTimeOrder (snapshots Scenario.ordered)
  /\ (1066 < 1200 + serverTimeOffset Scenario.ordered - 100 < 1133)%Z
  /\ exists f : @num Exact,
       getInterpolatedState 1200 (@int Exact 0) Scenario.ordered
       = Frame (Scenario.snapQ 1066) (Scenario.snapQ 1133) f
       /\ (f : Q) == inject_Z (1200 + 0 - 100 - 1066) / inject_Z (1133 - 1066)
       /\ clamp01 (N := Exact) f = f.
Proof.
  assert (Ho : inTimeOrder (snapshots Scenario.ordered)).
  { unfold inTimeOrder. simpl.
    repeat (constructor; try (apply Z.leb_le; reflexivity)). }
  assert (Ht : (1066 < 1200 + serverTimeOffset Scenario.ordered - 100 < 1133)%Z)
    by (simpl; lia).
  split; [exact Ho|]. split; [exact Ht|].
  exact (@bracketing_neighbours_are_interpolated Scenario.ordered 1200 (@int Exact 0)
           1%nat (Scenario.snapQ 1066) (Scenario.snapQ 1133)
           Ho eq_refl eq_refl Ht).
Defined.

(** C6, as stated.  Ball 3 leaves the hand of ["b"] in one tick and is in
    flight, with owner ["b"], at the end of that tick and of the next two. *)
Lemma thrown_ball_keeps_owner_across_ticks :
  reachable (M := Scenario.js) Scenario.afterThrow
  /\ Scenario.ball 3 Scenario.armed = Some (held, Some "b"%string)
  /\ Scenario.ball 3 Scenario.afterThrow = Some (thrown, Some "b"%string)
  /\ Scenario.ball 3 (Scenario.run 1 Scenario.afterThrow)
     = Some (thrown, Some "b"%string)
  /\ Scenario.ball 3 (Scenario.run 2 Scenario.afterThrow)
     = Some (thrown, Some "b"%string).
Proof.
  split.
  { unfold Scenario.afterThrow, Scenario.run. reach. exact reachable_armed. }
  do 3 (split; [vm_compute; reflexivity|]).
  vm_compute; reflexivity.
Qed.

Lemma held_and_thrown_balls_witness :
  reachable (M := Scenario.js) Scenario.armed
  /\ Forall (fun b => (b_state b = held -> b_owner b <> None)
                      /\ (b_state b = thrown -> b_owner b <> None))
       (balls Scenario.armed).
Proof.
  split; [exact reachable_armed|].
  exact (proj1 (@held_and_thrown_balls_have_an_owner F64 Scenario.js
                  Scenario.armed reachable_armed)).
Defined.

Lemma reachable_queued : reachable (M := Scenario.js) Scenario.queued.
Proof.
  unfold Scenario.queued, Scenario.active, Scenario.run, Scenario.m0. reach.
Qed.

Lemma input_intents_witness :
  reachable (M := Scenario.js) Scenario.queued
  /\ Forall bufferOrdered (players Scenario.queued)
  /\ map inputState (players (tick (M := Scenario.js) 0 Scenario.queued))
     = map inputStateDrained (players Scenario.queued).
Proof.
  split; [exact reachable_queued|].
  pose proof (@input_intents_consumed_once_in_order F64 Scenario.js
                Scenario.queued reachable_queued) as H.
  split; [exact (proj1 H)|].
  exact (proj1 (proj2 (proj2 (proj2 H))) 0%Z).
Defined.

(** C7, as stated, does not hold for two packets that carry the same
    sequence number and arrive between two ticks.  After the warmup ["a"]
    stands at z = -20, has an empty buffer and has applied no packet.  Both
    copies of packet 1 pass the test against the last number applied (0),
    so both are in the buffer; the tick consumes both, the second one when
    the last number applied is already 1, and ["a"] has walked two steps of
    [8 * (1/30)] instead of the one step of a single packet. *)
Lemma duplicate_sequence_number_is_consumed_twice :
  reachable (M := Scenario.js) Scenario.doubled
  /\ Scenario.pending "a" Scenario.active = Some ([], 0%Z)
  /\ Scenario.depth "a" Scenario.active = Some (-20)%float
  /\ Scenario.pending "a" Scenario.doubled = Some ([1%Z; 1%Z], 0%Z)
  /\ Scenario.pending "a" (Scenario.run 1 Scenario.doubled) = Some ([], 1%Z)
  /\ Scenario.pending "a" (Scenario.run 1 Scenario.single) = Some ([], 1%Z)
  /\ Scenario.depth "a" (Scenario.run 1 Scenario.single)
     = Some (-20 + 8 * (1 / 30))%float
  /\ Scenario.depth "a" (Scenario.run 1 Scenario.doubled)
     = Some (-20 + 8 * (1 / 30) + 8 * (1 / 30))%float.
Proof.
  split.
  { unfold Scenario.doubled, Scenario.active, Scenario.run, Scenario.m0.
    reach. }
  repeat split; vm_compute; reflexivity.
Qed.

(** ** Further facts, with the inputs they are checked on *)

(** With exact arithmetic the countdown is zero after 150 ticks: the phase
    is warmup after 149 ticks and active after 150. *)
Theorem warmup_lasts_150_ticks_in_exact_arithmetic :
  forall (L : MathLib Exact) (mid : string) (md : Mode) (sockets : list string)
         (now : Z),
    matchState (@ticks Exact L now 149 (new_Match mid md sockets)) = warmup
    /\ matchState (@ticks Exact L now 150 (new_Match mid md sockets)) = playing.
Proof.
  intros L mid md sockets now.
  rewrite !matchState_ticks, !phaseOf_new_Match.
  split; vm_compute; reflexivity.
Qed.

Lemma bounds_witness :
  (forall n, 0 <= (Math_random (MathLib := Scenario.flat) n : Q)
             /\ (Math_random (MathLib := Scenario.flat) n : Q) <= 1)
  /\ Forall (fun p => staminaBounded p /\ inArena p)
       (players (@ticks Exact Scenario.flat 0 3
                   (@new_Match Exact Scenario.flat "match" casual
                      ["a"%string; "b"%string]))).
Proof.
  assert (H : forall n, 0 <= (Math_random (MathLib := Scenario.flat) n : Q)
                        /\ (Math_random (MathLib := Scenario.flat) n : Q) <= 1).
  { intros n. simpl. split; apply Qle_bool_iff; reflexivity. }
  split; [exact H|].
  apply (@bounds_hold_in_exact_arithmetic Scenario.flat H).
  apply reachable_ticks. apply reach_new.
Defined.

Lemma lagging_witness :
  getInterpolatedState 2100 0%float Scenario.lagging = Latest (Scenario.snap 1066).
Proof.
  apply (@getInterpolatedState_lagging F64 2100 0%float Scenario.lagging
           (Scenario.snap 1000) (Scenario.snap 1066) [Scenario.snap 1133] eq_refl).
  simpl. repeat (constructor; try (apply Z.ltb_lt; reflexivity)).
Defined.

Lemma short_buffer_witness :
  getInterpolatedState 2100 0%float (Scenario.client [Scenario.snap 1000]) = Null.
Proof.
  apply (@getInterpolatedState_short F64 2100 0%float
           (Scenario.client [Scenario.snap 1000])).
  simpl. lia.
Defined.

Lemma throwBall_speed_witness :
  exists b',
    balls_get 0 (snd (throwBall (M := Scenario.js) Scenario.holder initBalls
                        (@mkThrow F64 true 3%float 0%float))) = Some b'
    /\ b_state b' = thrown
    /\ b_owner b' = Some "a"%string
    /\ y (b_vel b') = 17%float
    /\ z (b_vel b') = (-100)%float.
Proof.
  destruct (@throwBall_speed F64 Scenario.js Scenario.holder initBalls
              (@mkThrow F64 true 3%float 0%float) 0%Z (newBall 0)
              eq_refl eq_refl)
    as [b' [H1 [H2 [H3 H4]]]].
  exists b'. split; [exact H1|]. split; [exact H2|]. split; [exact H3|].
  rewrite H4. split; vm_compute; reflexivity.
Defined.

Lemma held_reference_witness :
  reachable (M := Scenario.js) Scenario.armed
  /\ holdsOwned Scenario.armed.
Proof.
  split; [exact reachable_armed|].
  exact (@held_reference_is_owned F64 Scenario.js Scenario.armed reachable_armed).
Defined.

Section Lifecycle.

Context {N : Num} {M : MathLib N}.

(** X4.  When a player is removed, no ball is owned by that player any more
    (a ball that was is idle, without owner and at rest), and the player is
    gone from the match. *)
Theorem removePlayer_releases_balls :
  forall (now : Z) (k : string) (m : Match),
    Forall (fun b => b_owner b <> Some k) (balls (removePlayer now k m))
    /\ Forall2 (fun b b' =>
                  b' = b
                  \/ (b_owner b = Some k /\ b_state b' = idle
                      /\ b_owner b' = None /\ b_vel b' = v_zero))
         (balls m) (balls (removePlayer now k m))
    /\ players_get k (players (removePlayer now k m)) = None.
Proof.
  intros now k m. unfold removePlayer.
  set (m1 := match players_get k (players m) with
             | Some p => _
             | None => m
             end).
  assert (Hb : balls m1 = balls m).
  { unfold m1. destruct (players_get k (players m)); reflexivity. }
  simpl. rewrite Hb. clearbody m1. clear Hb.
  split; [|split].
  - induction (balls m) as [|b bs IH]; simpl; constructor; [|exact IH].
    unfold dropBall. destruct (owner_is (b_owner b) k) eqn:E; simpl.
    + discriminate.
    + intros H. rewrite H in E. simpl in E. rewrite String.eqb_refl in E.
      discriminate E.
  - induction (balls m) as [|b bs IH]; simpl; constructor; [|exact IH].
    unfold dropBall. destruct (owner_is (b_owner b) k) eqn:E; [|left; reflexivity].
    right. simpl. repeat split.
    unfold owner_is in E. destruct (b_owner b) as [o|]; [|discriminate E].
    apply String.eqb_eq in E. congruence.
  - unfold players_delete.
    induction (players m1) as [|p ps IH]; simpl; [reflexivity|].
    destruct (String.eqb (p_id p) k) eqn:E; simpl; [exact IH|].
    rewrite E. exact IH.
Qed.

(** X5.  A tick never takes the phase back: it stays, or it moves one step
    along warmup, active, finished. *)
Theorem phase_is_one_directional :
  forall (now : Z) (m : Match),
    (phaseRank (matchState m) <= phaseRank (matchState (tick now m))
     <= S (phaseRank (matchState m)))%nat.
Proof.
  intros now m.
  assert (H : matchState (tick now m) = fst (fst (phaseStep (phaseOf m)))).
  { rewrite <- phaseOf_tick with (now := now). reflexivity. }
  rewrite H. unfold phaseStep, phaseOf.
  destruct (matchState m); simpl.
  - match goal with |- context [if ?c then _ else _] => destruct c end; simpl; lia.
  - match goal with |- context [if ?c then _ else _] => destruct c end; simpl; lia.
  - lia.
Qed.

End Lifecycle.



(** ** Hits, the history, the clock, the constructor *)

Section MatchFacts.

Context {N : Num} {M : MathLib N}.

(** *** [checkHits] *)

Lemma checkHitsLoop_miss (now : Z) (p : ServerPlayer) (ps : list ServerPlayer)
    (b : ServerBall) (es : list GameEvent) :
  hitBy b p = false ->
  checkHitsLoop now (p :: ps) b es
  = (p :: fst (fst (checkHitsLoop now ps b es)),
     snd (fst (checkHitsLoop now ps b es)),
     snd (checkHitsLoop now ps b es)).
Proof.
  unfold hitBy. intros H. simpl.
  destruct (checkHitsLoop now ps b es) as [[ps' b'] es'].
  destruct (owner_is (b_owner b) (p_id p)); simpl in *; [reflexivity|].
  destruct (PlayerState_eqb (p_state p) alive); simpl in *; [|reflexivity].
  rewrite H. reflexivity.
Qed.

Lemma checkHitsLoop_hit (now : Z) (p : ServerPlayer) (ps : list ServerPlayer)
    (b : ServerBall) (es : list GameEvent) :
  hitBy b p = true ->
  let v := multiplyScalar (b_vel b) (lit 2 10) in
  let b1 :=
    mkBall (b_id b) (b_pos b) (mkV (x v) (int 5) (z v)) idle (b_owner b)
      (b_type b) (b_curveFactor b) (b_lastInteraction b) in
  let r := checkHitsLoop now ps b1 (es ++ [Elimination (p_id p) (b_owner b) now]) in
  checkHitsLoop now (p :: ps) b es
  = (set_p_state out p :: fst (fst r), snd (fst r), snd r).
Proof.
  unfold hitBy. intros H.
  apply andb_true_iff in H. destruct H as [H H3].
  apply andb_true_iff in H. destruct H as [H1 H2].
  apply negb_true_iff in H1. simpl.
  rewrite H1, H2, H3. simpl.
  destruct (checkHitsLoop now ps _ _) as [[ps' b'] es']. reflexivity.
Qed.

Lemma checkHitsLoop_all (now : Z) (ps : list ServerPlayer) :
  forall (b : ServerBall) (es : list GameEvent),
    let r := checkHitsLoop now ps b es in
    fst (fst r) = map (fun p => if hitBy b p then set_p_state out p else p) ps
    /\ snd r = es ++ map (fun p => Elimination (p_id p) (b_owner b) now)
                       (filter (hitBy b) ps)
    /\ b_owner (snd (fst r)) = b_owner b
    /\ b_pos (snd (fst r)) = b_pos b
    /\ (existsb (hitBy b) ps = false -> snd (fst r) = b)
    /\ (existsb (hitBy b) ps = true ->
        b_state (snd (fst r)) = idle /\ y (b_vel (snd (fst r))) = int 5).
Proof.
  induction ps as [|p ps IH]; intros b es.
  - simpl. rewrite app_nil_r. do 5 (split; [reflexivity|]). discriminate.
  - cbv zeta. destruct (hitBy b p) eqn:Eh.
    + rewrite (@checkHitsLoop_hit now p ps b es Eh). cbv zeta.
      set (b1 := mkBall _ _ _ idle _ _ _ _).
      destruct (IH b1 (es ++ [Elimination (p_id p) (b_owner b) now]))
        as [A [B [C [D [E F]]]]].
      simpl fst. simpl snd. simpl map. simpl filter. simpl existsb.
      rewrite Eh, A, B.
      split.
      { reflexivity. }
      split.
      { rewrite <- app_assoc. reflexivity. }
      split; [exact C|]. split; [exact D|].
      split; [discriminate|]. intros _.
      destruct (existsb (hitBy b1) ps) eqn:Ex.
      * apply F. reflexivity.
      * rewrite (E eq_refl). split; reflexivity.
    + rewrite (@checkHitsLoop_miss now p ps b es Eh).
      destruct (IH b es) as [A [B [C [D [E F]]]]].
      simpl fst. simpl snd. simpl map. simpl filter. simpl existsb.
      rewrite Eh, A. simpl orb.
      split; [reflexivity|]. split; [exact B|].
      split; [exact C|]. split; [exact D|]. split; [exact E | exact F].
Qed.

(** *** [removePlayer] twice *)

Lemma players_get_delete (k : string) (ps : list ServerPlayer) :
  players_get k (players_delete k ps) = None.
Proof.
  unfold players_delete. induction ps as [|p ps IH]; simpl; [reflexivity|].
  destruct (String.eqb (p_id p) k) eqn:E; simpl; [exact IH|].
  rewrite E. exact IH.
Qed.

Lemma players_delete_twice (k : string) (ps : list ServerPlayer) :
  players_delete k (players_delete k ps) = players_delete k ps.
Proof.
  unfold players_delete. induction ps as [|p ps IH]; simpl; [reflexivity|].
  destruct (String.eqb (p_id p) k) eqn:E; simpl; [exact IH|].
  rewrite E. simpl. rewrite IH. reflexivity.
Qed.

Lemma dropBall_twice (k : string) (b : ServerBall) :
  dropBall k (dropBall k b) = dropBall k b.
Proof.
  unfold dropBall. destruct (owner_is (b_owner b) k) eqn:E; simpl; [reflexivity|].
  rewrite E. reflexivity.
Qed.

(** X12.  Removing a player a second time changes nothing: no event, no
    ball, no player. *)
Theorem removePlayer_twice_is_once (now now' : Z) (k : string) (m : Match) :
  removePlayer now' k (removePlayer now k m) = removePlayer now k m.
Proof.
  assert (H1 : players_get k (players (removePlayer now k m)) = None).
  { unfold removePlayer. simpl. apply players_get_delete. }
  assert (H2 : map (dropBall k) (balls (removePlayer now k m))
               = balls (removePlayer now k m)).
  { unfold removePlayer. simpl. rewrite map_map.
    apply map_ext. intro b. apply dropBall_twice. }
  assert (H3 : players_delete k (players (removePlayer now k m))
               = players (removePlayer now k m)).
  { unfold removePlayer. simpl. apply players_delete_twice. }
  remember (removePlayer now k m) as m' eqn:Em. clear Em.
  unfold removePlayer. rewrite H1.
  unfold set_players, set_balls. simpl. rewrite H2, H3.
  destruct m'. reflexivity.
Qed.

(** *** The history *)

Lemma ticksFrom_In (n : nat) :
  forall a i, In i (ticksFrom a n) <-> (a <= i < a + Z.of_nat n)%Z.
Proof.
  induction n as [|n IH]; intros a i; simpl.
  - split; [tauto | lia].
  - rewrite IH. lia.
Qed.

Lemma ticksFrom_snoc (n : nat) :
  forall a, ticksFrom a n ++ [(a + Z.of_nat n)%Z] = ticksFrom a (S n).
Proof.
  induction n as [|n IH]; intros a.
  - simpl. f_equal. lia.
  - change (a :: (ticksFrom (a + 1) n ++ [(a + Z.of_nat (S n))%Z])
            = a :: ticksFrom (a + 1) (S n)).
    f_equal. rewrite <- IH. do 2 f_equal. lia.
Qed.

Lemma ticksFrom_length (n : nat) : forall a, List.length (ticksFrom a n) = n.
Proof. induction n as [|n IH]; intros a; simpl; [reflexivity | now rewrite IH]. Qed.

Lemma history_set_new (k : Z) (v : list (string * Vector3))
    (h : list (Z * list (string * Vector3))) :
  ~ In k (map fst h) -> history_set k v h = h ++ [(k, v)].
Proof.
  induction h as [|e h IH]; simpl; intros H; [reflexivity|].
  destruct (Z.eqb (fst e) k) eqn:E.
  - apply Z.eqb_eq in E. tauto.
  - rewrite IH; [reflexivity | tauto].
Qed.

Lemma history_delete_keys (k : Z) (h : list (Z * list (string * Vector3))) :
  map fst (history_delete k h) = filter (fun i => negb (Z.eqb i k)) (map fst h).
Proof.
  unfold history_delete. induction h as [|e h IH]; simpl; [reflexivity|].
  destruct (Z.eqb (fst e) k); simpl; rewrite IH; reflexivity.
Qed.

Lemma ticksFrom_drop (n : nat) (a : Z) :
  filter (fun i => negb (Z.eqb i a)) (ticksFrom a (S n)) = ticksFrom (a + 1) n.
Proof.
  simpl. rewrite Z.eqb_refl. simpl.
  assert (H : forall i, In i (ticksFrom (a + 1) n) -> negb (Z.eqb i a) = true).
  { intros i Hi. apply ticksFrom_In in Hi.
    apply negb_true_iff. apply Z.eqb_neq. lia. }
  induction (ticksFrom (a + 1) n) as [|i l IH]; simpl; [reflexivity|].
  rewrite (H i (or_introl eq_refl)). f_equal. apply IH.
  intros j Hj. apply H. right. exact Hj.
Qed.

Lemma tickPhase_clock (now : Z) (m : Match) :
  tickCount (tickPhase now m) = tickCount m
  /\ history (tickPhase now m) = history m.
Proof.
  unfold tickPhase. destruct (matchState m).
  - destruct (nleb _ _); [|split; reflexivity].
    unfold respawnAll. simpl.
    destruct (respawnPlayers _ _). split; reflexivity.
  - destruct (nleb _ _); [|split; reflexivity].
    unfold stop. simpl. destruct (tickInterval m); split; reflexivity.
  - split; reflexivity.
Qed.

Lemma tick_clock (now : Z) (m : Match) :
  tickCount (tick now m) = (tickCount m + 1)%Z
  /\ exists snapshot,
       history (tick now m)
       = let h := history_set (tickCount m + 1) snapshot (history m) in
         if Nat.ltb HISTORY_SIZE (List.length h)
         then history_delete (tickCount m + 1 - Z.of_nat HISTORY_SIZE) h
         else h.
Proof.
  unfold tick.
  destruct (tickPhase_clock now (set_tickCount (tickCount m + 1) m)) as [A B].
  simpl in A, B.
  set (m1 := tickPhase now (set_tickCount (tickCount m + 1) m)) in *.
  clearbody m1.
  destruct (processInputs now (players m1) (balls m1) (events m1)) as [[ps bs] es].
  destruct (physics now bs ps es) as [[bs' ps'] es'].
  unfold storeHistory. simpl. rewrite A, B.
  split.
  - destruct (Nat.ltb _ _); simpl; destruct (Z.eqb _ 0); simpl; exact A.
  - exists (map (fun p => (p_id p, p_pos p)) ps').
    destruct (Nat.ltb _ _); simpl; destruct (Z.eqb _ 0); reflexivity.
Qed.

Lemma tick_historyKept (now : Z) (m : Match) :
  historyKept m -> historyKept (tick now m).
Proof.
  unfold historyKept. intros [H0 H].
  destruct (tick_clock now m) as [A [v B]]. rewrite A, B. clear A B.
  split; [lia|]. cbv zeta.
  set (t := tickCount m) in *. clearbody t.
  unfold storedTicks in *.
  set (n := Nat.min (Z.to_nat t) HISTORY_SIZE) in *.
  assert (Hn : (n <= HISTORY_SIZE)%nat) by (unfold n; lia).
  assert (Hnt : (Z.of_nat n <= t)%Z) by (unfold n; lia).
  rewrite history_set_new.
  2:{ rewrite H. rewrite ticksFrom_In. lia. }
  rewrite length_app, <- (length_map fst), H, ticksFrom_length. simpl List.length.
  assert (Hk : map fst (history m ++ [((t + 1)%Z, v)]) = ticksFrom (t - Z.of_nat n + 1) (S n)).
  { rewrite map_app, H. simpl map. rewrite <- ticksFrom_snoc. do 2 f_equal. lia. }
  unfold HISTORY_SIZE in *.
  destruct (Nat.ltb 30 (n + 1)) eqn:E.
  - apply Nat.ltb_lt in E. assert (n = 30%nat) by lia.
    rewrite history_delete_keys, Hk.
    replace (t + 1 - Z.of_nat 30)%Z with (t - Z.of_nat n + 1)%Z by lia.
    rewrite ticksFrom_drop.
    replace (Nat.min (Z.to_nat (t + 1)) 30) with 30%nat by lia.
    f_equal; lia.
  - apply Nat.ltb_ge in E.
    rewrite Hk.
    replace (Nat.min (Z.to_nat (t + 1)) 30) with (S n) by (unfold n; lia).
    f_equal. lia.
Qed.

Lemma reachable_historyKept (m : Match) : reachable m -> historyKept m.
Proof.
  induction 1 as [mid md sockets | now m H IH | m H IH | k packet m H IH
                 | now k m H IH | now m H IH].
  - unfold historyKept, new_Match.
    destruct (initPlayers sockets 0 0 []) as [ps rc]. simpl.
    split; [lia | reflexivity].
  - exact IH.
  - unfold historyKept, stop. destruct (tickInterval m); exact IH.
  - unfold historyKept, onInput.
    destruct (players_get k (players m)) as [p|]; [|exact IH].
    destruct (seq packet >? p_lastInputSeq p)%Z; exact IH.
  - unfold historyKept, removePlayer.
    destruct (players_get k (players m)); exact IH.
  - apply tick_historyKept. exact IH.
Qed.

(** *** The clock of a finished match *)

Lemma phaseStep_clockOut (s : MatchState * num * num) :
  clockOut s -> clockOut (phaseStep s).
Proof.
  destruct s as [[st c] t]. unfold clockOut, phaseStep. simpl. intros H.
  destruct st.
  - match goal with |- context [if ?c then _ else _] => destruct c end;
      simpl; discriminate.
  - match goal with |- context [if ?c then _ else _] => destruct c eqn:E end;
      simpl; [intros _; exact E | discriminate].
  - exact H.
Qed.

Lemma reachable_clockOut (m : Match) : reachable m -> clockOut (phaseOf m).
Proof.
  induction 1 as [mid md sockets | now m H IH | m H IH | k packet m H IH
                 | now k m H IH | now m H IH].
  - rewrite phaseOf_new_Match. unfold clockOut. simpl. discriminate.
  - exact IH.
  - rewrite phaseOf_stop. exact IH.
  - unfold onInput.
    destruct (players_get k (players m)) as [p|]; [|exact IH].
    destruct (seq packet >? p_lastInputSeq p)%Z; exact IH.
  - unfold removePlayer. destruct (players_get k (players m)); exact IH.
  - rewrite phaseOf_tick. apply phaseStep_clockOut. exact IH.
Qed.

(** X11.  In every state that a match reaches, a match in the phase finished
    answers [true] to [isFinished]: its clock is at zero or below. *)
Theorem finished_phase_is_finished (m : Match) :
  reachable m -> matchState m = finished -> isFinished m = true.
Proof.
  intros H Hs. pose proof (reachable_clockOut H Hs) as Hc.
  unfold isFinished. simpl in Hc. rewrite Hc. reflexivity.
Qed.

(** *** Sequence numbers *)

Lemma last_ge (l : list Z) : forall d,
  Forall (fun i => (d < i)%Z) l -> (d <= last l d)%Z.
Proof.
  induction l as [|a l IH]; intros d H; [simpl; lia|].
  rewrite last_cons_default.
  inversion H as [|? ? Ha Hl]; subst.
  destruct l as [|b l]; [simpl; lia|].
  rewrite last_cons_default.
  assert (X : (d <= last l b)%Z).
  { clear IH H. revert b Hl. induction l as [|c l IHl]; intros b Hl.
    - simpl. inversion Hl; subst. lia.
    - rewrite last_cons_default. apply IHl. inversion Hl; subst. assumption. }
  exact X.
Qed.

Lemma drained_started (ps ps' : list ServerPlayer) :
  map inputState ps' = map inputStateDrained ps ->
  Forall bufferOrdered ps -> Forall seqStarted ps -> Forall seqStarted ps'.
Proof.
  revert ps'. induction ps as [|p ps IH]; intros [|q ps'] H Hb Hs;
    try discriminate H; [constructor|].
  simpl in H. injection H as H1 H2 H3 H4.
  inversion Hb as [|? ? Hbp Hbs]; subst. inversion Hs as [|? ? Hsp Hss]; subst.
  constructor; [|apply IH; assumption].
  unfold seqStarted in *. rewrite H2.
  destruct Hbp as [_ Hbp].
  pose proof (@last_ge (map seq (p_inputBuffer p)) (p_lastInputSeq p)) as X.
  rewrite Forall_map in X. specialize (X Hbp). lia.
Qed.

Lemma reachable_started (m : Match) : reachable m -> Forall seqStarted (players m).
Proof.
  induction 1 as [mid md sockets | now m H IH | m H IH | k packet m H IH
                 | now k m H IH | now m H IH].
  - unfold new_Match.
    assert (X : forall l i rc ps, Forall seqStarted ps ->
                Forall seqStarted (fst (initPlayers l i rc ps))).
    { induction l as [|s l IHl]; intros i rc ps Hps; simpl; [exact Hps|].
      apply IHl. apply players_set_Forall; [|exact Hps].
      unfold seqStarted. simpl. lia. }
    specialize (X sockets 0%nat 0%nat [] (Forall_nil _)).
    destruct (initPlayers sockets 0 0 []) as [ps rc]. exact X.
  - exact IH.
  - unfold stop. destruct (tickInterval m); exact IH.
  - unfold onInput.
    destruct (players_get k (players m)) as [p|] eqn:E; [|exact IH].
    destruct (seq packet >? p_lastInputSeq p)%Z; [|exact IH].
    simpl. apply players_set_Forall; [|exact IH].
    apply players_get_In in E. destruct E as [E _].
    rewrite Forall_forall in IH. exact (IH p E).
  - unfold removePlayer.
    destruct (players_get k (players m)) as [p|] eqn:E; simpl.
    + apply players_delete_Forall. apply players_set_Forall; [|exact IH].
      apply players_get_In in E. destruct E as [E _].
      rewrite Forall_forall in IH. exact (IH p E).
    + apply players_delete_Forall. exact IH.
  - destruct (tick_spec now m) as [A _].
    destruct (reachable_Inv H) as [_ [B _]].
    exact (drained_started _ A B IH).
Qed.

(** *** The constructor *)

Lemma players_set_new (q : ServerPlayer) (ps : list ServerPlayer) :
  ~ In (p_id q) (map p_id ps) -> players_set q ps = ps ++ [q].
Proof.
  induction ps as [|p ps IH]; simpl; intros H; [reflexivity|].
  destruct (String.eqb (p_id p) (p_id q)) eqn:E.
  - apply String.eqb_eq in E. tauto.
  - rewrite IH; [reflexivity | tauto].
Qed.

Lemma initPlayers_seats (l : list string) :
  forall i ps,
    NoDup (map p_id ps ++ l) ->
    initPlayers l i i ps
    = (ps ++ map seat (combine (List.seq i (List.length l)) l), (i + List.length l)%nat).
Proof.
  induction l as [|s l IH]; intros i ps H; simpl.
  - rewrite app_nil_r, Nat.add_0_r. reflexivity.
  - rewrite players_set_new.
    2:{ simpl. apply NoDup_remove_2 in H. intros X. apply H.
        apply in_or_app. left. exact X. }
    rewrite IH.
    + rewrite <- app_assoc. simpl. f_equal. lia.
    + rewrite map_app. simpl. rewrite <- app_assoc. simpl.
      apply NoDup_remove_1 in H as H'.
      apply NoDup_remove_2 in H.
      clear IH. revert H H'.
      generalize (map p_id ps). intros ks.
      induction ks as [|k ks IHk]; simpl; intros H H'.
      * constructor; assumption.
      * inversion H' as [|? ? Hn Hd]; subst. constructor.
        -- intros X. apply in_app_or in X. simpl in X.
           destruct X as [X | [X | X]].
           ++ apply Hn. apply in_or_app. left. exact X.
           ++ apply H. left. symmetry. exact X.
           ++ apply Hn. apply in_or_app. right. exact X.
        -- apply IHk; [|exact Hd]. intros X. apply H. right. exact X.
Qed.

Lemma new_Match_seats (mid : string) (md : Mode) (sockets : list string) :
  NoDup sockets ->
  players (new_Match mid md sockets)
  = map seat (combine (List.seq 0 (List.length sockets)) sockets).
Proof.
  intros H. unfold new_Match.
  rewrite (@initPlayers_seats sockets 0 [] H). reflexivity.
Qed.

Lemma seats_balanced (l : list string) :
  forall i,
    let ps := map seat (combine (List.seq i (List.length l)) l) in
    if Nat.even i
    then (survivors red ps <= survivors blue ps <= S (survivors red ps))%nat
    else (survivors blue ps <= survivors red ps <= S (survivors blue ps))%nat.
Proof.
  induction l as [|s l IH]; intros i.
  - simpl. destruct (Nat.even i); unfold survivors; simpl; lia.
  - specialize (IH (S i)). cbv zeta in *.
    simpl List.length. simpl List.seq. simpl combine. simpl map.
    set (ps := map seat (combine (List.seq (S i) (List.length l)) l)) in *.
    clearbody ps.
    rewrite Nat.even_succ, <- Nat.negb_even in IH.
    unfold survivors in *. simpl filter.
    unfold seat at 1 2. unfold newPlayer. simpl p_team. simpl p_state.
    destruct (Nat.even i); simpl in *; lia.
Qed.

(** X8.  [checkHits] puts out every player who is alive, is not the owner
    of the ball and is less than 1 away from it (all of them, not only the
    first), and emits one elimination event for each, in the order of the
    [Map], naming the ball's owner.  The ball keeps its owner and its
    position; it is left as it is when nobody is hit, and is idle with the
    vertical velocity 5 otherwise. *)
Theorem checkHits_puts_out_everyone_in_reach :
  forall (now : Z) (b : ServerBall) (ps : list ServerPlayer) (es : list GameEvent),
    fst (fst (checkHits now b ps es))
    = map (fun p => if hitBy b p then set_p_state out p else p) ps
    /\ snd (checkHits now b ps es)
       = es ++ map (fun p => Elimination (p_id p) (b_owner b) now)
                 (filter (hitBy b) ps)
    /\ b_owner (snd (fst (checkHits now b ps es))) = b_owner b
    /\ b_pos (snd (fst (checkHits now b ps es))) = b_pos b
    /\ (existsb (hitBy b) ps = false -> snd (fst (checkHits now b ps es)) = b)
    /\ (existsb (hitBy b) ps = true ->
        b_state (snd (fst (checkHits now b ps es))) = idle
        /\ y (b_vel (snd (fst (checkHits now b ps es)))) = int 5).
Proof.
  intros now b ps es. unfold checkHits.
  exact (checkHitsLoop_all now ps b es).
Qed.

(** X9.  In every state that a match reaches, the history holds exactly the
    last 30 ticks (all of them while fewer have run), oldest first: it never
    has more than [HISTORY_SIZE] entries. *)
Theorem history_holds_the_last_30_ticks :
  forall m : Match, reachable m ->
    map fst (history m) = storedTicks (tickCount m)
    /\ (List.length (history m) <= HISTORY_SIZE)%nat.
Proof.
  intros m H. destruct (reachable_historyKept H) as [H0 H1].
  split; [exact H1|].
  rewrite <- (length_map fst), H1. unfold storedTicks.
  rewrite ticksFrom_length. lia.
Qed.

(** X14.  For sockets with distinct identifiers the constructor makes one
    player per socket, in the order of the sockets, the one at position [i]
    with the team blue for even [i] and red for odd [i]; so blue has as many
    players as red, or one more. *)
Theorem constructor_seats_the_sockets_in_turn :
  forall (mid : string) (md : Mode) (sockets : list string),
    NoDup sockets ->
    players (new_Match mid md sockets)
    = map seat (combine (List.seq 0 (List.length sockets)) sockets)
    /\ (survivors red (players (new_Match mid md sockets))
        <= survivors blue (players (new_Match mid md sockets))
        <= S (survivors red (players (new_Match mid md sockets))))%nat.
Proof.
  intros mid md sockets H.
  rewrite (@new_Match_seats mid md sockets H). split; [reflexivity|].
  exact (seats_balanced sockets 0).
Qed.

End MatchFacts.

(** ** Catches and events *)

Section CatchFacts.

Context {N : Num} {M : MathLib N}.
Local Open Scope num_scope.

Lemma tryCatchBall_none (now : Z) (b : ServerBall) (p : ServerPlayer)
    (es : list GameEvent) :
  canCatch p b || canPickUp p b = false ->
  tryCatchBall now b p false es = (b, p, false, es).
Proof.
  unfold canCatch, canPickUp, tryCatchBall. intros H.
  apply orb_false_iff in H. destruct H as [H1 H2].
  destruct (b_state b); simpl in *.
  - destruct (p_holding p); simpl in *; [reflexivity|].
    rewrite H2. reflexivity.
  - reflexivity.
  - destruct (owner_is (b_owner b) (p_id p)); simpl in *; [reflexivity|].
    destruct (nltb (distanceTo (p_pos p) (b_pos b)) (int 3)); simpl in *;
      [|reflexivity].
    rewrite H1. reflexivity.
Qed.

Lemma tryCatchBall_some (now : Z) (b : ServerBall) (p : ServerPlayer)
    (es : list GameEvent) :
  canCatch p b || canPickUp p b = true ->
  tryCatchBall now b p false es
  = (inHand p b, set_p_holding (Some (b_id b)) p, true,
     es ++ (if BallState_eqb (b_state b) thrown
            then [Catch (p_id p) (b_id b) now] else [])).
Proof.
  unfold canCatch, canPickUp, tryCatchBall, inHand. intros H.
  destruct (b_state b); simpl in *.
  - destruct (p_holding p); simpl in *; [discriminate H|].
    rewrite H, app_nil_r. reflexivity.
  - discriminate H.
  - rewrite orb_false_r in H.
    apply andb_true_iff in H. destruct H as [H H3].
    apply andb_true_iff in H. destruct H as [H1 H2].
    rewrite H1, H2, H3. reflexivity.
Qed.

Lemma tryCatchLoop_done (now : Z) (bs : list ServerBall) (p : ServerPlayer)
    (es : list GameEvent) :
  tryCatchLoop now bs p true es = (bs, p, true, es).
Proof.
  induction bs as [|b bs IH]; simpl; [reflexivity|].
  rewrite IH. reflexivity.
Qed.

Lemma tryCatch_none (now : Z) (p : ServerPlayer) (bs : list ServerBall)
    (es : list GameEvent) :
  Forall (fun b => canCatch p b || canPickUp p b = false) bs ->
  tryCatch now p bs es = (p, bs, es).
Proof.
  unfold tryCatch. intros H.
  assert (X : tryCatchLoop now bs p false es = (bs, p, false, es)).
  { induction H as [|b bs Hb Hbs IH]; [reflexivity|].
    cbn [tryCatchLoop].
    rewrite (tryCatchBall_none now b p es Hb), IH. reflexivity. }
  rewrite X. reflexivity.
Qed.

Lemma tryCatch_first (now : Z) (p : ServerPlayer) (l1 l2 : list ServerBall)
    (b : ServerBall) (es : list GameEvent) :
  Forall (fun c => canCatch p c || canPickUp p c = false) l1 ->
  canCatch p b || canPickUp p b = true ->
  tryCatch now p (l1 ++ b :: l2) es
  = (set_p_holding (Some (b_id b)) p,
     l1 ++ inHand p b :: l2,
     es ++ (if BallState_eqb (b_state b) thrown
            then [Catch (p_id p) (b_id b) now] else [])).
Proof.
  unfold tryCatch. intros H Hb.
  assert (X : tryCatchLoop now (l1 ++ b :: l2) p false es
              = (l1 ++ inHand p b :: l2, set_p_holding (Some (b_id b)) p, true,
                 es ++ (if BallState_eqb (b_state b) thrown
                        then [Catch (p_id p) (b_id b) now] else []))).
  { induction H as [|c l1 Hc Hl IH]; cbn [tryCatchLoop app].
    - rewrite (tryCatchBall_some now b p es Hb), tryCatchLoop_done. reflexivity.
    - rewrite (tryCatchBall_none now c p es Hc), IH. reflexivity. }
  rewrite X. reflexivity.
Qed.

(** *** Events *)

Lemma appended_refl (es : list GameEvent) : appended es es.
Proof. exists []. rewrite app_nil_r. split; [reflexivity | constructor]. Qed.

Lemma appended_trans (a b c : list GameEvent) :
  appended a b -> appended b c -> appended a c.
Proof.
  intros [d [-> Hd]] [e [-> He]]. exists (d ++ e).
  rewrite app_assoc. split; [reflexivity | apply Forall_app; split; assumption].
Qed.

Lemma tryCatchBall_events (now : Z) (b : ServerBall) (p : ServerPlayer) (c : bool)
    (es : list GameEvent) :
  appended es (snd (tryCatchBall now b p c es)).
Proof.
  unfold tryCatchBall.
  repeat match goal with
         | |- context [if ?c then _ else _] => destruct c
         end; simpl; try apply appended_refl.
  eexists. split; [reflexivity|]. repeat constructor.
Qed.

Lemma tryCatchLoop_events (now : Z) (bs : list ServerBall) :
  forall (p : ServerPlayer) (c : bool) (es : list GameEvent),
    appended es (snd (tryCatchLoop now bs p c es)).
Proof.
  induction bs as [|b bs IH]; intros p c es; simpl; [apply appended_refl|].
  pose proof (tryCatchBall_events now b p c es) as H.
  destruct (tryCatchBall now b p c es) as [[[b' p'] c'] es'].
  specialize (IH p' c' es').
  destruct (tryCatchLoop now bs p' c' es') as [[[bs' p''] c''] es''].
  simpl in *. eapply appended_trans; eassumption.
Qed.

Lemma tryCatch_events (now : Z) (p : ServerPlayer) (bs : list ServerBall)
    (es : list GameEvent) :
  appended es (snd (tryCatch now p bs es)).
Proof.
  unfold tryCatch.
  pose proof (tryCatchLoop_events now bs p false es) as H.
  destruct (tryCatchLoop now bs p false es) as [[[bs' p'] c'] es'].
  exact H.
Qed.

Lemma applyInput_events (now : Z) (i : InputPacket) (p : ServerPlayer)
    (bs : list ServerBall) (es : list GameEvent) :
  appended es (snd (applyInput now i p bs es)).
Proof.
  unfold applyInput.
  destruct (negb _); [apply appended_refl|].
  match goal with
  | |- context [if ?c then throwBall ?q ?l ?t else _] =>
      destruct (if c then throwBall q l t else (q, l)) as [p1 bs1]
  end.
  destruct (catch i).
  - pose proof (tryCatch_events now p1 bs1 es) as H.
    destruct (tryCatch now p1 bs1 es) as [[p2 bs2] es2].
    destruct (sprint i); exact H.
  - destruct (sprint i); apply appended_refl.
Qed.

Lemma drainLoop_events (now : Z) (n : nat) :
  forall (p : ServerPlayer) (bs : list ServerBall) (es : list GameEvent),
    appended es (snd (drainLoop now n (p, bs, es))).
Proof.
  induction n as [|n IH]; intros p bs es; simpl; [apply appended_refl|].
  destruct (p_inputBuffer p) as [|i rest]; [apply appended_refl|].
  pose proof (applyInput_events now i (set_p_inputBuffer rest p) bs es) as H.
  destruct (applyInput now i (set_p_inputBuffer rest p) bs es) as [[p' bs'] es'].
  eapply appended_trans; [exact H | apply IH].
Qed.

Lemma processInputs_events (now : Z) (ps : list ServerPlayer) :
  forall (bs : list ServerBall) (es : list GameEvent),
    appended es (snd (processInputs now ps bs es)).
Proof.
  induction ps as [|p ps IH]; intros bs es; simpl; [apply appended_refl|].
  pose proof (drainLoop_events now (List.length (p_inputBuffer p)) p bs es) as H.
  unfold drainInputs.
  destruct (drainLoop now _ (p, bs, es)) as [[p' bs'] es'].
  specialize (IH bs' es').
  destruct (processInputs now ps bs' es') as [[ps' bs''] es''].
  simpl in *. eapply appended_trans; eassumption.
Qed.

Lemma checkHitsLoop_events (now : Z) (ps : list ServerPlayer) :
  forall (b : ServerBall) (es : list GameEvent),
    appended es (snd (checkHitsLoop now ps b es)).
Proof.
  induction ps as [|p ps IH]; intros b es; simpl; [apply appended_refl|].
  destruct (_ || _).
  - specialize (IH b es).
    destruct (checkHitsLoop now ps b es) as [[ps' b'] es']. exact IH.
  - destruct (nltb _ _).
    + match goal with
      | |- context [checkHitsLoop now ps ?b1 ?es1] =>
          specialize (IH b1 es1);
          destruct (checkHitsLoop now ps b1 es1) as [[ps' b'] es']
      end.
      simpl in *. eapply appended_trans; [|exact IH].
      eexists. split; [reflexivity|]. repeat constructor.
    + specialize (IH b es).
      destruct (checkHitsLoop now ps b es) as [[ps' b'] es']. exact IH.
Qed.

Lemma physicsBall_events (now : Z) (b : ServerBall) (ps : list ServerPlayer)
    (es : list GameEvent) :
  appended es (snd (physicsBall now b ps es)).
Proof.
  unfold physicsBall.
  destruct (_ || _).
  - destruct (_ && _); [|apply appended_refl].
    unfold checkHits.
    pose proof (checkHitsLoop_events now ps (ballMotion b) es) as H.
    destruct (checkHitsLoop now ps (ballMotion b) es) as [[ps' b4] es'].
    exact H.
  - destruct (_ && _); [|apply appended_refl].
    destruct (b_owner b); [|apply appended_refl].
    destruct (players_get _ _); apply appended_refl.
Qed.

Lemma physics_events (now : Z) (bs : list ServerBall) :
  forall (ps : list ServerPlayer) (es : list GameEvent),
    appended es (snd (physics now bs ps es)).
Proof.
  induction bs as [|b bs IH]; intros ps es; simpl; [apply appended_refl|].
  pose proof (physicsBall_events now b ps es) as H.
  destruct (physicsBall now b ps es) as [[b' ps'] es'].
  specialize (IH ps' es').
  destruct (physics now bs ps' es') as [[bs' ps''] es''].
  simpl in *. eapply appended_trans; eassumption.
Qed.

Lemma tickPhase_events (now : Z) (m : Match) :
  events (tickPhase now m)
  = events m ++ (if finishing m then [Win "draw"%string now] else [])
  /\ env_sent (tickPhase now m) = env_sent m.
Proof.
  unfold tickPhase, finishing. destruct (matchState m).
  - rewrite app_nil_r. destruct (nleb _ _); [|split; reflexivity].
    unfold respawnAll. simpl. destruct (respawnPlayers _ _). split; reflexivity.
  - destruct (nleb _ _); [|rewrite app_nil_r; split; reflexivity].
    unfold stop. simpl. destruct (tickInterval m); split; reflexivity.
  - rewrite app_nil_r. split; reflexivity.
Qed.

Lemma tick_events (now : Z) (m : Match) :
  exists d,
    Forall (fun e => isWin e = false) d
    /\ let es := events m ++ (if finishing m then [Win "draw"%string now] else []) ++ d in
       if Z.eqb (Z.rem (tickCount m + 1) 2) 0 then
         events (tick now m) = []
         /\ exists w,
              env_sent (tick now m)
              = env_sent m ++ map (fun p => (p_id p, w)) (players (tick now m))
              /\ ws_events w = es
              /\ ws_tick w = (tickCount m + 1)%Z
              /\ ws_timestamp w = now
              /\ ws_players w = map snapshotOfPlayer (players (tick now m))
              /\ ws_balls w = map snapshotOfBall (balls (tick now m))
       else
         events (tick now m) = es /\ env_sent (tick now m) = env_sent m.
Proof.
  unfold tick.
  set (m0 := set_tickCount (tickCount m + 1) m).
  destruct (tickPhase_events now m0) as [A B].
  assert (C : tickCount (tickPhase now m0) = (tickCount m + 1)%Z).
  { unfold tickPhase. destruct (matchState m0).
    - destruct (nleb _ _); [|reflexivity].
      unfold respawnAll. simpl. destruct (respawnPlayers _ _). reflexivity.
    - destruct (nleb _ _); [|reflexivity].
      unfold stop. simpl. destruct (tickInterval m); reflexivity.
    - reflexivity. }
  change (events m0) with (events m) in A.
  change (finishing m0) with (finishing m) in A.
  change (env_sent m0) with (env_sent m) in B.
  set (m1 := tickPhase now m0) in *. clearbody m1. clear m0.
  pose proof (processInputs_events now (players m1) (balls m1) (events m1)) as H1.
  destruct (processInputs now (players m1) (balls m1) (events m1)) as [[ps bs] es1].
  pose proof (physics_events now bs ps es1) as H2.
  destruct (physics now bs ps es1) as [[bs' ps'] es2].
  simpl in H1, H2.
  destruct (appended_trans H1 H2) as [d [Hd Hn]].
  exists d. split; [exact Hn|].
  rewrite A in Hd. rewrite <- app_assoc in Hd. cbv zeta.
  assert (T : tickCount (storeHistory (set_events es2 (set_balls bs' (set_players ps' m1))))
              = (tickCount m + 1)%Z).
  { unfold storeHistory. destruct (Nat.ltb _ _); exact C. }
  rewrite T.
  destruct (Z.eqb (Z.rem (tickCount m + 1) 2) 0).
  - split; [reflexivity|].
    exists (worldSnapshot now
              (storeHistory (set_events es2 (set_balls bs' (set_players ps' m1))))).
    unfold broadcastSnapshot, worldSnapshot, storeHistory.
    destruct (Nat.ltb _ _); simpl; rewrite B, C, Hd; repeat split.
  - unfold storeHistory. destruct (Nat.ltb _ _); simpl; rewrite B, Hd; split; reflexivity.
Qed.

(** X15.  [tryCatch] takes the first ball, in the order of the [Map], that
    the player can catch (in flight, thrown by another player, less than 3
    away and in front) or pick up (idle, less than 2 away, the player
    holding nothing), whether or not a later ball is nearer: that ball is
    held by the player, who references it, every other ball is untouched,
    and a catch event is emitted for a ball that was in flight.  With no
    such ball nothing changes. *)
Theorem tryCatch_takes_the_first_ball_in_reach :
  forall (now : Z) (p : ServerPlayer) (es : list GameEvent),
    (forall bs,
       Forall (fun b => canCatch p b || canPickUp p b = false) bs ->
       tryCatch now p bs es = (p, bs, es))
    /\ (forall l1 b l2,
          Forall (fun c => canCatch p c || canPickUp p c = false) l1 ->
          canCatch p b || canPickUp p b = true ->
          tryCatch now p (l1 ++ b :: l2) es
          = (set_p_holding (Some (b_id b)) p,
             l1 ++ inHand p b :: l2,
             es ++ (if BallState_eqb (b_state b) thrown
                    then [Catch (p_id p) (b_id b) now] else []))).
Proof.
  intros now p es. split.
  - intros bs H. apply tryCatch_none. exact H.
  - intros l1 b l2 H Hb. apply tryCatch_first; assumption.
Qed.

(** X10.  A tick only adds to the pending events: first a win event, if it
    is the tick that ends the match, then catch and elimination events.  On
    a tick with an even number all pending events go out in one snapshot,
    which carries the state after the tick and is sent once to every player
    of the match, and the pending list is emptied; on a tick with an odd
    number nothing is sent and the events stay pending. *)
Theorem tick_sends_the_pending_events :
  forall (now : Z) (m : Match),
    exists d,
      Forall (fun e => isWin e = false) d
      /\ let es :=
           events m ++ (if finishing m then [Win "draw"%string now] else []) ++ d in
         if Z.eqb (Z.rem (tickCount m + 1) 2) 0 then
           events (tick now m) = []
           /\ exists w,
                env_sent (tick now m)
                = env_sent m ++ map (fun p => (p_id p, w)) (players (tick now m))
                /\ ws_events w = es
                /\ ws_tick w = (tickCount m + 1)%Z
                /\ ws_timestamp w = now
                /\ ws_players w = map snapshotOfPlayer (players (tick now m))
                /\ ws_balls w = map snapshotOfBall (balls (tick now m))
         else
           events (tick now m) = es /\ env_sent (tick now m) = env_sent m.
Proof.
  intros now m. exact (tick_events now m).
Qed.

End CatchFacts.

(** ** The timer, the order of the snapshots, the phases *)

Section TickFacts.

Context {N : Num} {M : MathLib N}.
Local Open Scope num_scope.

Lemma Sorted_snoc_all (l : list Z) (t : Z) (k : nat) :
  Sorted Z.le l -> Forall (fun i => (i <= t)%Z) l ->
  Sorted Z.le (l ++ repeat t k).
Proof.
  intros Hs Hf. induction l as [|a l IH]; simpl.
  - induction k as [|k IHk]; simpl; [constructor|].
    constructor; [exact IHk|]. destruct k; simpl; constructor. lia.
  - inversion Hs as [|? ? Hs' Hh]; subst. inversion Hf as [|? ? Ha Hl]; subst.
    constructor; [apply IH; assumption|].
    destruct l as [|b l]; simpl.
    + destruct k; simpl; constructor. exact Ha.
    + constructor. inversion Hh; subst. assumption.
Qed.

Lemma tick_sentInOrder (now : Z) (m : Match) :
  sentInOrder m -> sentInOrder (tick now m).
Proof.
  unfold sentInOrder, sentTicks. intros [Hf Hs].
  assert (Ht : tickCount (tick now m) = (tickCount m + 1)%Z)
    by (apply tick_clock).
  destruct (tick_events now m) as [d [_ H]]. cbv zeta in H.
  rewrite Ht.
  destruct (Z.eqb (Z.rem (tickCount m + 1) 2) 0) eqn:E.
  - destruct H as [_ [w [Hw [_ [Hk _]]]]]. rewrite Hw.
    rewrite map_app, map_map. simpl.
    assert (R : map (fun _ : ServerPlayer => ws_tick w) (players (tick now m))
                = repeat (tickCount m + 1)%Z (List.length (players (tick now m)))).
    { rewrite Hk. clear. induction (players (tick now m)) as [|p l IH]; simpl;
        [reflexivity | rewrite IH; reflexivity]. }
    rewrite R. apply Z.eqb_eq in E. split.
    + apply Forall_app. split.
      * eapply Forall_impl; [|exact Hf]. simpl. intros t [A B]. split; [exact A | lia].
      * apply Forall_forall. intros t Hin. apply repeat_spec in Hin. subst t.
        split; [exact E | lia].
    + apply Sorted_snoc_all; [exact Hs|].
      eapply Forall_impl; [|exact Hf]. simpl. intros t [_ B]. lia.
  - destruct H as [_ Hw]. rewrite Hw. split; [|exact Hs].
    eapply Forall_impl; [|exact Hf]. simpl. intros t [A B]. split; [exact A | lia].
Qed.

Lemma reachable_sentInOrder (m : Match) : reachable m -> sentInOrder m.
Proof.
  induction 1 as [mid md sockets | now m H IH | m H IH | k packet m H IH
                 | now k m H IH | now m H IH].
  - unfold sentInOrder, sentTicks, new_Match.
    destruct (initPlayers sockets 0 0 []) as [ps rc]. simpl.
    split; constructor.
  - exact IH.
  - unfold sentInOrder, sentTicks, stop. destruct (tickInterval m); exact IH.
  - unfold sentInOrder, sentTicks, onInput.
    destruct (players_get k (players m)) as [p|]; [|exact IH].
    destruct (seq packet >? p_lastInputSeq p)%Z; exact IH.
  - unfold sentInOrder, sentTicks, removePlayer.
    destruct (players_get k (players m)); exact IH.
  - apply tick_sentInOrder. exact IH.
Qed.

Lemma tick_timers (now : Z) (m : Match) :
  tickInterval (tick now m) = tickInterval m
  /\ env_timers (tick now m)
     = if finishing m then
         match tickInterval m with
         | Some h => clearInterval h (env_timers m)
         | None => env_timers m
         end
       else env_timers m.
Proof.
  unfold tick.
  assert (A : tickInterval (tickPhase now (set_tickCount (tickCount m + 1) m))
              = tickInterval m
              /\ env_timers (tickPhase now (set_tickCount (tickCount m + 1) m))
                 = if finishing m then
                     match tickInterval m with
                     | Some h => clearInterval h (env_timers m)
                     | None => env_timers m
                     end
                   else env_timers m).
  { unfold tickPhase, finishing. simpl. destruct (matchState m).
    - destruct (nleb _ _); [|split; reflexivity].
      unfold respawnAll. simpl. destruct (respawnPlayers _ _). split; reflexivity.
    - destruct (nleb _ _); [|split; reflexivity].
      unfold stop. simpl. destruct (tickInterval m) eqn:Et; simpl; rewrite ?Et;
        split; reflexivity.
    - split; reflexivity. }
  set (m1 := tickPhase now (set_tickCount (tickCount m + 1) m)) in *.
  clearbody m1. destruct A as [A B].
  destruct (processInputs now (players m1) (balls m1) (events m1)) as [[ps bs] es].
  destruct (physics now bs ps es) as [[bs' ps'] es'].
  unfold storeHistory.
  destruct (Nat.ltb _ _); simpl; destruct (Z.eqb _ 0); simpl; split; assumption.
Qed.

Lemma finishing_tick (now : Z) (m : Match) :
  finishing m = true ->
  matchState (tick now m) = finished
  /\ tickInterval (tick now m) = tickInterval m
  /\ (forall h, tickInterval m = Some h -> ~ In h (env_timers (tick now m))).
Proof.
  intros Hf.
  destruct (tick_timers now m) as [A B]. rewrite Hf in B.
  split.
  - assert (H : matchState (tick now m) = fst (fst (phaseStep (phaseOf m)))).
    { rewrite <- phaseOf_tick with (now := now). reflexivity. }
    rewrite H. unfold finishing in Hf. unfold phaseStep, phaseOf.
    destruct (matchState m); try discriminate Hf.
    rewrite Hf. reflexivity.
  - split; [exact A|].
    intros h Hh. rewrite B, Hh. unfold clearInterval.
    intros X. apply filter_In in X. destruct X as [_ X].
    rewrite Nat.eqb_refl in X. discriminate X.
Qed.

(** X25.  The phase does not gate the simulation: except on the tick that
    ends the warmup (which resets the entities first), a tick applies the
    buffered inputs and then the ball physics to the players and balls as
    they are, in the warmup, in the active phase and in the phase finished
    alike. *)
Theorem phase_does_not_gate_the_simulation (now : Z) (m : Match) :
  activating m = false ->
  (players (tick now m), balls (tick now m))
  = simulate now (players m) (balls m)
      (events m ++ (if finishing m then [Win "draw"%string now] else [])).
Proof.
  intros Ha. unfold tick, simulate.
  assert (A : players (tickPhase now (set_tickCount (tickCount m + 1) m)) = players m
              /\ balls (tickPhase now (set_tickCount (tickCount m + 1) m)) = balls m
              /\ events (tickPhase now (set_tickCount (tickCount m + 1) m))
                 = events m ++ (if finishing m then [Win "draw"%string now] else [])).
  { unfold tickPhase, activating, finishing in *. simpl. destruct (matchState m).
    - rewrite Ha. rewrite app_nil_r. repeat split.
    - destruct (nleb _ _); [|rewrite app_nil_r; repeat split].
      unfold stop. simpl. destruct (tickInterval m); repeat split.
    - rewrite app_nil_r. repeat split. }
  set (m1 := tickPhase now (set_tickCount (tickCount m + 1) m)) in *.
  clearbody m1. destruct A as [A [B C]]. rewrite A, B, C.
  destruct (processInputs now (players m) (balls m) _) as [[ps bs] es].
  destruct (physics now bs ps es) as [[bs' ps'] es'].
  unfold storeHistory.
  destruct (Nat.ltb _ _); simpl; destruct (Z.eqb _ 0); reflexivity.
Qed.

(** X23.  In every state that a match reaches, every snapshot sent so far
    has an even tick number, not above the tick counter, and the snapshots
    left in the order of their tick numbers. *)
Theorem snapshots_leave_in_tick_order :
  forall m : Match, reachable m ->
    Forall (fun t => Z.rem t 2 = 0%Z /\ (t <= tickCount m)%Z) (sentTicks m)
    /\ Sorted Z.le (sentTicks m).
Proof.
  intros m H. exact (reachable_sentInOrder H).
Qed.

(** X24.  On the tick that ends the match (the phase is active and the
    clock reaches zero or below) the phase becomes finished and the
    interval timer of the match is cleared: its handle is no longer among
    the live timers. *)
Theorem finishing_tick_stops_the_timer :
  forall (now : Z) (m : Match),
    finishing m = true ->
    matchState (tick now m) = finished
    /\ tickInterval (tick now m) = tickInterval m
    /\ (forall h, tickInterval m = Some h -> ~ In h (env_timers (tick now m))).
Proof.
  intros now m H. apply finishing_tick. exact H.
Qed.

End TickFacts.

(** ** The walls and the floor, in binary64 *)

Section FreeBall.

Context {N : Num} {M : MathLib N}.

Lemma physicsBall_free_pos (now : Z) (b : ServerBall) (ps : list ServerPlayer)
    (es : list GameEvent) :
  BallState_eqb (b_state b) held = false ->
  b_pos (fst (fst (physicsBall now b ps es))) = b_pos (ballMotion b).
Proof.
  intros Hs. unfold physicsBall.
  assert (E : BallState_eqb (b_state b) thrown || BallState_eqb (b_state b) idle = true).
  { destruct (b_state b); try reflexivity. discriminate Hs. }
  rewrite E.
  destruct (_ && _); [|reflexivity].
  unfold checkHits.
  destruct (checkHitsLoop_all now ps (ballMotion b) es) as [_ [_ [_ [X _]]]].
  destruct (checkHitsLoop now ps (ballMotion b) es) as [[ps' b4] es'].
  exact X.
Qed.

End FreeBall.

Section SpecFloats.

Lemma SF_nan_is_nan (q : float) :
  Prim2SF q = S754_nan -> PrimFloat.is_nan q = true.
Proof.
  intros H. unfold PrimFloat.is_nan. rewrite eqb_spec, H. reflexivity.
Qed.

Lemma compare_cont_flip (m1 m2 : positive) :
  Pos.compare_cont Eq m2 m1 = CompOpp (Pos.compare_cont Eq m1 m2).
Proof.
  change (Pos.compare_cont Eq m2 m1) with (Pos.compare m2 m1).
  change (Pos.compare_cont Eq m1 m2) with (Pos.compare m1 m2).
  apply Pos.compare_antisym.
Qed.

(** For a positive finite [c]: a number whose absolute value is not above
    [c] is [NaN], or between [-c] and [c]. *)
Lemma SF_within (mc : positive) (ec : Z) (f : spec_float) :
  SFltb (S754_finite false mc ec) (SFabs f) = false ->
  f = S754_nan
  \/ (SFleb (S754_finite true mc ec) f = true
      /\ SFleb f (S754_finite false mc ec) = true).
Proof.
  unfold SFltb, SFleb.
  destruct f as [s | s | | s m e]; simpl.
  - intros _. right. destruct s; split; reflexivity.
  - discriminate.
  - intros _. left. reflexivity.
  - intros H. right.
    rewrite (Z.compare_antisym ec e), (compare_cont_flip mc m).
    destruct s; simpl.
    + split; [|reflexivity].
      destruct (Z.compare ec e); simpl in *; try reflexivity; try discriminate.
      destruct (Pos.compare_cont Eq mc m); simpl in *;
        try reflexivity; discriminate.
    + split; [reflexivity|].
      destruct (Z.compare ec e); simpl in *; try reflexivity; try discriminate.
      destruct (Pos.compare_cont Eq mc m); simpl in *;
        try reflexivity; discriminate.
Qed.

(** A number whose absolute value is above a positive finite [c] is above
    zero, or below it. *)
Lemma SF_beyond (mc : positive) (ec : Z) (f : spec_float) :
  SFltb (S754_finite false mc ec) (SFabs f) = true ->
  SFltb (S754_zero false) f = true
  \/ (SFltb (S754_zero false) f = false /\ SFltb f (S754_zero false) = true).
Proof.
  unfold SFltb.
  destruct f as [s | s | | s m e]; simpl; try discriminate.
  - intros _. destruct s; [right; split | left]; reflexivity.
  - intros _. destruct s; [right; split | left]; reflexivity.
Qed.

(** A number that is not below a positive finite [c] is [NaN], or at least
    [c]. *)
Lemma SF_floor (mc : positive) (ec : Z) (f : spec_float) :
  SFltb f (S754_finite false mc ec) = false ->
  f = S754_nan \/ SFleb (S754_finite false mc ec) f = true.
Proof.
  unfold SFltb, SFleb.
  destruct f as [s | s | | s m e]; simpl.
  - destruct s; discriminate.
  - destruct s; [discriminate | intros _; right; reflexivity].
  - intros _. left. reflexivity.
  - destruct s; [discriminate|]. intros H. right.
    rewrite (Z.compare_antisym e ec), (compare_cont_flip m mc).
    destruct (Z.compare e ec); simpl in *; try reflexivity; try discriminate.
    destruct (Pos.compare_cont Eq m mc); simpl in *;
      try reflexivity; discriminate.
Qed.

End SpecFloats.

Section Court.

Context {M : MathLib F64}.

(** The test and the assignment of a wall: [Math.abs(q) > 29] and
    [Math.sign(q) * 29]. *)
Lemma wall_clamp (q : float) :
  nanOrBetween (@nopp F64 (int 29)) (int 29)
    (if @nltb F64 (int 29) (@Math_abs F64 q)
     then @nmul F64 (@Math_sign F64 q) (int 29) else q).
Proof.
  unfold nanOrBetween.
  assert (C : exists mc ec,
             Prim2SF (@int F64 29) = S754_finite false mc ec
             /\ Prim2SF (@nopp F64 (int 29)) = S754_finite true mc ec)
    by (eexists; eexists; split; vm_compute; reflexivity).
  destruct C as [mc [ec [C C']]].
  assert (Z0 : Prim2SF PrimFloat.zero = S754_zero false)
    by (vm_compute; reflexivity).
  change (@nltb F64 (int 29) (@Math_abs F64 q))
    with (PrimFloat.ltb (@int F64 29) (PrimFloat.abs q)).
  destruct (PrimFloat.ltb (@int F64 29) (PrimFloat.abs q)) eqn:E;
    rewrite ltb_spec, abs_spec, C in E.
  - right.
    change (@Math_sign F64 q) with (Float64.sign q). unfold Float64.sign.
    rewrite !ltb_spec, Z0.
    destruct (SF_beyond _ _ _ E) as [H | [H1 H2]].
    + rewrite H. vm_compute. split; reflexivity.
    + rewrite H1, H2. vm_compute. split; reflexivity.
  - destruct (SF_within _ _ _ E) as [H | [H1 H2]].
    + left. apply SF_nan_is_nan. exact H.
    + right. rewrite !leb_spec, C, C'. split; assumption.
Qed.

(** The test and the assignment of the floor: [y < 0.35] and [y = 0.35]. *)
Lemma floor_clamp (q : float) :
  nanOrAbove (@lit F64 35 100)
    (if @nltb F64 q (lit 35 100) then @lit F64 35 100 else q).
Proof.
  unfold nanOrAbove.
  assert (C : exists mc ec, Prim2SF (@lit F64 35 100) = S754_finite false mc ec)
    by (eexists; eexists; vm_compute; reflexivity).
  destruct C as [mc [ec C]].
  change (@nltb F64 q (lit 35 100)) with (PrimFloat.ltb q (@lit F64 35 100)).
  destruct (PrimFloat.ltb q (@lit F64 35 100)) eqn:E.
  - right. vm_compute. reflexivity.
  - rewrite ltb_spec, C in E.
    destruct (SF_floor _ _ _ E) as [H | H].
    + left. apply SF_nan_is_nan. exact H.
    + right. rewrite leb_spec, C. exact H.
Qed.

Lemma ballMotion_inCourt (b : @ServerBall F64) : inCourt (b_pos (ballMotion b)).
Proof.
  unfold ballMotion.
  set (b1 := ballFall b). clearbody b1.
  assert (Hy : nanOrAbove (lit 35 100) (y (b_pos (floorBounce b1)))).
  { pose proof (floor_clamp (y (b_pos b1))) as H.
    unfold floorBounce.
    destruct (@nltb F64 (y (b_pos b1)) (lit 35 100)); [|exact H].
    destruct (BallState_eqb (b_state b1) thrown); exact H. }
  set (b2 := floorBounce b1) in *. clearbody b2.
  assert (Hx : nanOrBetween (@nopp F64 (int 29)) (int 29)
                 (x (b_pos (wallBounceX b2)))
               /\ y (b_pos (wallBounceX b2)) = y (b_pos b2)).
  { pose proof (wall_clamp (x (b_pos b2))) as H.
    unfold wallBounceX. cbv zeta.
    destruct (@nltb F64 (int 29) (@Math_abs F64 (x (b_pos b2))));
      split; [exact H | reflexivity | exact H | reflexivity]. }
  destruct Hx as [Hx Hy']. rewrite <- Hy' in Hy.
  set (b3 := wallBounceX b2) in *. clearbody b3.
  pose proof (wall_clamp (z (b_pos b3))) as H.
  unfold inCourt, wallBounceZ. cbv zeta.
  destruct (@nltb F64 (int 29) (@Math_abs F64 (z (b_pos b3))));
    (split; [exact Hx|]); (split; [exact Hy | exact H]).
Qed.

(** X13.  In binary64, the numbers of the program: after its physics step,
    every coordinate of a ball that is not held is [NaN], or it is inside
    the court (x and z between -29 and 29, y at least 0.35), wherever the
    ball was before and however fast it was.  Infinite coordinates are put
    back on a wall; [NaN] passes the three tests. *)
Theorem free_ball_is_in_the_court_or_not_a_number (now : Z)
    (b : @ServerBall F64) (ps : list (@ServerPlayer F64)) (es : list GameEvent) :
  BallState_eqb (b_state b) held = false ->
  inCourt (b_pos (fst (fst (physicsBall now b ps es)))).
Proof.
  intros Hs. rewrite (@physicsBall_free_pos F64 M now b ps es Hs).
  apply ballMotion_inCourt.
Qed.

End Court.

(** The [NaN] of the statement above is met in a match: a throw whose
    charge is infinite, along the z axis, leaves ball 2 with the x
    coordinate [0 * Infinity], and the ball keeps it in the ticks that
    follow. *)
Lemma blown_ball_is_not_a_number :
  reachable (M := Scenario.js) Scenario.blown
  /\ exists b b',
       balls_get 2 (balls Scenario.blown) = Some b
       /\ b_state b = idle
       /\ PrimFloat.is_nan (x (b_pos b)) = true
       /\ balls_get 2 (balls (Scenario.run 1 Scenario.blown)) = Some b'
       /\ b_state b' = idle
       /\ PrimFloat.is_nan (x (b_pos b')) = true.
Proof.
  split.
  { unfold Scenario.blown, Scenario.run. reach. exact reachable_armed. }
  remember (balls_get 2 (balls Scenario.blown)) as o eqn:E.
  remember (balls_get 2 (balls (Scenario.run 1 Scenario.blown))) as o' eqn:E'.
  vm_compute in E, E'. subst o o'.
  eexists. eexists. repeat split.
Qed.


(** ** The client's buffer and its packets *)

Section ClientFacts.

Context {N : Num}.

Lemma lastn_app_short (A : Type) (k : nat) (a l : list A) :
  lastn k (lastn k a ++ l) = lastn k (a ++ l).
Proof.
  unfold lastn.
  destruct (Nat.le_gt_cases (List.length a) k) as [H | H].
  - replace (List.length a - k)%nat with 0%nat by lia. reflexivity.
  - rewrite !length_app, length_skipn.
    replace (List.length a - (List.length a - k) + List.length l - k)%nat
      with (List.length l) by lia.
    replace (List.length a + List.length l - k)%nat
      with ((List.length a - k) + List.length l)%nat by lia.
    rewrite (Nat.add_comm (List.length a - k)), <- skipn_skipn.
    rewrite (skipn_app (List.length a - k) a l).
    replace (List.length a - k - List.length a)%nat with 0%nat by lia.
    reflexivity.
Qed.

Lemma onSnapshot_lastn (s : WorldSnapshot) (nm : NetworkManager) :
  (List.length (snapshots nm) <= 20)%nat ->
  snapshots (onSnapshot s nm) = lastn 20 (snapshots nm ++ [s]).
Proof.
  intros H. unfold onSnapshot, lastn. simpl.
  rewrite length_app. simpl.
  destruct (Nat.ltb 20 (List.length (snapshots nm) + 1)) eqn:E.
  - apply Nat.ltb_lt in E.
    replace (List.length (snapshots nm) + 1 - 20)%nat with 1%nat by lia.
    reflexivity.
  - apply Nat.ltb_ge in E.
    replace (List.length (snapshots nm) + 1 - 20)%nat with 0%nat by lia.
    reflexivity.
Qed.

Lemma lastn_length (A : Type) (k : nat) (l : list A) :
  (List.length (lastn k l) <= k)%nat.
Proof. unfold lastn. rewrite length_skipn. lia. Qed.

Lemma receive_lastn (l : list WorldSnapshot) :
  forall nm, (List.length (snapshots nm) <= 20)%nat ->
    snapshots (receive l nm) = lastn 20 (snapshots nm ++ l).
Proof.
  unfold receive.
  induction l as [|s l IH]; intros nm H; simpl.
  - rewrite app_nil_r. unfold lastn.
    replace (List.length (snapshots nm) - 20)%nat with 0%nat by lia. reflexivity.
  - rewrite IH.
    + rewrite (onSnapshot_lastn s nm H), lastn_app_short, <- app_assoc. reflexivity.
    + rewrite (onSnapshot_lastn s nm H). apply lastn_length.
Qed.

Lemma sendAll_seq (inputs : list (Z * InputIntent)) :
  forall nm,
    map seq (fst (sendAll inputs nm)) = ticksFrom (inputSeq nm) (List.length inputs).
Proof.
  induction inputs as [|[now input] rest IH]; intros nm; simpl; [reflexivity|].
  specialize (IH (snd (sendInput now input nm))).
  unfold sendInput in *. simpl in *.
  destruct (sendAll rest _) as [packets nm2]. simpl in *.
  rewrite IH. reflexivity.
Qed.

(** X16.  After any sequence of snapshot messages a new client's buffer
    holds the last 20 snapshots received (all of them while fewer have
    arrived), in the order of arrival. *)
Theorem buffer_holds_the_last_20_snapshots :
  forall l : list WorldSnapshot,
    snapshots (receive l new_NetworkManager) = lastn 20 l
    /\ (List.length (snapshots (receive l new_NetworkManager)) <= 20)%nat.
Proof.
  intros l.
  assert (H : snapshots (receive l new_NetworkManager) = lastn 20 l).
  { rewrite receive_lastn; [reflexivity | simpl; lia]. }
  split; [exact H|]. rewrite H. apply lastn_length.
Qed.

End ClientFacts.

(** ** Matches played by [Game] clients *)

Section OnlineFacts.

Context {N : Num} {M : MathLib N}.

Lemma applyInput_plain (now : Z) (i : InputPacket) (p : ServerPlayer)
    (bs : list ServerBall) (es : list GameEvent) :
  catch i = false -> p_holding p = None ->
  let r := applyInput now i p bs es in
  snd (fst r) = bs /\ snd r = es
  /\ p_holding (fst (fst r)) = None
  /\ p_state (fst (fst r)) = p_state p
  /\ p_inputBuffer (fst (fst r)) = p_inputBuffer p.
Proof.
  intros Hc Hh. unfold applyInput. simpl.
  destruct (p_state p) eqn:Es; simpl; try (repeat split; assumption).
  rewrite Hh, Hc, andb_false_r.
  destruct (sprint i); simpl; repeat split; assumption.
Qed.

Lemma drainLoop_plain (now : Z) (n : nat) :
  forall (p : ServerPlayer) (bs : list ServerBall) (es : list GameEvent),
    Forall (fun i => catch i = false) (p_inputBuffer p) -> p_holding p = None ->
    let r := drainLoop now n (p, bs, es) in
    snd (fst r) = bs /\ snd r = es
    /\ p_holding (fst (fst r)) = None
    /\ p_state (fst (fst r)) = p_state p
    /\ Forall (fun i => catch i = false) (p_inputBuffer (fst (fst r))).
Proof.
  induction n as [|n IH]; intros p bs es Hb Hh; simpl.
  - repeat split; assumption.
  - destruct (p_inputBuffer p) as [|i rest] eqn:E; simpl.
    + rewrite ?E. repeat split; try assumption; try constructor.
    + inversion Hb as [|? ? Hi Hrest]; subst.
      destruct (@applyInput_plain now i (set_p_inputBuffer rest p) bs es Hi Hh)
        as [A [B [C [D F]]]].
      destruct (applyInput now i (set_p_inputBuffer rest p) bs es) as [[p' bs'] es'].
      simpl in *. subst bs' es'.
      rewrite <- F in Hrest.
      destruct (IH p' bs es Hrest C) as [A' [B' [C' [D' F']]]].
      repeat split; try assumption. congruence.
Qed.

Lemma processInputs_plain (now : Z) (ps : list ServerPlayer) :
  forall (bs : list ServerBall) (es : list GameEvent),
    Forall emptyHanded ps ->
    let r := processInputs now ps bs es in
    snd (fst r) = bs /\ snd r = es /\ Forall emptyHanded (fst (fst r)).
Proof.
  induction ps as [|p ps IH]; intros bs es H; simpl.
  - repeat split. constructor.
  - inversion H as [|? ? [Hh [Hs Hb]] Hps]; subst.
    unfold drainInputs.
    destruct (@drainLoop_plain now (List.length (p_inputBuffer p)) p bs es Hb Hh)
      as [A [B [C [D F]]]].
    destruct (drainLoop now _ (p, bs, es)) as [[p' bs'] es'].
    simpl in *. subst bs' es'.
    destruct (IH bs es Hps) as [A' [B' C']].
    destruct (processInputs now ps bs es) as [[ps' bs''] es''].
    simpl in *. repeat split; try assumption.
    constructor; [|assumption].
    unfold emptyHanded. repeat split; try assumption. congruence.
Qed.

Lemma ballMotion_untouched (b : ServerBall) :
  untouched b -> untouched (ballMotion b).
Proof.
  unfold untouched, ballMotion. intros [Hs Ho].
  assert (H1 : b_state (floorBounce (ballFall b)) = idle
               /\ b_owner (floorBounce (ballFall b)) = None).
  { assert (H0 : b_state (ballFall b) = idle /\ b_owner (ballFall b) = None)
      by (split; assumption).
    set (b1 := ballFall b) in *. clearbody b1. destruct H0 as [A B].
    unfold floorBounce.
    destruct (nltb _ _); [|split; assumption].
    rewrite A. simpl. split; [reflexivity | exact B]. }
  set (b2 := floorBounce (ballFall b)) in *. clearbody b2.
  assert (H2 : b_state (wallBounceX b2) = idle /\ b_owner (wallBounceX b2) = None).
  { unfold wallBounceX. destruct H1 as [A B].
    destruct (nltb _ _); simpl; split; try reflexivity; assumption. }
  set (b3 := wallBounceX b2) in *. clearbody b3.
  unfold wallBounceZ. destruct H2 as [A B].
  destruct (nltb _ _); simpl; split; try reflexivity; assumption.
Qed.

Lemma physics_untouched (now : Z) (bs : list ServerBall) :
  forall (ps : list ServerPlayer) (es : list GameEvent),
    Forall untouched bs ->
    let r := physics now bs ps es in
    Forall untouched (fst (fst r)) /\ snd (fst r) = ps /\ snd r = es.
Proof.
  induction bs as [|b bs IH]; intros ps es H; simpl.
  - repeat split. constructor.
  - inversion H as [|? ? Hb Hbs]; subst.
    pose proof (ballMotion_untouched Hb) as Hm.
    unfold physicsBall.
    destruct Hb as [Hs Ho]. rewrite Hs. simpl.
    destruct Hm as [Hs' Ho']. rewrite Hs'. simpl.
    destruct (IH ps es Hbs) as [A [B C]].
    destruct (physics now bs ps es) as [[bs' ps'] es'].
    simpl in *. repeat split; try assumption.
    constructor; [split|]; assumption.
Qed.

Lemma respawnPlayers_emptyHanded (ps : list ServerPlayer) :
  forall rc,
    Forall emptyHanded ps -> Forall emptyHanded (fst (respawnPlayers ps rc)).
Proof.
  induction ps as [|p ps IH]; intros rc H; simpl; [constructor|].
  inversion H as [|? ? [Hh [Hs Hb]] Hps]; subst.
  specialize (IH (S rc) Hps).
  destruct (respawnPlayers ps (S rc)) as [ps' rc'].
  simpl in *. constructor; [|assumption].
  unfold emptyHanded. simpl. repeat split. assumption.
Qed.

Lemma tickPhase_quiet (now : Z) (m : Match) : quiet m -> quiet (tickPhase now m).
Proof.
  unfold quiet, tickPhase. intros [A B].
  destruct (matchState m).
  - destruct (nleb _ _); [|simpl; auto].
    unfold respawnAll. simpl.
    pose proof (@respawnPlayers_emptyHanded (players m) (env_randoms m) B) as H.
    destruct (respawnPlayers (players m) (env_randoms m)) as [ps rc].
    simpl in *. split; [|exact H].
    apply Forall_forall. intros b Hb. apply in_map_iff in Hb.
    destruct Hb as [c [<- _]]. split; reflexivity.
  - destruct (nleb _ _); [|simpl; auto].
    unfold stop. simpl. destruct (tickInterval m); simpl; auto.
  - auto.
Qed.

Lemma tick_quiet (now : Z) (m : Match) : quiet m -> quiet (tick now m).
Proof.
  intros H. unfold tick.
  pose proof (@tickPhase_quiet now (set_tickCount (tickCount m + 1) m) H) as H1.
  set (m1 := tickPhase now (set_tickCount (tickCount m + 1) m)) in *.
  clearbody m1. destruct H1 as [A B].
  destruct (@processInputs_plain now (players m1) (balls m1) (events m1) B)
    as [C [D E]].
  destruct (processInputs now (players m1) (balls m1) (events m1)) as [[ps bs] es].
  simpl in *. subst bs es.
  destruct (@physics_untouched now (balls m1) ps (events m1) A) as [F [G K]].
  destruct (physics now (balls m1) ps (events m1)) as [[bs' ps'] es'].
  simpl in *. subst ps' es'.
  unfold quiet, storeHistory.
  destruct (Nat.ltb _ _); simpl; destruct (Z.eqb _ 0); simpl; split; assumption.
Qed.

Lemma In_players_set (q p : ServerPlayer) (ps : list ServerPlayer) :
  In p (players_set q ps) -> p = q \/ In p ps.
Proof.
  induction ps as [|r ps IH]; simpl.
  - intros [H | []]. left. congruence.
  - destruct (String.eqb (p_id r) (p_id q)); simpl.
    + intros [H | H]; [left; congruence | right; right; assumption].
    + intros [H | H]; [right; left; assumption|].
      destruct (IH H); [left | right; right]; assumption.
Qed.

Lemma removePlayer_quiet (now : Z) (k : string) (m : Match) :
  quiet m -> quiet (removePlayer now k m).
Proof.
  unfold quiet, removePlayer. intros [A B].
  set (m1 := match players_get k (players m) with
             | Some p => _
             | None => m
             end).
  assert (H1 : balls m1 = balls m).
  { unfold m1. destruct (players_get k (players m)); reflexivity. }
  assert (H2 : forall p, In p (players m1) -> In p (players m) \/ p_id p = k).
  { unfold m1. destruct (players_get k (players m)) as [q|] eqn:E; [|auto].
    simpl. intros p Hp. apply In_players_set in Hp.
    apply players_get_In in E.
    destruct Hp as [-> | Hp]; [right; apply E | left; exact Hp]. }
  clearbody m1. simpl. rewrite H1. split.
  - apply Forall_forall. intros b Hb. apply in_map_iff in Hb.
    destruct Hb as [c [<- Hc]]. rewrite Forall_forall in A.
    destruct (A c Hc) as [Hs Ho]. unfold dropBall. rewrite Ho. simpl.
    split; assumption.
  - apply Forall_forall. intros p Hp.
    unfold players_delete in Hp. apply filter_In in Hp. destruct Hp as [Hp Hk].
    destruct (H2 p Hp) as [H | H].
    + rewrite Forall_forall in B. exact (B p H).
    + rewrite H, String.eqb_refl in Hk. discriminate Hk.
Qed.

Lemma onInput_quiet (k : string) (packet : InputPacket) (m : Match) :
  catch packet = false -> quiet m -> quiet (onInput k packet m).
Proof.
  unfold quiet, onInput. intros Hc [A B].
  destruct (players_get k (players m)) as [p|] eqn:E; [|auto].
  destruct (seq packet >? p_lastInputSeq p)%Z; [|auto].
  simpl. split; [exact A|].
  apply players_set_Forall; [|exact B].
  apply players_get_In in E. destruct E as [E _].
  rewrite Forall_forall in B. destruct (B p E) as [Hh [Hs Hb]].
  unfold emptyHanded. simpl. repeat split; try assumption.
  apply Forall_forall. intros i Hi.
  apply (Permutation_in _ (sortBySeq_perm _)) in Hi.
  apply in_app_or in Hi. destruct Hi as [Hi | [<- | []]]; [|exact Hc].
  rewrite Forall_forall in Hb. exact (Hb i Hi).
Qed.

Lemma new_Match_quiet (mid : string) (md : Mode) (sockets : list string) :
  quiet (new_Match mid md sockets).
Proof.
  unfold quiet, new_Match.
  assert (X : forall l i rc ps, Forall emptyHanded ps ->
              Forall emptyHanded (fst (initPlayers l i rc ps))).
  { induction l as [|s l IHl]; intros i rc ps Hps; simpl; [exact Hps|].
    apply IHl. apply players_set_Forall; [|exact Hps].
    unfold emptyHanded. simpl. repeat split. constructor. }
  specialize (X sockets 0%nat 0%nat [] (Forall_nil _)).
  destruct (initPlayers sockets 0 0 []) as [ps rc]. simpl in *.
  split; [|exact X].
  repeat constructor.
Qed.

Lemma played_quiet (m : Match) : played m -> quiet m.
Proof.
  induction 1 as [mid md sockets | now m H IH | m H IH | k packet m H IH Hg
                 | now k m H IH | now m H IH].
  - apply new_Match_quiet.
  - exact IH.
  - unfold quiet, stop. destruct (tickInterval m); exact IH.
  - apply onInput_quiet; [|exact IH].
    destruct Hg as [now [g [nm ->]]]. reflexivity.
  - apply removePlayer_quiet. exact IH.
  - apply tick_quiet. exact IH.
Qed.

Lemma played_reachable (m : Match) : played m -> reachable m.
Proof.
  induction 1; [apply reach_new | apply reach_start | apply reach_stop
               | apply reach_input | apply reach_remove | apply reach_tick];
    assumption.
Qed.

Lemma stale_packet_dropped (k : string) (packet : InputPacket) (m : Match) :
  reachable m -> (seq packet <= 0)%Z -> onInput k packet m = m.
Proof.
  intros H Hs. unfold onInput.
  destruct (players_get k (players m)) as [p|] eqn:E; [|reflexivity].
  apply players_get_In in E. destruct E as [E _].
  pose proof (reachable_started H) as X. rewrite Forall_forall in X.
  specialize (X p E). unfold seqStarted in X.
  destruct (seq packet >? p_lastInputSeq p)%Z eqn:G; [|reflexivity].
  apply Z.gtb_lt in G. lia.
Qed.

(** X17.  A new client numbers its packets 0, 1, 2, ...; a match starts
    every player at the last applied number 0 and accepts only higher
    numbers, so in every state that a match reaches the first packet of a
    new client changes nothing. *)
Theorem first_packet_of_a_client_is_dropped :
  forall m : Match, reachable m ->
    forall (k : string) (inputs : list (Z * InputIntent)),
      map seq (fst (sendAll inputs new_NetworkManager))
      = ticksFrom 0 (List.length inputs)
      /\ (forall now input,
            onInput k (fst (sendInput now input new_NetworkManager)) m = m).
Proof.
  intros m H k inputs. split.
  - exact (sendAll_seq inputs new_NetworkManager).
  - intros now input. apply stale_packet_dropped; [exact H | simpl; lia].
Qed.

(** X18.  [Game.animate] sends [catch: false] in every input.  In a match
    whose inputs all come from such clients no ball is ever caught, picked
    up or thrown: in every state every ball is idle and without owner, and
    every player in the match is alive and holds nothing. *)
Theorem game_clients_never_touch_a_ball :
  forall m : Match, played m ->
    Forall (fun b => b_state b = idle /\ b_owner b = None) (balls m)
    /\ Forall (fun p => p_holding p = None /\ p_state p = alive) (players m).
Proof.
  intros m H. destruct (played_quiet H) as [A B]. split; [exact A|].
  eapply Forall_impl; [|exact B].
  intros p [Hh [Hs _]]. split; assumption.
Qed.

End OnlineFacts.

(** ** The matchmaking *)

Section StringMapFacts.

Variable V : Type.

Lemma smap_get_set (k : string) (v : V) (l : list (string * V)) :
  smap_get k (smap_set k v l) = Some v.
Proof.
  induction l as [|e l IH]; simpl.
  - rewrite String.eqb_refl. reflexivity.
  - destruct (String.eqb (fst e) k) eqn:E; simpl.
    + rewrite String.eqb_refl. reflexivity.
    + rewrite E. exact IH.
Qed.

Lemma smap_get_set_other (k k' : string) (v : V) (l : list (string * V)) :
  k' <> k -> smap_get k' (smap_set k v l) = smap_get k' l.
Proof.
  intros Hk. induction l as [|e l IH]; simpl.
  - destruct (String.eqb k k') eqn:E; [|reflexivity].
    apply String.eqb_eq in E. congruence.
  - destruct (String.eqb (fst e) k) eqn:E; simpl.
    + apply String.eqb_eq in E.
      destruct (String.eqb k k') eqn:E1.
      * apply String.eqb_eq in E1. congruence.
      * rewrite E. rewrite E1. reflexivity.
    + rewrite IH. reflexivity.
Qed.

Lemma smap_get_delete (k : string) (l : list (string * V)) :
  smap_get k (smap_delete k l) = None.
Proof.
  unfold smap_delete. induction l as [|e l IH]; simpl; [reflexivity|].
  destruct (String.eqb (fst e) k) eqn:E; simpl; [exact IH|].
  rewrite E. exact IH.
Qed.

Lemma smap_get_In (k : string) (v : V) (l : list (string * V)) :
  smap_get k l = Some v -> In (k, v) l.
Proof.
  induction l as [|e l IH]; simpl; [discriminate|].
  destruct (String.eqb (fst e) k) eqn:E.
  - apply String.eqb_eq in E. intros [= <-]. left.
    destruct e as [a b]. simpl in *. subst a. reflexivity.
  - intros H. right. exact (IH H).
Qed.

Lemma smap_set_Forall (P : string * V -> Prop) (k : string) (v : V)
    (l : list (string * V)) :
  P (k, v) -> Forall P l -> Forall P (smap_set k v l).
Proof.
  intros Hv. induction 1 as [|e l He Hl IH]; simpl.
  - constructor; [assumption | constructor].
  - destruct (String.eqb (fst e) k); constructor; assumption.
Qed.

End StringMapFacts.

Section ManagerFacts.

Context {N : Num} {M : MathLib N}.

Lemma removeFromQueue_fields (socket : string) (mm : MatchManager) :
  casualQueue (removeFromQueue socket mm)
  = filter (fun s => negb (String.eqb s socket)) (casualQueue mm)
  /\ rankedQueue (removeFromQueue socket mm)
     = filter (fun s => negb (String.eqb s socket)) (rankedQueue mm)
  /\ matches (removeFromQueue socket mm) = matches mm
  /\ playerMatchMap (removeFromQueue socket mm) = playerMatchMap mm.
Proof.
  unfold removeFromQueue.
  destruct (existsb _ (casualQueue mm)); destruct (existsb _ (rankedQueue mm));
    simpl; repeat split.
Qed.

Lemma filter_out (socket : string) (l : list string) :
  ~ In socket (filter (fun s => negb (String.eqb s socket)) l).
Proof.
  intros H. apply filter_In in H. destruct H as [_ H].
  rewrite String.eqb_refl in H. discriminate H.
Qed.

Lemma NoDup_filter_app (f : string -> bool) (a b : list string) :
  NoDup (a ++ b) -> NoDup (filter f a ++ filter f b).
Proof.
  rewrite <- filter_app. apply NoDup_filter.
Qed.

Lemma NoDup_push (s : string) (a b : list string) :
  NoDup (a ++ b) -> ~ In s a -> ~ In s b -> NoDup ((a ++ [s]) ++ b).
Proof.
  intros H Ha Hb. rewrite <- app_assoc. simpl.
  apply (proj2 (NoDup_Add (Add_app s a b))).
  split; [exact H|]. intros X. apply in_app_or in X. tauto.
Qed.

Lemma NoDup_push_r (s : string) (a b : list string) :
  NoDup (a ++ b) -> ~ In s a -> ~ In s b -> NoDup (a ++ (b ++ [s])).
Proof.
  intros H Ha Hb. rewrite app_assoc.
  pose proof (Add_app s (a ++ b) []) as X. rewrite app_nil_r in X.
  apply (proj2 (NoDup_Add X)).
  split; [exact H|]. intros Y. apply in_app_or in Y. tauto.
Qed.

Lemma addToQueue_queuesShort (now : Z) (tag socket : string) (mode : Mode)
    (mm : MatchManager) :
  queuesShort mm -> queuesShort (addToQueue now tag socket mode mm).
Proof.
  unfold queuesShort, addToQueue. intros [Hn [Hc Hr]].
  destruct (removeFromQueue_fields socket mm) as [A [B _]].
  set (m1 := removeFromQueue socket mm) in *. clearbody m1.
  pose proof (@filter_out socket (casualQueue mm)) as Fc.
  pose proof (@filter_out socket (rankedQueue mm)) as Fr.
  pose proof (NoDup_filter_app (fun s => negb (String.eqb s socket)) _ _ Hn) as Hn'.
  pose proof (filter_length_le (fun s => negb (String.eqb s socket)) (casualQueue mm)) as Lc.
  pose proof (filter_length_le (fun s => negb (String.eqb s socket)) (rankedQueue mm)) as Lr.
  rewrite <- A in Fc, Hn', Lc. rewrite <- B in Fr, Hn', Lr.
  clear A B.
  unfold checkQueue, broadcastQueueStatus.
  destruct mode; simpl.
  - destruct (casualQueue m1) as [|a [|b l]] eqn:E; simpl in *; try lia.
    + split; [|lia].
      constructor; [exact Fr | exact Hn'].
    + split; [|lia]. inversion Hn' as [|? ? _ Hd]; subst. exact Hd.
  - destruct (rankedQueue m1) as [|a [|b [|c [|d l]]]] eqn:E; simpl in *; try lia.
    + split; [|lia]. apply (@NoDup_push_r socket (casualQueue m1) []); auto.
    + split; [|lia]. apply (@NoDup_push_r socket (casualQueue m1) [a]); auto.
    + split; [|lia]. apply (@NoDup_push_r socket (casualQueue m1) [a; b]); auto.
    + split; [|lia].
      rewrite app_nil_r.
      apply NoDup_app_remove_r in Hn'. exact Hn'.
Qed.

Lemma removeFromQueue_queuesShort (socket : string) (mm : MatchManager) :
  queuesShort mm -> queuesShort (removeFromQueue socket mm).
Proof.
  unfold queuesShort. intros [Hn [Hc Hr]].
  destruct (removeFromQueue_fields socket mm) as [A [B _]].
  rewrite A, B.
  pose proof (filter_length_le (fun s => negb (String.eqb s socket)) (casualQueue mm)).
  pose proof (filter_length_le (fun s => negb (String.eqb s socket)) (rankedQueue mm)).
  split; [apply NoDup_filter_app; exact Hn | lia].
Qed.

Lemma onDisconnect_queues (now : Z) (socket : string) (mm : MatchManager) :
  casualQueue (onDisconnect now socket mm) = casualQueue (removeFromQueue socket mm)
  /\ rankedQueue (onDisconnect now socket mm) = rankedQueue (removeFromQueue socket mm).
Proof.
  unfold onDisconnect.
  destruct (smap_get socket (playerMatchMap (removeFromQueue socket mm)));
    [|split; reflexivity].
  destruct (String.eqb s ""); split; reflexivity.
Qed.

Lemma serving_queuesShort (mm : MatchManager) : serving mm -> queuesShort mm.
Proof.
  induction 1 as [| now tag socket mode mm H IH | socket mm H IH
                 | now socket mm H IH | mm H IH | now matchId match_ mm H IH Hg
                 | socket packet mm H IH].
  - unfold queuesShort. simpl. split; [constructor | lia].
  - apply addToQueue_queuesShort. exact IH.
  - apply removeFromQueue_queuesShort. exact IH.
  - unfold queuesShort.
    destruct (onDisconnect_queues now socket mm) as [-> ->].
    apply removeFromQueue_queuesShort. exact IH.
  - exact IH.
  - exact IH.
  - exact IH.
Qed.

(** *** The identifiers in [playerMatchMap] *)

Lemma named_fold (matchId : string) (players : list string) :
  (exists tag, matchId = ("match_" ++ tag)%string) ->
  forall pm, named pm ->
    named (fold_left (fun pm p => smap_set p matchId pm) players pm).
Proof.
  intros Hid. induction players as [|p l IH]; intros pm H; simpl; [exact H|].
  apply IH. apply smap_set_Forall; [exact Hid | exact H].
Qed.

Lemma serving_named (mm : MatchManager) : serving mm -> named (playerMatchMap mm).
Proof.
  induction 1 as [| now tag socket mode mm H IH | socket mm H IH
                 | now socket mm H IH | mm H IH | now matchId match_ mm H IH Hg
                 | socket packet mm H IH]; try exact IH.
  - constructor.
  - unfold addToQueue, checkQueue.
    destruct (removeFromQueue_fields socket mm) as [_ [_ [_ A]]].
    set (m1 := removeFromQueue socket mm) in *. clearbody m1.
    assert (X : playerMatchMap (broadcastQueueStatus mode
                  (set_queueOf mode (queueOf mode m1 ++ [socket]) m1))
                = playerMatchMap mm).
    { destruct mode; simpl; exact A. }
    set (m2 := broadcastQueueStatus mode _) in *. clearbody m2.
    destruct (Nat.leb _ _); [|rewrite X; exact IH].
    simpl.
    assert (Y : playerMatchMap (set_queueOf mode
                  (skipn (requiredPlayers mode) (queueOf mode m2)) m2)
                = playerMatchMap mm).
    { destruct mode; simpl; exact X. }
    rewrite Y. apply named_fold; [|exact IH]. exists tag. reflexivity.
  - destruct (removeFromQueue_fields socket mm) as [_ [_ [_ A]]]. rewrite A. exact IH.
  - unfold onDisconnect.
    destruct (removeFromQueue_fields socket mm) as [_ [_ [_ A]]].
    set (m1 := removeFromQueue socket mm) in *. clearbody m1.
    destruct (smap_get socket (playerMatchMap m1)); [|rewrite A; exact IH].
    destruct (String.eqb s ""); [rewrite A; exact IH|].
    simpl. rewrite A. unfold named, smap_delete in *.
    rewrite Forall_forall in *. intros e He. apply filter_In in He.
    apply IH. tauto.
Qed.

(** *** Matches of the [Map] *)

Lemma serving_reachable (mm : MatchManager) :
  serving mm -> Forall (fun e => reachable (snd e)) (matches mm).
Proof.
  induction 1 as [| now tag socket mode mm H IH | socket mm H IH
                 | now socket mm H IH | mm H IH | now matchId match_ mm H IH Hg
                 | socket packet mm H IH].
  - constructor.
  - unfold addToQueue, checkQueue.
    destruct (removeFromQueue_fields socket mm) as [_ [_ [A _]]].
    set (m1 := removeFromQueue socket mm) in *. clearbody m1.
    assert (X : matches (broadcastQueueStatus mode
                  (set_queueOf mode (queueOf mode m1 ++ [socket]) m1))
                = matches mm).
    { destruct mode; simpl; exact A. }
    set (m2 := broadcastQueueStatus mode _) in *. clearbody m2.
    destruct (Nat.leb _ _); [|rewrite X; exact IH].
    simpl.
    assert (Y : matches (set_queueOf mode
                  (skipn (requiredPlayers mode) (queueOf mode m2)) m2)
                = matches mm).
    { destruct mode; simpl; exact X. }
    rewrite Y. apply smap_set_Forall; [|exact IH].
    simpl. apply reach_start. apply reach_new.
  - destruct (removeFromQueue_fields socket mm) as [_ [_ [A _]]]. rewrite A. exact IH.
  - unfold onDisconnect.
    destruct (removeFromQueue_fields socket mm) as [_ [_ [A _]]].
    set (m1 := removeFromQueue socket mm) in *. clearbody m1.
    destruct (smap_get socket (playerMatchMap m1)); [|rewrite A; exact IH].
    destruct (String.eqb s ""); [rewrite A; exact IH|].
    simpl. rewrite A.
    destruct (smap_get s (matches mm)) as [m|] eqn:E; [|exact IH].
    apply smap_set_Forall; [|exact IH].
    simpl. apply reach_remove.
    apply smap_get_In in E. rewrite Forall_forall in IH. exact (IH _ E).
  - simpl. unfold cleanUp. simpl.
    rewrite Forall_forall in *. intros e He. apply filter_In in He.
    apply IH. tauto.
  - simpl. apply smap_set_Forall; [|exact IH].
    simpl. apply reach_tick.
    apply smap_get_In in Hg. rewrite Forall_forall in IH. exact (IH _ Hg).
  - simpl. rewrite Forall_forall in *. intros e He.
    apply in_map_iff in He. destruct He as [e' [<- He']].
    simpl. apply reach_input. exact (IH _ He').
Qed.

(** *** After the clean-up *)

Lemma cleanUp_keeps_live (mm : MatchManager) :
  serving mm ->
  forall matchId match_,
    In (matchId, match_) (matches (cleanUp mm)) ->
    In (matchId, match_) (matches mm)
    /\ matchState match_ <> finished /\ players match_ <> [].
Proof.
  intros H matchId match_ Hin.
  unfold cleanUp in Hin. simpl in Hin. apply filter_In in Hin.
  destruct Hin as [Hin Hf]. simpl in Hf. apply negb_true_iff in Hf.
  split; [exact Hin|].
  pose proof (serving_reachable H) as R. rewrite Forall_forall in R.
  specialize (R _ Hin). simpl in R.
  split.
  - intros Hs. pose proof (reachable_clockOut R Hs) as Hc. simpl in Hc.
    unfold isFinished in Hf. rewrite Hc in Hf. discriminate Hf.
  - intros Hp. unfold isFinished in Hf. rewrite Hp in Hf. simpl in Hf.
    rewrite orb_true_r in Hf. discriminate Hf.
Qed.

(** *** A queue that fills up *)

Lemma filter_absent (socket : string) (l : list string) :
  ~ In socket l -> filter (fun s => negb (String.eqb s socket)) l = l.
Proof.
  induction l as [|a l IH]; simpl; intros H; [reflexivity|].
  destruct (String.eqb a socket) eqn:E.
  - apply String.eqb_eq in E. tauto.
  - simpl. rewrite IH; [reflexivity | tauto].
Qed.

Lemma fold_set_keeps (matchId p : string) (l : list string) :
  forall pm, smap_get p pm = Some matchId ->
    smap_get p (fold_left (fun pm q => smap_set q matchId pm) l pm) = Some matchId.
Proof.
  induction l as [|q l IH]; intros pm H; simpl; [exact H|].
  apply IH. destruct (String.eqb_spec p q) as [-> | Hq].
  - apply smap_get_set.
  - rewrite smap_get_set_other; assumption.
Qed.

Lemma fold_set_get (matchId p : string) (l : list string) :
  forall pm, In p l ->
    smap_get p (fold_left (fun pm q => smap_set q matchId pm) l pm) = Some matchId.
Proof.
  induction l as [|q l IH]; intros pm H; simpl; [contradiction|].
  destruct H as [-> | H].
  - apply fold_set_keeps. apply smap_get_set.
  - apply IH. exact H.
Qed.

Lemma seats_ids (l : list string) :
  forall i, map p_id (map seat (combine (List.seq i (List.length l)) l)) = l.
Proof.
  induction l as [|s l IH]; intros i; simpl; [reflexivity|].
  rewrite IH. reflexivity.
Qed.

(** X20.  When a socket that is not waiting joins a queue: if that makes the
    required number (2 for casual, 4 for ranked), the queue is emptied and a
    match with exactly the waiting sockets, in the order of their arrival,
    is stored under its identifier and started, and every one of them is
    mapped to it; otherwise the socket is appended to the queue and no
    match and no mapping changes. *)
Theorem full_queue_becomes_a_match (now : Z) (tag socket : string) (mode : Mode) (mm : MatchManager) :
  serving mm -> ~ In socket (queueOf mode mm) ->
  let mm' := addToQueue now tag socket mode mm in
  let matchId := ("match_" ++ tag)%string in
  let waiting := queueOf mode mm ++ [socket] in
  if Nat.eqb (List.length waiting) (requiredPlayers mode) then
    queueOf mode mm' = []
    /\ smap_get matchId (matches mm')
       = Some (start now (new_Match matchId mode waiting))
    /\ map p_id (players (new_Match matchId mode waiting)) = waiting
    /\ (forall p, In p waiting -> smap_get p (playerMatchMap mm') = Some matchId)
  else
    queueOf mode mm' = waiting
    /\ matches mm' = matches mm
    /\ playerMatchMap mm' = playerMatchMap mm.
Proof.
  intros Hsv Hs. destruct (serving_queuesShort Hsv) as [Hn [Hc Hr]].
  cbv zeta.
  unfold addToQueue.
  destruct (removeFromQueue_fields socket mm) as [A [B [C D]]].
  set (m1 := removeFromQueue socket mm) in *. clearbody m1.
  assert (Hq : queueOf mode m1 = queueOf mode mm).
  { destruct mode; simpl in *; [rewrite A | rewrite B]; apply filter_absent; exact Hs. }
  assert (Hl : (List.length (queueOf mode mm) < requiredPlayers mode)%nat).
  { destruct mode; simpl; assumption. }
  assert (Hd : NoDup (queueOf mode mm ++ [socket])).
  { pose proof (@NoDup_push_r socket [] (queueOf mode mm)) as X. simpl in X.
    apply X; [|tauto | exact Hs].
    destruct mode; simpl.
    - apply NoDup_app_remove_r in Hn. exact Hn.
    - apply NoDup_app_remove_l in Hn. exact Hn. }
  set (waiting := queueOf mode mm ++ [socket]) in *.
  assert (Hw : (List.length waiting <= requiredPlayers mode)%nat).
  { unfold waiting. rewrite length_app. simpl. lia. }
  unfold checkQueue.
  set (m2 := broadcastQueueStatus mode (set_queueOf mode (queueOf mode m1 ++ [socket]) m1)).
  assert (Q2 : queueOf mode m2 = waiting).
  { unfold m2, waiting. rewrite Hq. destruct mode; reflexivity. }
  assert (M2 : matches m2 = matches mm) by (unfold m2; destruct mode; exact C).
  assert (P2 : playerMatchMap m2 = playerMatchMap mm) by (unfold m2; destruct mode; exact D).
  clearbody m2. rewrite Q2.
  destruct (Nat.eqb (List.length waiting) (requiredPlayers mode)) eqn:E.
  - apply Nat.eqb_eq in E.
    assert (L : Nat.leb (requiredPlayers mode) (List.length waiting) = true)
      by (apply Nat.leb_le; lia).
    rewrite L.
    assert (F : firstn (requiredPlayers mode) waiting = waiting)
      by (rewrite <- E; apply firstn_all).
    assert (S : skipn (requiredPlayers mode) waiting = [])
      by (rewrite <- E; apply skipn_all).
    rewrite F, S.
    split; [destruct mode; reflexivity|].
    split; [simpl; apply smap_get_set|].
    split.
    + rewrite (new_Match_seats _ _ Hd). apply seats_ids.
    + intros p Hp. simpl. apply fold_set_get. exact Hp.
  - apply Nat.eqb_neq in E.
    assert (L : Nat.leb (requiredPlayers mode) (List.length waiting) = false)
      by (apply Nat.leb_gt; lia).
    rewrite L. split; [exact Q2|]. split; assumption.
Qed.

(** *** A disconnection *)

(** X21.  After a socket disconnects it waits in no queue and is mapped to
    no match; the match it was mapped to, if it is still stored, has had
    [removePlayer] called for it, and every other match is left as it is. *)
Theorem disconnect_leaves_queue_and_match (now : Z) (socket : string) (mm : MatchManager) :
  serving mm ->
  let mm' := onDisconnect now socket mm in
  ~ In socket (casualQueue mm') /\ ~ In socket (rankedQueue mm')
  /\ smap_get socket (playerMatchMap mm') = None
  /\ (forall matchId match_,
        smap_get socket (playerMatchMap mm) = Some matchId ->
        smap_get matchId (matches mm) = Some match_ ->
        smap_get matchId (matches mm') = Some (removePlayer now socket match_))
  /\ (forall matchId,
        smap_get socket (playerMatchMap mm) <> Some matchId ->
        smap_get matchId (matches mm') = smap_get matchId (matches mm)).
Proof.
  intros H. cbv zeta.
  destruct (onDisconnect_queues now socket mm) as [Qc Qr]. rewrite Qc, Qr.
  destruct (removeFromQueue_fields socket mm) as [A [B [C D]]].
  rewrite A, B.
  split; [apply filter_out|]. split; [apply filter_out|].
  unfold onDisconnect.
  set (m1 := removeFromQueue socket mm) in *. clearbody m1.
  rewrite D.
  pose proof (serving_named H) as Hn.
  destruct (smap_get socket (playerMatchMap mm)) as [k|] eqn:E.
  - assert (Hk : String.eqb k "" = false).
    { apply smap_get_In in E. unfold named in Hn. rewrite Forall_forall in Hn.
      destruct (Hn _ E) as [tag Ht]. simpl in Ht. rewrite Ht. reflexivity. }
    rewrite Hk. simpl. rewrite ?C, ?D.
    split; [apply smap_get_delete|].
    split.
    + intros matchId match_ [= ->] Hm. rewrite Hm. apply smap_get_set.
    + intros matchId Hne.
      destruct (smap_get k (matches mm)); [|reflexivity].
      apply smap_get_set_other. congruence.
  - rewrite ?D, ?E, ?C. split; [reflexivity|].
    split; [discriminate | reflexivity].
Qed.

Lemma existsb_absent (socket : string) (l : list string) :
  ~ In socket l -> existsb (fun s => String.eqb s socket) l = false.
Proof.
  induction l as [|a l IH]; simpl; intros H; [reflexivity|].
  destruct (String.eqb a socket) eqn:E.
  - apply String.eqb_eq in E. tauto.
  - apply IH. tauto.
Qed.

(** X26.  When a socket that waits in no queue joins one, every socket of
    that queue, the new one included, is sent one queue status whose
    [position] is the number of sockets waiting (the same number for all of
    them), also when the queue then becomes a match; no other status is
    sent. *)
Theorem joining_socket_is_told_the_queue_length (now : Z) (tag socket : string) (mode : Mode) (mm : MatchManager) :
  ~ In socket (casualQueue mm ++ rankedQueue mm) ->
  env_queueStatus (addToQueue now tag socket mode mm)
  = env_queueStatus mm
    ++ map (fun s => (s, mkQueueStatus (List.length (queueOf mode mm ++ [socket])) mode))
         (queueOf mode mm ++ [socket]).
Proof.
  intros H.
  assert (Hc : ~ In socket (casualQueue mm)) by (intros X; apply H; apply in_or_app; tauto).
  assert (Hr : ~ In socket (rankedQueue mm)) by (intros X; apply H; apply in_or_app; tauto).
  unfold addToQueue, removeFromQueue.
  rewrite (@existsb_absent socket _ Hc), (@existsb_absent socket _ Hr).
  rewrite (@filter_absent socket _ Hc), (@filter_absent socket _ Hr).
  unfold checkQueue.
  destruct mode; simpl; try reflexivity;
    match goal with |- context [if ?c then _ else _] => destruct c end;
    reflexivity.
Qed.

(** X19.  In every state of the manager nobody waits twice or in both
    queues, fewer than 2 sockets wait for a casual match and fewer than 4
    for a ranked one. *)
Theorem queues_never_hold_a_full_match :
  forall mm : MatchManager, serving mm ->
    NoDup (casualQueue mm ++ rankedQueue mm)
    /\ (List.length (casualQueue mm) < 2)%nat
    /\ (List.length (rankedQueue mm) < 4)%nat.
Proof.
  intros mm H. apply serving_queuesShort. exact H.
Qed.

(** X22.  The clean-up keeps exactly the stored matches for which
    [isFinished] is false: every match that is left has players and is not
    in the phase finished. *)
Theorem cleanUp_keeps_the_live_matches :
  forall mm : MatchManager, serving mm ->
    Forall (fun e => In e (matches mm)
                     /\ isFinished (snd e) = false
                     /\ matchState (snd e) <> finished
                     /\ players (snd e) <> [])
      (matches (cleanUp mm))
    /\ (forall e, In e (matches mm) -> isFinished (snd e) = false ->
                  In e (matches (cleanUp mm))).
Proof.
  intros mm H. split.
  - apply Forall_forall. intros [matchId match_] Hin.
    destruct (cleanUp_keeps_live H _ _ Hin) as [A [B C]].
    split; [exact A|]. split; [|split; assumption].
    unfold cleanUp in Hin. simpl in Hin. apply filter_In in Hin.
    destruct Hin as [_ Hf]. apply negb_true_iff in Hf. exact Hf.
  - intros e He Hf. unfold cleanUp. simpl. apply filter_In.
    split; [exact He|]. rewrite Hf. reflexivity.
Qed.

End ManagerFacts.

(** ** The timers of the matches *)

Section TimerFacts.

Context {N : Num} {M : MathLib N}.

Lemma clearInterval_twice (h : nat) (ts : list nat) :
  clearInterval h (clearInterval h ts) = clearInterval h ts.
Proof.
  unfold clearInterval. induction ts as [|t ts IH]; simpl; [reflexivity|].
  destruct (Nat.eqb t h) eqn:E; simpl; [exact IH|].
  rewrite E. simpl. rewrite IH. reflexivity.
Qed.

(** X27.  [stop] is idempotent, and after it the timer of the match is not
    live. *)
Theorem stop_is_idempotent (m : Match) :
  stop (stop m) = stop m
  /\ (forall h, tickInterval m = Some h -> ~ In h (env_timers (stop m))).
Proof.
  unfold stop. destruct (tickInterval m) as [h|] eqn:E; simpl.
  - rewrite E. unfold set_env_timers. simpl. rewrite clearInterval_twice.
    split; [reflexivity|].
    intros h' [= <-]. unfold clearInterval. intros X.
    apply filter_In in X. destruct X as [_ X].
    rewrite Nat.eqb_refl in X. discriminate X.
  - rewrite E. split; [reflexivity | discriminate].
Qed.

Lemma tick_ticking (now : Z) (m : Match) : ticking m -> ticking (tick now m).
Proof.
  intros [h [Hh Hl]].
  destruct (tick_timers now m) as [A B].
  exists h. split; [congruence|].
  intros Hs. rewrite B.
  destruct (finishing m) eqn:F.
  - exfalso. apply Hs. apply (finishing_tick now m F).
  - apply Hl. intros Hf. apply Hs.
    assert (H : matchState (tick now m) = fst (fst (phaseStep (phaseOf m)))).
    { rewrite <- phaseOf_tick with (now := now). reflexivity. }
    rewrite H. unfold phaseStep, phaseOf. rewrite Hf. reflexivity.
Qed.

Lemma onInput_ticking (k : string) (packet : InputPacket) (m : Match) :
  ticking m -> ticking (onInput k packet m).
Proof.
  unfold ticking, onInput.
  destruct (players_get k (players m)) as [p|]; [|auto].
  destruct (seq packet >? p_lastInputSeq p)%Z; auto.
Qed.

Lemma removePlayer_ticking (now : Z) (k : string) (m : Match) :
  ticking m -> ticking (removePlayer now k m).
Proof.
  unfold ticking, removePlayer.
  destruct (players_get k (players m)); auto.
Qed.

Lemma started_ticking (now : Z) (mid : string) (md : Mode) (sockets : list string) :
  ticking (start now (new_Match mid md sockets)).
Proof.
  unfold ticking, start, new_Match.
  destruct (initPlayers sockets 0 0 []) as [ps rc]. simpl.
  exists 0%nat. split; [reflexivity|]. intros _. left. reflexivity.
Qed.

Lemma serving_ticking (mm : MatchManager) :
  serving mm -> Forall (fun e => ticking (snd e)) (matches mm).
Proof.
  induction 1 as [| now tag socket mode mm H IH | socket mm H IH
                 | now socket mm H IH | mm H IH | now matchId match_ mm H IH Hg
                 | socket packet mm H IH].
  - constructor.
  - unfold addToQueue, checkQueue.
    destruct (removeFromQueue_fields socket mm) as [_ [_ [A _]]].
    set (m1 := removeFromQueue socket mm) in *. clearbody m1.
    assert (X : matches (broadcastQueueStatus mode
                  (set_queueOf mode (queueOf mode m1 ++ [socket]) m1))
                = matches mm).
    { destruct mode; simpl; exact A. }
    set (m2 := broadcastQueueStatus mode _) in *. clearbody m2.
    destruct (Nat.leb _ _); [|rewrite X; exact IH].
    simpl.
    assert (Y : matches (set_queueOf mode
                  (skipn (requiredPlayers mode) (queueOf mode m2)) m2)
                = matches mm).
    { destruct mode; simpl; exact X. }
    rewrite Y. apply smap_set_Forall; [|exact IH].
    simpl. apply started_ticking.
  - destruct (removeFromQueue_fields socket mm) as [_ [_ [A _]]]. rewrite A. exact IH.
  - unfold onDisconnect.
    destruct (removeFromQueue_fields socket mm) as [_ [_ [A _]]].
    set (m1 := removeFromQueue socket mm) in *. clearbody m1.
    destruct (smap_get socket (playerMatchMap m1)); [|rewrite A; exact IH].
    destruct (String.eqb s ""); [rewrite A; exact IH|].
    simpl. rewrite A.
    destruct (smap_get s (matches mm)) as [m|] eqn:E; [|exact IH].
    apply smap_set_Forall; [|exact IH].
    simpl. apply removePlayer_ticking.
    apply smap_get_In in E. rewrite Forall_forall in IH. exact (IH _ E).
  - simpl. unfold cleanUp. simpl.
    rewrite Forall_forall in *. intros e He. apply filter_In in He.
    apply IH. tauto.
  - simpl. apply smap_set_Forall; [|exact IH].
    simpl. apply tick_ticking.
    apply smap_get_In in Hg. rewrite Forall_forall in IH. exact (IH _ Hg).
  - simpl. rewrite Forall_forall in *. intros e He.
    apply in_map_iff in He. destruct He as [e' [<- He']].
    simpl. apply onInput_ticking. exact (IH _ He').
Qed.

(** X28.  Every match in the manager's [Map] has an interval timer, and the
    timer is live unless the phase of the match is finished: a match that
    has lost all its players, which the clean-up drops, is dropped with its
    timer running. *)
Theorem stored_matches_keep_ticking :
  forall mm : MatchManager, serving mm ->
    Forall (fun e => exists h,
              tickInterval (snd e) = Some h
              /\ (matchState (snd e) <> finished -> In h (env_timers (snd e))))
      (matches mm).
Proof.
  intros mm H. exact (serving_ticking H).
Qed.

End TimerFacts.

(** ** The further facts, with the inputs they are checked on *)

Lemma history_witness :
  reachable (M := Scenario.js) Scenario.armed
  /\ map fst (history Scenario.armed) = storedTicks (tickCount Scenario.armed)
  /\ (List.length (history Scenario.armed) <= HISTORY_SIZE)%nat.
Proof.
  split; [exact reachable_armed|].
  exact (@history_holds_the_last_30_ticks F64 Scenario.js Scenario.armed
           reachable_armed).
Defined.

Lemma reachable_over : reachable (M := Scenario.js) Scenario.over.
Proof.
  unfold Scenario.over, Scenario.lastSecond, Scenario.alone, Scenario.active,
    Scenario.run, Scenario.m0.
  reach.
Qed.

Lemma over_is_finished : matchState Scenario.over = finished.
Proof. vm_compute. reflexivity. Qed.

Lemma finished_phase_witness :
  reachable (M := Scenario.js) Scenario.over
  /\ matchState Scenario.over = finished
  /\ isFinished Scenario.over = true.
Proof.
  split; [exact reachable_over|]. split; [exact over_is_finished|].
  exact (@finished_phase_is_finished F64 Scenario.js Scenario.over
           reachable_over over_is_finished).
Defined.

Lemma two_sockets_distinct : NoDup ["a"%string; "b"%string].
Proof.
  constructor; [intros [H | []]; discriminate H|].
  constructor; [intros [] | constructor].
Qed.

Lemma constructor_witness :
  NoDup ["a"%string; "b"%string]
  /\ players (@new_Match F64 Scenario.js "match"%string casual
                ["a"%string; "b"%string])
     = map (@seat F64 Scenario.js) [(0%nat, "a"%string); (1%nat, "b"%string)].
Proof.
  split; [exact two_sockets_distinct|].
  exact (proj1 (@constructor_seats_the_sockets_in_turn F64 Scenario.js
                  "match"%string casual ["a"%string; "b"%string] two_sockets_distinct)).
Defined.

Lemma free_ball_witness :
  BallState_eqb (b_state Lobby.rolling) held = false
  /\ inCourt (b_pos (fst (fst (@physicsBall F64 Scenario.js 0 Lobby.rolling [] [])))).
Proof.
  split; [reflexivity|].
  exact (@free_ball_is_in_the_court_or_not_a_number Scenario.js 0 Lobby.rolling
           [] [] eq_refl).
Defined.

Lemma first_packet_witness :
  reachable (M := Scenario.js) Scenario.armed
  /\ onInput "a" (fst (sendInput 0 (animateInput Lobby.keys) new_NetworkManager))
       Scenario.armed
     = Scenario.armed.
Proof.
  split; [exact reachable_armed|].
  exact (proj2 (@first_packet_of_a_client_is_dropped F64 Scenario.js Scenario.armed
                  reachable_armed "a"%string []) 0%Z (animateInput Lobby.keys)).
Defined.

Lemma played_online : played (M := Scenario.js) Lobby.online.
Proof.
  unfold Lobby.online. apply play_tick. apply play_input.
  - unfold Scenario.m0. apply play_start. apply play_new.
  - exists 0%Z, Lobby.keys,
      (snd (sendInput 0 (animateInput Lobby.keys) new_NetworkManager)).
    reflexivity.
Qed.

Lemma game_clients_witness :
  played (M := Scenario.js) Lobby.online
  /\ Forall (fun b => b_state b = idle /\ b_owner b = None) (balls Lobby.online)
  /\ Forall (fun p => p_holding p = None /\ p_state p = alive) (players Lobby.online).
Proof.
  split; [exact played_online|].
  exact (@game_clients_never_touch_a_ball F64 Scenario.js Lobby.online played_online).
Defined.

Lemma serving_one : serving (M := Scenario.js) Lobby.one.
Proof. unfold Lobby.one. apply serve_join. apply serve_new. Qed.

Lemma serving_two : serving (M := Scenario.js) Lobby.two.
Proof. unfold Lobby.two. apply serve_join. exact serving_one. Qed.

Lemma queues_witness :
  serving (M := Scenario.js) Lobby.one
  /\ NoDup (casualQueue Lobby.one ++ rankedQueue Lobby.one)
  /\ (List.length (casualQueue Lobby.one) < 2)%nat
  /\ (List.length (rankedQueue Lobby.one) < 4)%nat.
Proof.
  split; [exact serving_one|].
  exact (@queues_never_hold_a_full_match F64 Scenario.js Lobby.one serving_one).
Defined.

Lemma b_is_not_waiting : ~ In "b"%string (queueOf casual Lobby.one).
Proof. intros [H | []]. discriminate H. Qed.

Lemma full_queue_witness :
  serving (M := Scenario.js) Lobby.one
  /\ ~ In "b"%string (queueOf casual Lobby.one)
  /\ queueOf casual Lobby.two = []
  /\ smap_get "match_t" (matches Lobby.two)
     = Some (start 0 (@new_Match F64 Scenario.js "match_t"%string casual
                        ["a"%string; "b"%string])).
Proof.
  split; [exact serving_one|]. split; [exact b_is_not_waiting|].
  pose proof (@full_queue_becomes_a_match F64 Scenario.js 0%Z "t"%string
                "b"%string casual Lobby.one serving_one b_is_not_waiting) as H.
  cbv zeta in H.
  change (queueOf casual Lobby.one) with ["a"%string] in H.
  simpl Nat.eqb in H. cbv iota in H.
  split; [exact (proj1 H) | exact (proj1 (proj2 H))].
Defined.

Lemma disconnect_witness :
  serving (M := Scenario.js) Lobby.two
  /\ ~ In "a"%string (casualQueue (onDisconnect 0 "a" Lobby.two))
  /\ smap_get "a" (playerMatchMap (onDisconnect 0 "a" Lobby.two))
     = None.
Proof.
  split; [exact serving_two|].
  pose proof (@disconnect_leaves_queue_and_match F64 Scenario.js 0%Z "a"%string
                Lobby.two serving_two) as H.
  cbv zeta in H.
  split; [exact (proj1 H) | exact (proj1 (proj2 (proj2 H)))].
Defined.

Lemma cleanUp_witness :
  serving (M := Scenario.js) Lobby.two
  /\ Forall (fun e => In e (matches Lobby.two)
                      /\ isFinished (snd e) = false
                      /\ matchState (snd e) <> finished
                      /\ players (snd e) <> [])
       (matches (cleanUp Lobby.two)).
Proof.
  split; [exact serving_two|].
  exact (proj1 (@cleanUp_keeps_the_live_matches F64 Scenario.js Lobby.two
                  serving_two)).
Defined.

Lemma snapshots_order_witness :
  reachable (M := Scenario.js) Scenario.armed
  /\ Sorted Z.le (sentTicks Scenario.armed).
Proof.
  split; [exact reachable_armed|].
  exact (proj2 (@snapshots_leave_in_tick_order F64 Scenario.js Scenario.armed
                  reachable_armed)).
Defined.

Lemma lastSecond_is_finishing : finishing Scenario.lastSecond = true.
Proof. vm_compute. reflexivity. Qed.

Lemma finishing_tick_witness :
  finishing Scenario.lastSecond = true
  /\ matchState (@tick F64 Scenario.js 0 Scenario.lastSecond) = finished.
Proof.
  split; [exact lastSecond_is_finishing|].
  exact (proj1 (@finishing_tick_stops_the_timer F64 Scenario.js 0%Z
                  Scenario.lastSecond lastSecond_is_finishing)).
Defined.

Lemma queued_is_not_activating : activating Scenario.queued = false.
Proof. vm_compute. reflexivity. Qed.

Lemma simulation_witness :
  activating Scenario.queued = false
  /\ (players (@tick F64 Scenario.js 0 Scenario.queued),
      balls (@tick F64 Scenario.js 0 Scenario.queued))
     = @simulate F64 Scenario.js 0 (players Scenario.queued) (balls Scenario.queued)
         (events Scenario.queued
          ++ (if finishing Scenario.queued then [Win "draw"%string 0%Z] else [])).
Proof.
  split; [exact queued_is_not_activating|].
  exact (@phase_does_not_gate_the_simulation F64 Scenario.js 0%Z Scenario.queued
           queued_is_not_activating).
Defined.

Lemma b_waits_nowhere :
  ~ In "b"%string (casualQueue Lobby.one ++ rankedQueue Lobby.one).
Proof. intros [H | []]. discriminate H. Qed.

Lemma queue_status_witness :
  ~ In "b"%string (casualQueue Lobby.one ++ rankedQueue Lobby.one)
  /\ env_queueStatus Lobby.two
     = env_queueStatus Lobby.one
       ++ map (fun s => (s, mkQueueStatus
                              (List.length (queueOf casual Lobby.one ++ ["b"%string]))
                              casual))
            (queueOf casual Lobby.one ++ ["b"%string]).
Proof.
  split; [exact b_waits_nowhere|].
  exact (@joining_socket_is_told_the_queue_length F64 Scenario.js 0%Z "t"%string
           "b"%string casual Lobby.one b_waits_nowhere).
Defined.

Lemma ticking_witness :
  serving (M := Scenario.js) Lobby.two
  /\ Forall (fun e => exists h,
               tickInterval (snd e) = Some h
               /\ (matchState (snd e) <> finished -> In h (env_timers (snd e))))
       (matches Lobby.two).
Proof.
  split; [exact serving_two|].
  exact (@stored_matches_keep_ticking F64 Scenario.js Lobby.two serving_two).
Defined.
